(** * Whitted-style renderer (Assignment5/renderer.py): the per-pixel stack
    pair, the task dispatch loop, the Fresnel term and the local shading.

    Conventions of the embedding.
    - [ti.i32] values are integers of [Z]; every arithmetic result that the
      source stores in an [i32] goes through [wrap32].
    - [ti.f32] values are exact rationals of [Q]: the development is about
      the arithmetic the source writes down, not about rounding.  Square
      root and the real power have no rational counterpart and are taken
      from Taichi as parameters ([Taichi]).  A division by zero is [Q]'s
      [x / 0 = 0] where Taichi produces inf or nan; no statement below
      depends on the value of such a quotient.
    - A Taichi field of shape (W, H) or (W, H, D) is a total function of its
      indices; the kernel only ever visits the indices of [frame_buf].  A
      read of the third index outside [0, D) is an error of the model.
    - Mutation is explicit state passing: the two stacks and the position in
      the lane's random stream make up [State].
    - Loops that the source does not bound (the rejection sampler, the
      [while] of [ray_color]) take a fuel. *)

From Stdlib Require Import ZArith QArith Qabs Qround Lia Lqa List Bool Permutation.
Import ListNotations.

Local Open Scope Z_scope.

(** ** 32-bit signed integers *)

Definition wrap32 (z : Z) : Z := (z + 2147483648) mod 4294967296 - 2147483648.

Definition add32 (a b : Z) : Z := wrap32 (a + b).
Definition sub32 (a b : Z) : Z := wrap32 (a - b).

Definition max_i32 : Z := 2147483647.

(** ** Fields indexed by pixel *)

Definition upd2 {B : Type} (f : Z -> Z -> B) (i j : Z) (v : B) : Z -> Z -> B :=
  fun i' j' => if (i' =? i) && (j' =? j) then v else f i' j'.

Definition upd3 {B : Type} (f : Z -> Z -> Z -> B) (i j k : Z) (v : B)
  : Z -> Z -> Z -> B :=
  fun i' j' k' => if (i' =? i) && (j' =? j) && (k' =? k) then v else f i' j' k'.

(** ** The bounded per-pixel stack

    [StatusStack] and [ResultStack] are the same class up to the type of the
    stored value ([StatusFrame] and [Color]); the operations are written once
    over the element type and instantiated twice below. *)

Module FieldStack.
Section Ops.
Variable A : Type.

Record t : Type := mk {
  max_depth : Z;
  stack : Z -> Z -> Z -> A;
  ptr : Z -> Z -> Z
}.

(** [__init__]: the storage is zero-filled by Taichi, [ptr.fill(-1)]. *)
Definition init (zero : A) (D : Z) : t :=
  {| max_depth := D; stack := fun _ _ _ => zero; ptr := fun _ _ => -1 |}.

Definition clear (s : t) (i j : Z) : t :=
  {| max_depth := max_depth s; stack := stack s; ptr := upd2 (ptr s) i j (-1) |}.

Definition empty (s : t) (i j : Z) : bool := ptr s i j <=? -1.

Definition full (s : t) (i j : Z) : bool := ptr s i j >=? max_depth s.

(** [top] reads [stack[i, j, ptr[i, j]]]; an index outside [0, D) is an
    out-of-bounds field access, which has no defined value. *)
Definition top (s : t) (i j : Z) : option A :=
  let p := ptr s i j in
  if (0 <=? p) && (p <? max_depth s) then Some (stack s i j p) else None.

Definition push (s : t) (i j : Z) (value : A) : bool * t :=
  if add32 (ptr s i j) 1 <? max_depth s then
    let p := add32 (ptr s i j) 1 in
    (true, {| max_depth := max_depth s;
              stack := upd3 (stack s) i j p value;
              ptr := upd2 (ptr s) i j p |})
  else (false, s).

Definition pop (s : t) (i j : Z) : bool * t :=
  if sub32 (ptr s i j) 1 >=? -1 then
    (true, {| max_depth := max_depth s;
              stack := stack s;
              ptr := upd2 (ptr s) i j (sub32 (ptr s i j) 1) |})
  else (false, s).

(** The operations a lane can apply to a stack. *)
Inductive op : Type :=
| Clear (i j : Z)
| Push (i j : Z) (value : A)
| Pop (i j : Z).

Definition apply_op (s : t) (o : op) : t :=
  match o with
  | Clear i j => clear s i j
  | Push i j v => snd (push s i j v)
  | Pop i j => snd (pop s i j)
  end.

Definition run_ops (s : t) (ops : list op) : t := fold_left apply_op ops s.

(** States reachable from a freshly constructed stack of capacity [D]. *)
Definition reachable (D : Z) (s : t) : Prop :=
  exists (s0 : t) (ops : list op),
    max_depth s0 = D /\ (forall i j, ptr s0 i j = -1) /\ s = run_ops s0 ops.

(** Pushing a list of values one after the other; the flag tells whether
    every single push succeeded. *)
Fixpoint push_all (s : t) (i j : Z) (vs : list A) : bool * t :=
  match vs with
  | [] => (true, s)
  | v :: vs' =>
      let (ok, s1) := push s i j v in
      let (ok', s2) := push_all s1 i j vs' in
      (ok && ok', s2)
  end.

(** The live part of pixel (i, j)'s storage, bottom first. *)
Definition contents (s : t) (i j : Z) : list A :=
  map (fun k => stack s i j (Z.of_nat k)) (seq 0 (Z.to_nat (ptr s i j + 1))).

(** The top-pointer of every pixel is -1 or an index of the storage. *)
Definition in_range (D : Z) (s : t) : Prop :=
  max_depth s = D /\
  forall i j, -1 <= ptr s i j /\ (ptr s i j = -1 \/ ptr s i j <= D - 1).

End Ops.

Arguments mk {A}.
Arguments max_depth {A}.
Arguments stack {A}.
Arguments ptr {A}.
Arguments init {A}.
Arguments clear {A}.
Arguments empty {A}.
Arguments full {A}.
Arguments top {A}.
Arguments push {A}.
Arguments pop {A}.
Arguments Clear {A}.
Arguments Push {A}.
Arguments Pop {A}.
Arguments apply_op {A}.
Arguments run_ops {A}.
Arguments reachable {A}.
Arguments push_all {A}.
Arguments contents {A}.
Arguments in_range {A}.
End FieldStack.

(** ** Scalars and 3-vectors *)

Local Open Scope Q_scope.

Definition Qltb (a b : Q) : bool := negb (Qle_bool b a).

Definition qmax (a b : Q) : Q := if Qle_bool a b then b else a.
Definition qmin (a b : Q) : Q := if Qle_bool a b then a else b.

Record vec3 : Type := mkVec { vx : Q; vy : Q; vz : Q }.

Definition vsplat (q : Q) : vec3 := mkVec q q q.
Definition vadd (a b : vec3) : vec3 := mkVec (vx a + vx b) (vy a + vy b) (vz a + vz b).
Definition vsub (a b : vec3) : vec3 := mkVec (vx a - vx b) (vy a - vy b) (vz a - vz b).
Definition vneg (a : vec3) : vec3 := mkVec (- vx a) (- vy a) (- vz a).
Definition vscale (k : Q) (a : vec3) : vec3 := mkVec (k * vx a) (k * vy a) (k * vz a).
Definition vmul (a b : vec3) : vec3 := mkVec (vx a * vx b) (vy a * vy b) (vz a * vz b).
Definition vdivs (a : vec3) (k : Q) : vec3 := mkVec (vx a / k) (vy a / k) (vz a / k).
Definition dot (a b : vec3) : Q := vx a * vx b + vy a * vy b + vz a * vz b.

(** Equality of vectors up to the equality of rationals. *)
Definition veq (a b : vec3) : Prop := vx a == vx b /\ vy a == vy b /\ vz a == vz b.

Definition veqb (a b : vec3) : bool :=
  Qeq_bool (vx a) (vx b) && Qeq_bool (vy a) (vy b) && Qeq_bool (vz a) (vz b).

(** [Color = ti.types.vector(3, ti.f32)]. *)
Definition Color : Type := vec3.

(** The primitives of Taichi the renderer calls: square root, the power with
    a real exponent, and the lane's stream of [ti.random()] draws. *)
Record Taichi : Type := mkTaichi {
  ti_sqrt : Q -> Q;
  ti_pow : Q -> Q -> Q;
  ti_random : nat -> Q
}.

Definition norm (T : Taichi) (a : vec3) : Q := ti_sqrt T (dot a a).
Definition normalized (T : Taichi) (a : vec3) : vec3 := vdivs a (norm T a).
Definition distance (T : Taichi) (a b : vec3) : Q := norm T (vsub a b).

(** [tm.inf], the only non-finite value the renderer handles. *)
Inductive tbound : Type :=
| Finite (q : Q)
| Inf.

Definition lt_bound (a : Q) (b : tbound) : bool :=
  match b with
  | Finite q => Qltb a q
  | Inf => true
  end.

(** ** Data model *)

(** Modelled from the spec: the module [models] is not part of the sources;
    a ray is an origin and a direction (the source reads [ray.rd] and builds
    [Ray(origin, direction)]). *)
Record Ray : Type := mkRay { ro : vec3; rd : vec3 }.

(** Modelled from the spec: the discriminant of [models]' material, one of
    DIFFUSE, REFLECTIVE, REFLECTIVE_AND_REFRACTIVE; the source names the last
    two [REFLECTION] and [REFLECTION_AND_REFRACTION] and treats every other
    value as diffuse. *)
Inductive MaterialType : Type :=
| DIFFUSE_AND_GLOSSY
| REFLECTION_AND_REFRACTION
| REFLECTION.

Definition m_type_eqb (a b : MaterialType) : bool :=
  match a, b with
  | DIFFUSE_AND_GLOSSY, DIFFUSE_AND_GLOSSY => true
  | REFLECTION_AND_REFRACTION, REFLECTION_AND_REFRACTION => true
  | REFLECTION, REFLECTION => true
  | _, _ => false
  end.

(** Modelled from the spec: [models]' material record: diffuse color, the
    coefficients ka, kd, ks, the specular exponent, the index of refraction
    and the discriminant. *)
Record Material : Type := mkMaterial {
  m_type : MaterialType;
  ka : Q;
  kd : Q;
  ks : Q;
  diffuse_color : vec3;
  spec_exp : Q;
  ior : Q
}.

(** Modelled from the spec: [models]' hit record: hit flag, distance along
    the ray, position, normal, front-face flag, material. *)
Record HitRecord : Type := mkHitRecord {
  is_hit : bool;
  t : Q;
  pos : vec3;
  N : vec3;
  front_face : bool;
  mat : Material
}.

Definition vzero : vec3 := vsplat 0.

(** Taichi's zero-initialised [HitRecord()] and [Ray()]. *)
Definition Material0 : Material := mkMaterial DIFFUSE_AND_GLOSSY 0 0 0 vzero 0 0.
Definition HitRecord0 : HitRecord := mkHitRecord false 0 vzero vzero false Material0.
Definition Ray0 : Ray := mkRay vzero vzero.

(** Modelled from the spec: a hittable object of [models], seen through its
    only method [hit(ray, tmax)]. *)
Record Hittable : Type := mkHittable { obj_hit : Ray -> tbound -> HitRecord }.

Record AmbientLight : Type := mkAmbientLight { Ia : vec3 }.

Module PointLight.
Record t : Type := mk { pos : vec3; I : vec3 }.
End PointLight.

Record LightList : Type := mkLightList {
  ambient_light : AmbientLight;
  point_lights : list PointLight.t
}.

Record HittableList : Type := mkHittableList { objs : list Hittable }.

(** [HittableList.hit]: the nearest hit below [tmin]. *)
Definition hit_step (ray : Ray) (acc : HitRecord * tbound) (o : Hittable)
  : HitRecord * tbound :=
  let (rec, closest_so_far) := acc in
  let temp_rec := obj_hit o ray closest_so_far in
  if is_hit temp_rec && lt_bound (t temp_rec) closest_so_far
  then (temp_rec, Finite (t temp_rec))
  else (rec, closest_so_far).

Definition hit (w : HittableList) (ray : Ray) (tmin : tbound) : HitRecord :=
  fst (fold_left (hit_step ray) (objs w) (HitRecord0, tmin)).

(** ** Task frames and the two stacks *)

Definition TASK_PROCESS : Z := 0%Z.
Definition TASK_MERGE : Z := 1%Z.

Record StatusFrame : Type := mkStatusFrame {
  task_type : Z;
  depth : Z;
  ray : Ray;
  kr : Q
}.

Definition StatusFrame0 : StatusFrame := mkStatusFrame 0%Z 0%Z Ray0 0.

Module StatusStack.
Definition t : Type := FieldStack.t StatusFrame.
Definition init (width height max_depth : Z) : t :=
  FieldStack.init StatusFrame0 max_depth.
Definition clear : t -> Z -> Z -> t := FieldStack.clear.
Definition empty : t -> Z -> Z -> bool := FieldStack.empty.
Definition full : t -> Z -> Z -> bool := FieldStack.full.
Definition top : t -> Z -> Z -> option StatusFrame := FieldStack.top.
Definition push : t -> Z -> Z -> StatusFrame -> bool * t := FieldStack.push.
Definition pop : t -> Z -> Z -> bool * t := FieldStack.pop.
End StatusStack.

Module ResultStack.
Definition t : Type := FieldStack.t Color.
Definition init (width height max_depth : Z) : t :=
  FieldStack.init vzero max_depth.
Definition clear : t -> Z -> Z -> t := FieldStack.clear.
Definition empty : t -> Z -> Z -> bool := FieldStack.empty.
Definition full : t -> Z -> Z -> bool := FieldStack.full.
Definition top : t -> Z -> Z -> option Color := FieldStack.top.
Definition push : t -> Z -> Z -> Color -> bool * t := FieldStack.push.
Definition pop : t -> Z -> Z -> bool * t := FieldStack.pop.
End ResultStack.

(** ** Random directions (lines 15-30)

    The draws of [ti.random()] are read off the lane's stream at a running
    index.  The rejection loop is bounded by a fuel: [None] stands for a loop
    that has not accepted a point yet. *)

Definition rand3 (T : Taichi) (s : nat) : vec3 * nat :=
  (mkVec (ti_random T s) (ti_random T (S s)) (ti_random T (S (S s))), (3 + s)%nat).

Definition unit_cube_point (T : Taichi) (s : nat) : vec3 * nat :=
  let (q, s') := rand3 T s in (vsub (vscale 2 q) (mkVec 1 1 1), s').

Fixpoint rejection_loop (T : Taichi) (fuel : nat) (p : vec3) (s : nat)
  : option (vec3 * nat) :=
  if Qle_bool 1 (norm T p) then
    match fuel with
    | O => None
    | S fuel' => let (p', s') := unit_cube_point T s in rejection_loop T fuel' p' s'
    end
  else Some (p, s).

Definition random_in_unit_sphere (T : Taichi) (fuel : nat) (s : nat)
  : option (vec3 * nat) :=
  let (p, s') := unit_cube_point T s in rejection_loop T fuel p s'.

Definition random_unit_vector (T : Taichi) (fuel : nat) (s : nat)
  : option (vec3 * nat) :=
  match random_in_unit_sphere T fuel s with
  | Some (p, s') => Some (normalized T p, s')
  | None => None
  end.

(** ** The renderer *)

(** The configuration and the scene of a [Renderer]; the two stacks, which
    the kernel mutates, live in [State]. *)
Record Renderer : Type := mkRenderer {
  W : Z;
  H : Z;
  background_color : vec3;
  max_depth : Z;
  max_stack_size : Z;
  vfov : Q;
  eye_pos : vec3;
  reflect_fuzz : Q;
  lights : LightList;
  world : HittableList
}.

Record State : Type := mkState {
  status_stack : StatusStack.t;
  result_stack : ResultStack.t;
  rng : nat
}.

(** The state [__init__] builds.  Taichi refuses a field with a non-positive
    extent, so the constructor only returns for [W], [H] and
    [max_stack_size] of at least 1; the definition is meant on that range. *)
Definition init_state (r : Renderer) : State :=
  mkState (StatusStack.init (W r) (H r) (max_stack_size r))
          (ResultStack.init (W r) (H r) (max_stack_size r))
          O.

Definition eps : Q := 1 # 100000.

Definition reflect (v n : vec3) : vec3 := vsub v (vscale (2 * dot v n) n).

Definition refract (T : Taichi) (v n : vec3) (etai_over_etat : Q) : vec3 :=
  let cos_theta := qmin (dot n (vneg v)) 1 in
  let r_out_perp := vscale etai_over_etat (vadd v (vscale cos_theta n)) in
  let r_out_parallel :=
    vscale (- ti_sqrt T (Qabs (1 - dot r_out_perp r_out_perp))) n in
  vadd r_out_perp r_out_parallel.

(** Schlick's approximation. *)
Definition reflectance (cosine ref_idx : Q) : Q :=
  let r0 := (1 - ref_idx) / (1 + ref_idx) in
  let r0 := r0 * r0 in
  r0 + (1 - r0) * (1 - cosine) ^ 5.

(** The [r0] of [reflectance]. *)
Definition schlick_r0 (ref_idx : Q) : Q :=
  ((1 - ref_idx) / (1 + ref_idx)) * ((1 - ref_idx) / (1 + ref_idx)).

(** *** Local shading ([bling_phong]) *)

(** The three accumulators of the loop over the point lights. *)
Record Shade : Type := mkShade {
  ambient_color : vec3;
  diffuse_acc : vec3;
  specular_color : vec3
}.

Definition Shade0 : Shade := mkShade vzero vzero vzero.

Definition shadow_origin (ray : Ray) (rec : HitRecord) : vec3 :=
  if Qltb (dot (rd ray) (N rec)) 0
  then vadd (pos rec) (vscale eps (N rec))
  else vsub (pos rec) (vscale eps (N rec)).

Definition light_dir_of (T : Taichi) (rec : HitRecord) (light : PointLight.t) : vec3 :=
  normalized T (vsub (PointLight.pos light) (pos rec)).

(** [in_shadow] of one loop iteration (lines 235-239). *)
Definition in_shadow (T : Taichi) (r : Renderer) (shadow_orig : vec3)
           (rec : HitRecord) (light : PointLight.t) : bool :=
  let r_dist := distance T (PointLight.pos light) (pos rec) in
  let light_dir := light_dir_of T rec light in
  let shadow_rec := hit (world r) (mkRay shadow_orig light_dir) Inf in
  is_hit shadow_rec && Qltb (t shadow_rec) r_dist.

(** What one light adds to [diffuse_color] (line 245). *)
Definition diffuse_term (T : Taichi) (r : Renderer) (shadow_orig : vec3)
           (rec : HitRecord) (light : PointLight.t) : vec3 :=
  if in_shadow T r shadow_orig rec light
  then vzero
  else vsplat (qmax 0 (dot (light_dir_of T rec light) (N rec))).

(** What one light adds to [specular_color] (lines 248-249). *)
Definition specular_term (T : Taichi) (rec : HitRecord) (light : PointLight.t) : vec3 :=
  let light_dir := light_dir_of T rec light in
  let reflect_dir := normalized T (reflect (vneg light_dir) (N rec)) in
  vscale (ti_pow T (qmax 0 (- dot reflect_dir light_dir)) (spec_exp (mat rec)))
         (PointLight.I light).

(** One iteration of the loop over the lights (lines 233-249). *)
Definition light_step (T : Taichi) (r : Renderer) (shadow_orig : vec3)
           (rec : HitRecord) (acc : Shade) (light : PointLight.t) : Shade :=
  mkShade (vscale (ka (mat rec)) (Ia (ambient_light (lights r))))
          (vadd (diffuse_acc acc) (diffuse_term T r shadow_orig rec light))
          (vadd (specular_color acc) (specular_term T rec light)).

Definition shade_lights (T : Taichi) (r : Renderer) (ray : Ray) (rec : HitRecord)
           (ls : list PointLight.t) : Shade :=
  fold_left (light_step T r (shadow_origin ray rec) rec) ls Shade0.

Definition combine_shade (rec : HitRecord) (sh : Shade) : vec3 :=
  vadd (vadd (ambient_color sh)
             (vmul (vscale (kd (mat rec)) (diffuse_color (mat rec))) (diffuse_acc sh)))
       (vscale (ks (mat rec)) (specular_color sh)).

Definition bling_phong (T : Taichi) (r : Renderer) (ray : Ray) (rec : HitRecord) : vec3 :=
  combine_shade rec (shade_lights T r ray rec (point_lights (lights r))).

(** *** The task dispatch loop ([ray_color]) *)

(** What a piece of the kernel can end in: a value, a field access outside
    its bounds, or a loop that the fuel did not see terminate. *)
Inductive result (A : Type) : Type :=
| Ok (a : A)
| OutOfBounds
| OutOfFuel.

Arguments Ok {A}.
Arguments OutOfBounds {A}.
Arguments OutOfFuel {A}.

(** How one iteration of the [while] leaves the loop body. *)
Inductive control : Type :=
| Continue
| Break.

Definition black : Color := mkVec 0 0 0.

Definition placeholder (r : Renderer) : Color := vscale (99 # 100) (background_color r).

(** The effective index of refraction (lines 304-306). *)
Definition effective_ior (rec : HitRecord) : Q :=
  if front_face rec then 1 / ior (mat rec) else ior (mat rec).

Definition cos_theta_of (rd_n : vec3) (rec : HitRecord) : Q :=
  qmax (qmin (- dot rd_n (N rec)) 1) (-1).

(** The reflection ray (lines 311-318); [u] is the random unit vector. *)
Definition reflect_ray (T : Taichi) (r : Renderer) (rd_n : vec3) (rec : HitRecord)
           (u : vec3) : Ray :=
  let reflect_dir := normalized T (reflect rd_n (N rec)) in
  let reflect_dir := vadd reflect_dir (vscale (reflect_fuzz r) u) in
  let reflect_orig :=
    if Qltb 0 (dot reflect_dir (N rec))
    then vadd (pos rec) (vscale eps (N rec))
    else vadd (pos rec) (vscale eps (N rec)) in
  mkRay reflect_orig reflect_dir.

(** The refraction ray (lines 331-336). *)
Definition refract_ray (T : Taichi) (rd_n : vec3) (rec : HitRecord) (ref_idx : Q) : Ray :=
  let refract_dir := normalized T (refract T rd_n (N rec) ref_idx) in
  let refract_orig :=
    if Qltb 0 (dot refract_dir (N rec))
    then vadd (pos rec) (vscale eps (N rec))
    else vsub (pos rec) (vscale eps (N rec)) in
  mkRay refract_orig refract_dir.

(** Line 364: [kr * reflect_color + (1 - kr) * refract_color]. *)
Definition combine (kr : Q) (reflect_color refract_color : Color) : Color :=
  vadd (vscale kr reflect_color) (vscale (1 - kr) refract_color).

(** The [TASK_MERGE] branch (lines 358-365) on the result stack. *)
Definition merge_results (rs : ResultStack.t) (i j : Z) (kr : Q) : result ResultStack.t :=
  match ResultStack.top rs i j with
  | None => OutOfBounds
  | Some refract_color =>
      let rs1 := snd (ResultStack.pop rs i j) in
      match ResultStack.top rs1 i j with
      | None => OutOfBounds
      | Some reflect_color =>
          let rs2 := snd (ResultStack.pop rs1 i j) in
          let combined_color := combine kr reflect_color refract_color in
          Ok (snd (ResultStack.push rs2 i j combined_color))
      end
  end.

(** The Fresnel coefficient of a hit (lines 304-309). *)
Definition kr_of (T : Taichi) (frame : StatusFrame) (rec : HitRecord) : Q :=
  let rd_n := normalized T (rd (ray frame)) in
  reflectance (cos_theta_of rd_n rec) (effective_ior rec).

(** The three frames a mirror-like hit builds (lines 320, 323-327, 338-342). *)
Definition merge_frame (T : Taichi) (frame : StatusFrame) (rec : HitRecord) : StatusFrame :=
  mkStatusFrame TASK_MERGE (add32 (depth frame) 1) Ray0 (kr_of T frame rec).

Definition reflect_frame (T : Taichi) (r : Renderer) (frame : StatusFrame)
           (rec : HitRecord) (u : vec3) : StatusFrame :=
  mkStatusFrame TASK_PROCESS (add32 (depth frame) 1)
                (reflect_ray T r (normalized T (rd (ray frame))) rec u) 0.

Definition refract_frame (T : Taichi) (frame : StatusFrame) (rec : HitRecord) : StatusFrame :=
  mkStatusFrame TASK_PROCESS (add32 (depth frame) 1)
                (refract_ray T (normalized T (rd (ray frame))) rec (effective_ior rec)) 0.

(** The hit branch for the two mirror-like materials (lines 304-345). *)
Definition process_specular (T : Taichi) (r : Renderer) (fuel : nat) (i j : Z)
           (frame : StatusFrame) (rec : HitRecord) (ss : StatusStack.t)
           (rs : ResultStack.t) (g : nat) : result (control * State) :=
  match random_unit_vector T fuel g with
  | None => OutOfFuel
  | Some (u, g') =>
      let ss1 := snd (StatusStack.push ss i j (merge_frame T frame rec)) in
      let ss2 := snd (StatusStack.push ss1 i j (reflect_frame T r frame rec u)) in
      if m_type_eqb (m_type (mat rec)) REFLECTION_AND_REFRACTION then
        let ss3 := snd (StatusStack.push ss2 i j (refract_frame T frame rec)) in
        Ok (Continue, mkState ss3 rs g')
      else
        Ok (Continue, mkState ss2 (snd (ResultStack.push rs i j (placeholder r))) g')
  end.

(** The [TASK_PROCESS] branch (lines 293-355); [ss] is the status stack after
    the frame has been popped. *)
Definition process_frame (T : Taichi) (r : Renderer) (fuel : nat) (i j : Z)
           (frame : StatusFrame) (ss : StatusStack.t) (rs : ResultStack.t) (g : nat)
  : result (control * State) :=
  if (depth frame >=? max_depth r)%Z then
    Ok (Continue, mkState ss (snd (ResultStack.push rs i j black)) g)
  else
    let rec := hit (world r) (ray frame) Inf in
    if is_hit rec then
      if m_type_eqb (m_type (mat rec)) REFLECTION_AND_REFRACTION
         || m_type_eqb (m_type (mat rec)) REFLECTION
      then process_specular T r fuel i j frame rec ss rs g
      else
        let color := bling_phong T r (ray frame) rec in
        Ok (Continue, mkState ss (snd (ResultStack.push rs i j color)) g)
    else Ok (Break, mkState ss rs g).

(** One iteration of the [while] (lines 289-365). *)
Definition ray_color_step (T : Taichi) (r : Renderer) (fuel : nat) (i j : Z)
           (st : State) : result (control * State) :=
  match StatusStack.top (status_stack st) i j with
  | None => OutOfBounds
  | Some frame =>
      let ss := snd (StatusStack.pop (status_stack st) i j) in
      if (task_type frame =? TASK_PROCESS)%Z then
        process_frame T r fuel i j frame ss (result_stack st) (rng st)
      else if (task_type frame =? TASK_MERGE)%Z then
        match merge_results (result_stack st) i j (kr frame) with
        | Ok rs' => Ok (Continue, mkState ss rs' (rng st))
        | OutOfBounds => OutOfBounds
        | OutOfFuel => OutOfFuel
        end
      else Ok (Continue, mkState ss (result_stack st) (rng st))
  end.

(** The [while] of line 288, at most [n] iterations. *)
Fixpoint ray_color_loop (T : Taichi) (r : Renderer) (fuel : nat) (i j : Z)
         (n : nat) (st : State) : result State :=
  if StatusStack.empty (status_stack st) i j then Ok st
  else
    match n with
    | O => OutOfFuel
    | S n' =>
        match ray_color_step T r fuel i j st with
        | Ok (Continue, st') => ray_color_loop T r fuel i j n' st'
        | Ok (Break, st') => Ok st'
        | OutOfBounds => OutOfBounds
        | OutOfFuel => OutOfFuel
        end
    end.

(** Lines 367-373: the pixel color read off the result stack. *)
Definition final_color (r : Renderer) (i j : Z) (st : State) : result (Color * State) :=
  if negb (ResultStack.empty (result_stack st) i j) then
    match ResultStack.top (result_stack st) i j with
    | Some pixel_color =>
        Ok (pixel_color,
            mkState (status_stack st) (snd (ResultStack.pop (result_stack st) i j)) (rng st))
    | None => OutOfBounds
    end
  else Ok (background_color r, st).

(** Lines 283-287: both stacks cleared, the primary frame pushed. *)
Definition start_state (i j : Z) (ray : Ray) (st : State) : State :=
  let ss := StatusStack.clear (status_stack st) i j in
  let rs := ResultStack.clear (result_stack st) i j in
  let frame := mkStatusFrame TASK_PROCESS 0%Z ray 1 in
  mkState (snd (StatusStack.push ss i j frame)) rs (rng st).

Definition ray_color (T : Taichi) (r : Renderer) (fuel : nat) (i j : Z) (ray : Ray)
           (st : State) : result (Color * State) :=
  match ray_color_loop T r fuel i j fuel (start_state i j ray st) with
  | Ok st' => final_color r i j st'
  | OutOfBounds => OutOfBounds
  | OutOfFuel => OutOfFuel
  end.

(** The color alone. *)
Definition pixel_of (x : result (Color * State)) : option Color :=
  match x with
  | Ok (c, _) => Some c
  | _ => None
  end.

(** ** The stacks as lists, and runs of the loop *)

(** Pixel (i, j) of [s] holds the entries [l], bottom first, within a storage
    of capacity [D]. *)
Definition holds {A : Type} (D : Z) (s : FieldStack.t A) (i j : Z) (l : list A) : Prop :=
  FieldStack.max_depth s = D /\
  (-1 <= FieldStack.ptr s i j < D)%Z /\
  FieldStack.contents s i j = l.

(** [steps n st st']: [n] iterations of the [while], none of which breaks. *)
Inductive steps (T : Taichi) (r : Renderer) (fuel : nat) (i j : Z)
  : nat -> State -> State -> Prop :=
| steps_done st : steps T r fuel i j O st st
| steps_next n st st1 st2 :
    ray_color_step T r fuel i j st = Ok (Continue, st1) ->
    steps T r fuel i j n st1 st2 ->
    steps T r fuel i j (S n) st st2.

(** The color a [TASK_PROCESS] frame stands for, read recursively: the value
    the engine accumulates for the frame when no ray of its subtree escapes.
    The two generators are the indices of the random stream before and
    after. *)
Inductive trace_value (T : Taichi) (r : Renderer) (fuel : nat)
  : StatusFrame -> nat -> Color -> nat -> Prop :=
| tv_exhausted frame g :
    task_type frame = TASK_PROCESS ->
    (depth frame >= max_depth r)%Z ->
    trace_value T r fuel frame g black g
| tv_diffuse frame g :
    let rec := hit (world r) (ray frame) Inf in
    task_type frame = TASK_PROCESS ->
    (depth frame < max_depth r)%Z ->
    is_hit rec = true ->
    m_type (mat rec) = DIFFUSE_AND_GLOSSY ->
    trace_value T r fuel frame g (bling_phong T r (ray frame) rec) g
| tv_reflection frame g u g1 c_reflected g2 :
    let rec := hit (world r) (ray frame) Inf in
    task_type frame = TASK_PROCESS ->
    (depth frame < max_depth r)%Z ->
    is_hit rec = true ->
    m_type (mat rec) = REFLECTION ->
    random_unit_vector T fuel g = Some (u, g1) ->
    trace_value T r fuel (reflect_frame T r frame rec u) g1 c_reflected g2 ->
    trace_value T r fuel frame g
                (combine (kr_of T frame rec) (placeholder r) c_reflected) g2
| tv_both frame g u g1 c_refracted g2 c_reflected g3 :
    let rec := hit (world r) (ray frame) Inf in
    task_type frame = TASK_PROCESS ->
    (depth frame < max_depth r)%Z ->
    is_hit rec = true ->
    m_type (mat rec) = REFLECTION_AND_REFRACTION ->
    random_unit_vector T fuel g = Some (u, g1) ->
    trace_value T r fuel (refract_frame T frame rec) g1 c_refracted g2 ->
    trace_value T r fuel (reflect_frame T r frame rec u) g2 c_reflected g3 ->
    trace_value T r fuel frame g
                (combine (kr_of T frame rec) c_refracted c_reflected) g3.

(** ** Test scenes *)

(** A square root that is exact on the squares of rationals, a power that is
    exact for whole exponents, and a stream whose first draw lands inside the
    unit sphere, at (1/2, 0, 0). *)
Definition sqrt_exact (q : Q) : Q :=
  let q' := Qred q in Z.sqrt (Qnum q') # Pos.sqrt (Qden q').

Definition pow_whole (x e : Q) : Q := x ^ Qfloor e.

Definition stream0 (n : nat) : Q :=
  match (n mod 3)%nat with
  | O => 3 # 4
  | _ => 1 # 2
  end.

Definition T0 : Taichi := mkTaichi sqrt_exact pow_whole stream0.

(** A horizontal strip: the part of the plane z = [h] with [xlo <= x <= xhi];
    it reports the normal that faces the incoming ray. *)
Definition strip (h xlo xhi : Q) (m : Material) : Hittable :=
  mkHittable (fun ray tmax =>
    let dz := vz (rd ray) in
    if Qeq_bool dz 0 then HitRecord0
    else
      let t_hit := (h - vz (ro ray)) / dz in
      let p := vadd (ro ray) (vscale t_hit (rd ray)) in
      if Qltb 0 t_hit && lt_bound t_hit tmax
         && Qle_bool xlo (vx p) && Qle_bool (vx p) xhi
      then mkHitRecord true t_hit p
                       (if Qltb dz 0 then mkVec 0 0 1 else mkVec 0 0 (-1)) true m
      else HitRecord0).

Definition white : vec3 := mkVec 1 1 1.

Definition matte : Material := mkMaterial DIFFUSE_AND_GLOSSY (1 # 2) 1 1 white 1 1.
Definition mirror : Material := mkMaterial REFLECTION 0 0 0 white 1 1.
Definition glass : Material := mkMaterial REFLECTION_AND_REFRACTION 0 0 0 white 1 1.

Definition no_lights : LightList := mkLightList (mkAmbientLight vzero) [].

Definition scene (depth_limit stack_size : Z) (l : LightList) (os : list Hittable)
  : Renderer :=
  mkRenderer 1 1 white depth_limit stack_size 90 vzero 0 l (mkHittableList os).

Definition down : Ray := mkRay vzero (mkVec 0 0 (-1)).

(** A point seen under a grazing lamp, with a strip between the two. *)
Definition lamp : PointLight.t := PointLight.mk (mkVec 3 0 4) white.
Definition far_lamp : PointLight.t := PointLight.mk (mkVec 0 0 (-5)) white.
Definition dim : AmbientLight := mkAmbientLight (mkVec (1 # 10) (1 # 10) (1 # 10)).
Definition wall_point : HitRecord := mkHitRecord true 1 vzero (mkVec 1 0 0) true matte.
Definition towards_wall : Ray := mkRay (mkVec 1 0 0) (mkVec (-1) 0 0).

Definition shadowed_scene : Renderer :=
  scene 5 5 (mkLightList dim [lamp]) [strip 2 0 3 matte].

Definition two_lamp_scene : Renderer :=
  scene 5 5 (mkLightList dim [lamp; far_lamp]) [].

(** A mirror hit head-on with a depth limit of one; a pane of glass in the
    same place; two mirrors facing each other, the second bounce escaping. *)
Definition mirror_scene : Renderer := scene 1 3 no_lights [strip (-1) (-1) 1 mirror].
Definition glass_scene : Renderer := scene 1 3 no_lights [strip (-1) (-1) 1 glass].
Definition slant : Ray := mkRay vzero (mkVec (3 # 5) 0 (-4 # 5)).
Definition corridor_scene : Renderer :=
  scene 5 5 no_lights [strip (-4) 0 6 mirror; strip 4 6 12 mirror].
Definition empty_scene (depth_limit : Z) : Renderer := scene depth_limit 3 no_lights [].

(** Reading results up to the equality of rationals. *)
Definition color_is (x : option Color) (c : Color) : bool :=
  match x with
  | Some c' => veqb c' c
  | None => false
  end.

(** A result stack holding a refracted color below a reflected one. *)
Definition refracted_sample : Color := black.
Definition reflected_sample : Color := white.
Definition two_results : ResultStack.t :=
  snd (ResultStack.push
         (snd (ResultStack.push (ResultStack.init 1 1 3) 0 0 refracted_sample))
         0 0 reflected_sample).

(** What the merge is specified to push: [kr] times the color popped first
    plus [1 - kr] times the color popped second. *)
Definition specified_merge (kr : Q) (first_popped second_popped : Color) : Color :=
  vadd (vscale kr first_popped) (vscale (1 - kr) second_popped).

(** ** Further parts of the source *)

(** *** Lanes *)

(** [s'] agrees with [s] on every pixel but (i, j): same capacity, same
    top-pointers, same storage. *)
Definition same_elsewhere {A : Type} (s s' : FieldStack.t A) (i j : Z) : Prop :=
  FieldStack.max_depth s' = FieldStack.max_depth s /\
  forall i' j', (i', j') <> (i, j) ->
    FieldStack.ptr s' i' j' = FieldStack.ptr s i' j' /\
    forall k, FieldStack.stack s' i' j' k = FieldStack.stack s i' j' k.

(** The pixel an operation addresses. *)
Definition op_pixel {A : Type} (o : FieldStack.op A) : Z * Z :=
  match o with
  | FieldStack.Clear i j => (i, j)
  | FieldStack.Push i j _ => (i, j)
  | FieldStack.Pop i j => (i, j)
  end.

(** *** Building the scene (lines 46-66) *)

Definition LightList_init : LightList := mkLightList (mkAmbientLight vzero) [].

Definition add_ambient_light (l : LightList) (intensity : vec3) : LightList :=
  mkLightList (mkAmbientLight intensity) (point_lights l).

Definition add_point_light (l : LightList) (position intensity : vec3) : LightList :=
  mkLightList (ambient_light l) (point_lights l ++ [PointLight.mk position intensity]).

Definition HittableList_init : HittableList := mkHittableList [].

Definition HittableList_clear (w : HittableList) : HittableList := mkHittableList [].

Definition HittableList_add (w : HittableList) (obj : Hittable) : HittableList :=
  mkHittableList (objs w ++ [obj]).

(** An object honours the distance bound it is given: it reports a hit
    exactly when its unbounded hit lies below the bound, and then reports
    that same record. *)
Definition respects_tmax (o : Hittable) : Prop :=
  forall ray b,
    is_hit (obj_hit o ray b)
    = is_hit (obj_hit o ray Inf) && lt_bound (t (obj_hit o ray Inf)) b /\
    (is_hit (obj_hit o ray b) = true -> obj_hit o ray b = obj_hit o ray Inf).

(** Equality of the shading accumulators up to the equality of rationals. *)
Definition shade_eq (a b : Shade) : Prop :=
  veq (ambient_color a) (ambient_color b) /\
  veq (diffuse_acc a) (diffuse_acc b) /\
  veq (specular_color a) (specular_color b).

(** *** The size of a pending trace *)

(** The number of loop iterations a [TASK_PROCESS] frame can cause when it
    sits [k] levels above the depth limit: itself, its merge and two
    children. *)
Fixpoint process_weight (k : nat) : nat :=
  match k with
  | O => 1
  | S k' => 2 + 2 * process_weight k'
  end.

Definition frame_weight (r : Renderer) (frame : StatusFrame) : nat :=
  if (task_type frame =? TASK_PROCESS)%Z
  then process_weight (Z.to_nat (max_depth r - depth frame))
  else 1%nat.

Definition stack_weight (r : Renderer) (l : list StatusFrame) : nat :=
  list_sum (map (frame_weight r) l).

(** *** The frame driver ([render], lines 255-275) *)

(** The trigonometry [render] takes from Taichi. *)
Record Trig : Type := mkTrig {
  ti_tan : Q -> Q;
  ti_radians : Q -> Q
}.

(** [frame_buf], a field of colors of shape (W, H). *)
Definition FrameBuf : Type := Z -> Z -> vec3.

(** Lines 257-259 and 267-271: the jittered primary ray of pixel (i, j); two
    draws are taken from the stream. *)
Definition primary_ray (T : Taichi) (G : Trig) (r : Renderer) (i j : Z) (g : nat)
  : Ray * nat :=
  let aspect_ratio := 1 * inject_Z (W r) / inject_Z (H r) in
  let half_height := ti_tan G (ti_radians G (vfov r / 2)) in
  let half_width := half_height * aspect_ratio in
  let x := ((inject_Z i + ti_random T g) / inject_Z (W r) - (1 # 2)) * 2 * half_width in
  let y := ((inject_Z j + ti_random T (S g)) / inject_Z (H r) - (1 # 2)) * 2 * half_height in
  let ray_direction := normalized T (mkVec x y (-1)) in
  (mkRay (eye_pos r) ray_direction, (2 + g)%nat).

(** The body of the loop over the pixels (lines 267-275). *)
Definition render_pixel (T : Taichi) (G : Trig) (r : Renderer) (fuel : nat)
           (i j : Z) (st : State) (frame_buf : FrameBuf) : result (State * FrameBuf) :=
  let (primary, g) := primary_ray T G r i j (rng st) in
  match ray_color T r fuel i j primary
                  (mkState (status_stack st) (result_stack st) g) with
  | Ok (pixel_color, st') => Ok (st', upd2 frame_buf i j pixel_color)
  | OutOfBounds => OutOfBounds
  | OutOfFuel => OutOfFuel
  end.

(** [render] with its lanes run one after the other, in the order of
    [pixels]. *)
Fixpoint render (T : Taichi) (G : Trig) (r : Renderer) (fuel : nat)
         (pixels : list (Z * Z)) (st : State) (frame_buf : FrameBuf)
  : result (State * FrameBuf) :=
  match pixels with
  | [] => Ok (st, frame_buf)
  | (i, j) :: rest =>
      match render_pixel T G r fuel i j st frame_buf with
      | Ok (st', frame_buf') => render T G r fuel rest st' frame_buf'
      | OutOfBounds => OutOfBounds
      | OutOfFuel => OutOfFuel
      end
  end.

(** *** More test data *)

Definition G0 : Trig := mkTrig (fun _ => 1) (fun q => q).

Definition matte_scene : Renderer := scene 2 3 (mkLightList dim [lamp]) [strip (-1) (-1) 1 matte].

Definition two_strips : HittableList :=
  mkHittableList [strip (-4) (-1) 1 matte; strip (-1) (-1) 1 mirror].

(** What the loop of [HittableList.hit] has established once the objects
    [seen] have been asked: either nothing hit below [tmin] so far, or [rec]
    is the unbounded hit of a seen object, below [tmin], and no seen object
    hits nearer. *)
Definition nearest_so_far (ray : Ray) (tmin : tbound) (seen : list Hittable)
           (rec : HitRecord) (closest : tbound) : Prop :=
  (rec = HitRecord0 /\ closest = tmin /\
   forall o, In o seen ->
     is_hit (obj_hit o ray Inf) && lt_bound (t (obj_hit o ray Inf)) tmin = false) \/
  (is_hit rec = true /\ closest = Finite (t rec) /\ lt_bound (t rec) tmin = true /\
   (exists o, In o seen /\ rec = obj_hit o ray Inf) /\
   forall o, In o seen -> is_hit (obj_hit o ray Inf) = true ->
     t rec <= t (obj_hit o ray Inf)).

(** A stream whose every candidate is the centre of the sphere, so that the
    sampler accepts at once. *)
Definition T1 : Taichi := mkTaichi sqrt_exact pow_whole (fun _ => 1 # 2).

Definition swapped_lamp_scene : Renderer :=
  scene 5 5 (mkLightList dim [far_lamp; lamp]) [].

Definition ceiling : Hittable := strip 5 (-1) 1 matte.

Definition three_colors : list Color := [black; white; vzero].

Definition lane_ops : list (FieldStack.op Color) :=
  [FieldStack.Push 0 0 black; FieldStack.Push 0 0 white; FieldStack.Clear 0 0].

(** A state in which a merge frame is on top while a single result waits. *)
Definition starved_merge : State :=
  mkState (snd (StatusStack.push (StatusStack.init 1 1 3) 0 0
                                 (mkStatusFrame TASK_MERGE 1 Ray0 (1 # 2))))
          (snd (ResultStack.push (ResultStack.init 1 1 3) 0 0 white))
          O.

Definition dark_scene : Renderer := scene 0 3 (mkLightList dim [lamp]) [strip (-1) (-1) 1 matte].

Definition two_strips_swapped : HittableList :=
  mkHittableList [strip (-1) (-1) 1 mirror; strip (-4) (-1) 1 matte].

(** A pane of glass traced with a single slot on each stack. *)
Definition tight_glass_scene : Renderer := scene 2 1 no_lights [strip (-1) (-1) 1 glass].
(** * Properties *)

(** ** Integers and field updates *)

Local Open Scope Z_scope.

Lemma wrap32_small (z : Z) : -2147483648 <= z <= max_i32 -> wrap32 z = z.
Proof.
  unfold wrap32, max_i32. intros Hz.
  rewrite Z.mod_small by lia. lia.
Qed.

Lemma upd2_same {B : Type} (f : Z -> Z -> B) (i j : Z) (v : B) : upd2 f i j v i j = v.
Proof. unfold upd2. now rewrite !Z.eqb_refl. Qed.

Lemma upd2_other {B : Type} (f : Z -> Z -> B) (i j i' j' : Z) (v : B) :
  (i', j') <> (i, j) -> upd2 f i j v i' j' = f i' j'.
Proof.
  unfold upd2. intros Hne.
  destruct (Z.eqb_spec i' i); destruct (Z.eqb_spec j' j); simpl; try reflexivity.
  subst. now elim Hne.
Qed.

Lemma upd3_same {B : Type} (f : Z -> Z -> Z -> B) (i j k : Z) (v : B) :
  upd3 f i j k v i j k = v.
Proof. unfold upd3. now rewrite !Z.eqb_refl. Qed.

Lemma upd3_other_cell {B : Type} (f : Z -> Z -> Z -> B) (i j k k' : Z) (v : B) :
  k' <> k -> upd3 f i j k v i j k' = f i j k'.
Proof.
  unfold upd3. intros Hne. rewrite !Z.eqb_refl. simpl.
  destruct (Z.eqb_spec k' k); [now elim Hne | reflexivity].
Qed.

(** ** The stack discipline *)

Module StackFacts.
Import FieldStack.

Section Facts.
Variable A : Type.
Implicit Types (s : FieldStack.t A) (v : A).

Lemma push_spec s i j v :
  -1 <= ptr s i j < max_i32 ->
  (ptr s i j + 1 < max_depth s ->
     push s i j v =
     (true, mk (max_depth s) (upd3 (stack s) i j (ptr s i j + 1) v)
               (upd2 (ptr s) i j (ptr s i j + 1)))) /\
  (max_depth s <= ptr s i j + 1 -> push s i j v = (false, s)).
Proof.
  intros Hp. unfold push, add32.
  rewrite wrap32_small by (unfold max_i32 in *; lia).
  split; intros H.
  - apply Z.ltb_lt in H. now rewrite H.
  - apply Z.ltb_ge in H. now rewrite H.
Qed.

Lemma pop_spec s i j :
  -1 <= ptr s i j <= max_i32 ->
  (0 <= ptr s i j ->
     pop s i j =
     (true, mk (max_depth s) (stack s) (upd2 (ptr s) i j (ptr s i j - 1)))) /\
  (ptr s i j = -1 -> pop s i j = (false, s)).
Proof.
  intros Hp. unfold pop, sub32.
  rewrite wrap32_small by (unfold max_i32 in *; lia).
  split; intros H.
  - assert (E : (ptr s i j - 1 >=? -1) = true) by (apply Z.geb_le; lia).
    now rewrite E.
  - assert (E : (ptr s i j - 1 >=? -1) = false).
    { rewrite Z.geb_leb. apply Z.leb_gt. lia. }
    now rewrite E.
Qed.

Lemma in_range_ptr_i32 D s i j :
  D <= max_i32 -> in_range D s -> -1 <= ptr s i j < max_i32.
Proof.
  intros HD [_ Hr]. specialize (Hr i j). unfold max_i32 in *. lia.
Qed.

Lemma in_range_clear D s i j : in_range D s -> in_range D (clear s i j).
Proof.
  intros [Hm Hr]. split; [exact Hm|]. intros i' j'. simpl.
  unfold upd2. destruct ((i' =? i) && (j' =? j)); [lia | apply Hr].
Qed.

Lemma in_range_push D s i j v :
  D <= max_i32 -> in_range D s -> in_range D (snd (push s i j v)).
Proof.
  intros HD Hs. pose proof (in_range_ptr_i32 D s i j HD Hs) as Hp.
  destruct (push_spec s i j v Hp) as [Hok Hfail].
  destruct Hs as [Hm Hr].
  destruct (Z_lt_le_dec (ptr s i j + 1) (max_depth s)) as [Hlt | Hge].
  - rewrite (Hok Hlt). simpl. split; [exact Hm|]. intros i' j'. simpl.
    unfold upd2. destruct ((i' =? i) && (j' =? j)); [lia | apply Hr].
  - rewrite (Hfail Hge). simpl. now split.
Qed.

Lemma in_range_pop D s i j :
  D <= max_i32 -> in_range D s -> in_range D (snd (pop s i j)).
Proof.
  intros HD Hs. pose proof (in_range_ptr_i32 D s i j HD Hs) as Hp.
  destruct (pop_spec s i j ltac:(lia)) as [Hok Hfail].
  destruct Hs as [Hm Hr].
  destruct (Z_le_gt_dec 0 (ptr s i j)) as [Hnn | Hneg].
  - rewrite (Hok Hnn). simpl. split; [exact Hm|]. intros i' j'. simpl.
    unfold upd2. destruct ((i' =? i) && (j' =? j)).
    + specialize (Hr i j). lia.
    + apply Hr.
  - rewrite (Hfail ltac:(lia)). simpl. now split.
Qed.

Lemma in_range_run_ops D ops :
  D <= max_i32 -> forall s, in_range D s -> in_range D (run_ops s ops).
Proof.
  intros HD. unfold run_ops.
  induction ops as [| o ops IH]; intros s Hs; simpl; [exact Hs|].
  apply IH. destruct o; simpl.
  - now apply in_range_clear.
  - now apply in_range_push.
  - now apply in_range_pop.
Qed.

Lemma reachable_in_range D s :
  D <= max_i32 -> reachable D s -> in_range D s.
Proof.
  intros HD (s0 & ops & Hm & Hp & ->).
  apply in_range_run_ops; [exact HD|].
  split; [exact Hm|]. intros i j. rewrite Hp. lia.
Qed.

Lemma reachable_step D s o : reachable D s -> reachable D (apply_op s o).
Proof.
  intros (s0 & ops & Hm & Hp & ->).
  exists s0, (ops ++ [o]). repeat split; try assumption.
  unfold run_ops. now rewrite fold_left_app.
Qed.

(** Successful pushes advance the pointer one by one. *)
Lemma push_all_ptr D vs :
  D <= max_i32 ->
  forall s s' i j, in_range D s -> push_all s i j vs = (true, s') ->
    in_range D s' /\ ptr s' i j = ptr s i j + Z.of_nat (length vs).
Proof.
  intros HD. induction vs as [| v vs IH]; intros s s' i j Hs Hall.
  - simpl in Hall. inversion Hall; subst. split; [exact Hs | simpl; lia].
  - simpl in Hall.
    pose proof (in_range_ptr_i32 D s i j HD Hs) as Hp.
    destruct (push_spec s i j v Hp) as [Hok Hfail].
    pose proof (in_range_push D s i j v HD Hs) as Hs1.
    destruct (Z_lt_le_dec (ptr s i j + 1) (max_depth s)) as [Hlt | Hge].
    + rewrite (Hok Hlt) in Hall, Hs1. simpl in Hs1.
      destruct (push_all _ i j vs) as [ok' s2] eqn:E.
      simpl in Hall. inversion Hall; subst.
      destruct (IH _ _ i j Hs1 E) as [Hr Hptr]. split; [exact Hr|].
      rewrite Hptr. simpl ptr. rewrite upd2_same.
      simpl length. rewrite Nat2Z.inj_succ. lia.
    + rewrite (Hfail Hge) in Hall.
      destruct (push_all s i j vs) as [ok' s2]. simpl in Hall. discriminate.
Qed.

Lemma push_full_fails D s i j v :
  D <= max_i32 -> in_range D s -> D - 1 <= ptr s i j -> push s i j v = (false, s).
Proof.
  intros HD Hs Hge.
  pose proof (in_range_ptr_i32 D s i j HD Hs) as Hp.
  destruct (push_spec s i j v Hp) as [_ Hfail].
  apply Hfail. destruct Hs as [Hm _]. lia.
Qed.

Lemma pop_empty_fails D s i j :
  D <= max_i32 -> in_range D s -> empty s i j = true -> pop s i j = (false, s).
Proof.
  intros HD Hs He.
  pose proof (in_range_ptr_i32 D s i j HD Hs) as Hp.
  destruct (pop_spec s i j ltac:(lia)) as [_ Hfail].
  apply Hfail. unfold empty in He. apply Z.leb_le in He. lia.
Qed.

Lemma clear_empty s i j : empty (clear s i j) i j = true.
Proof. unfold empty, clear. simpl. now rewrite upd2_same. Qed.

Lemma full_false D s i j :
  0 <= D <= max_i32 -> in_range D s -> ptr s i j <= D - 1 /\ full s i j = false.
Proof.
  intros HD [Hm Hr]. specialize (Hr i j).
  assert (Hle : ptr s i j <= D - 1) by lia.
  split; [exact Hle|].
  unfold full. rewrite Z.geb_leb. apply Z.leb_gt. lia.
Qed.

End Facts.
End StackFacts.

(** ** The contract of the two stacks *)

Section StackContract.
Import FieldStack.
Variable A : Type.

Lemma contract_generic (D : Z) (s : FieldStack.t A) (i j : Z) :
  D <= max_i32 -> reachable D s ->
  (forall vs s', Z.of_nat (length vs) = D -> push_all s i j vs = (true, s') ->
     forall v, push s' i j v = (false, s')) /\
  (empty s i j = true -> pop s i j = (false, s)) /\
  empty (clear s i j) i j = true.
Proof.
  intros HD Hreach.
  pose proof (StackFacts.reachable_in_range A D s HD Hreach) as Hs.
  repeat split.
  - intros vs s' Hlen Hall v.
    destruct (StackFacts.push_all_ptr A D vs HD s s' i j Hs Hall) as [Hs' Hptr].
    apply (StackFacts.push_full_fails A D); try assumption.
    destruct Hs as [_ Hr]. specialize (Hr i j). lia.
  - now apply (StackFacts.pop_empty_fails A D).
  - apply StackFacts.clear_empty.
Qed.

Lemma full_generic (D : Z) (s : FieldStack.t A) (i j : Z) :
  0 <= D <= max_i32 -> reachable D s ->
  ptr s i j <= D - 1 /\ full s i j = false /\
  (forall v, fst (push s i j v) = false ->
     ptr s i j = D - 1 /\ full s i j = false).
Proof.
  intros HD Hreach.
  assert (Hs : in_range D s) by (apply StackFacts.reachable_in_range; [lia | exact Hreach]).
  destruct (StackFacts.full_false A D s i j HD Hs) as [Hle Hfull].
  split; [exact Hle|]. split; [exact Hfull|].
  intros v Hfail. split; [| exact Hfull].
  pose proof (StackFacts.in_range_ptr_i32 A D s i j ltac:(lia) Hs) as Hp.
  destruct (StackFacts.push_spec A s i j v Hp) as [Hok _].
  destruct (Z_lt_le_dec (ptr s i j + 1) (max_depth s)) as [Hlt | Hge].
  - rewrite (Hok Hlt) in Hfail. discriminate.
  - destruct Hs as [Hm _]. lia.
Qed.

(** A stack filled to capacity is reachable. *)
Lemma filled_reachable (zero : A) (n : nat) (D : Z) (i j : Z) :
  Z.of_nat n <= D <= max_i32 ->
  let s := run_ops (init zero D) (repeat (Push i j zero) n) in
  reachable D s /\ ptr s i j = Z.of_nat n - 1.
Proof.
  intros HD. induction n as [| n IH].
  - simpl. split; [| reflexivity].
    exists (init zero D), []. now repeat split.
  - assert (HD' : Z.of_nat n <= D <= max_i32) by lia.
    specialize (IH HD'). cbv zeta in IH |- *. destruct IH as [Hreach Hptr].
    assert (E : repeat (Push i j zero) (S n) = repeat (Push i j zero) n ++ [Push i j zero]).
    { replace (S n) with (n + 1)%nat by lia. now rewrite repeat_app. }
    rewrite E. unfold run_ops in *. rewrite fold_left_app.
    cbn [fold_left apply_op].
    set (s := fold_left apply_op (repeat (Push i j zero) n) (init zero D)) in *.
    clearbody s. split.
    + apply (StackFacts.reachable_step A D s (Push i j zero) Hreach).
    + assert (Hs : in_range D s) by (apply StackFacts.reachable_in_range; [lia | exact Hreach]).
      pose proof (StackFacts.in_range_ptr_i32 A D s i j ltac:(lia) Hs) as Hp.
      destruct (StackFacts.push_spec A s i j zero Hp) as [Hok _].
      destruct Hs as [Hm _].
      rewrite Hok by lia. cbn [snd ptr]. rewrite upd2_same. lia.
Qed.

End StackContract.

Lemma contents_length {A : Type} (s : FieldStack.t A) (i j : Z) :
  length (FieldStack.contents s i j) = Z.to_nat (FieldStack.ptr s i j + 1).
Proof. unfold FieldStack.contents. now rewrite length_map, length_seq. Qed.

(** C5. For both per-pixel stacks of capacity [D] (an [i32] extent) and every
    state reached by any sequence of clear, push and pop: a push attempted
    after [D] successful pushes in a row fails and returns the state as it
    was (storage and top-pointer); a pop on an empty stack fails and returns
    the state as it was; right after [clear], [empty] answers true. *)
Theorem stack_contract (D : Z) :
  D <= max_i32 ->
  (forall (s : StatusStack.t) (i j : Z),
      FieldStack.reachable D s ->
      (forall vs s', Z.of_nat (length vs) = D ->
                     FieldStack.push_all s i j vs = (true, s') ->
                     forall v, StatusStack.push s' i j v = (false, s')) /\
      (StatusStack.empty s i j = true -> StatusStack.pop s i j = (false, s)) /\
      StatusStack.empty (StatusStack.clear s i j) i j = true) /\
  (forall (s : ResultStack.t) (i j : Z),
      FieldStack.reachable D s ->
      (forall vs s', Z.of_nat (length vs) = D ->
                     FieldStack.push_all s i j vs = (true, s') ->
                     forall v, ResultStack.push s' i j v = (false, s')) /\
      (ResultStack.empty s i j = true -> ResultStack.pop s i j = (false, s)) /\
      ResultStack.empty (ResultStack.clear s i j) i j = true).
Proof.
  intros HD. split; intros s i j Hreach.
  - exact (contract_generic StatusFrame D s i j HD Hreach).
  - exact (contract_generic Color D s i j HD Hreach).
Qed.

Lemma stack_contract_witness :
  2 <= max_i32 /\
  let s0 := ResultStack.init 1 1 2 in
  let s2 := snd (FieldStack.push_all s0 0 0 [black; vzero]) in
  FieldStack.reachable 2 s0 /\
  FieldStack.push_all s0 0 0 [black; vzero] = (true, s2) /\
  ResultStack.push s2 0 0 black = (false, s2) /\
  ResultStack.pop s0 0 0 = (false, s0) /\
  ResultStack.empty (ResultStack.clear s2 0 0) 0 0 = true.
Proof.
  assert (HD : 2 <= max_i32) by (unfold max_i32; lia).
  split; [exact HD|]. cbv zeta.
  assert (Hreach : FieldStack.reachable 2 (ResultStack.init 1 1 2)).
  { exists (ResultStack.init 1 1 2), []. now repeat split. }
  assert (Hall : FieldStack.push_all (ResultStack.init 1 1 2) 0 0 [black; vzero]
                 = (true, snd (FieldStack.push_all (ResultStack.init 1 1 2) 0 0 [black; vzero]))).
  { reflexivity. }
  destruct (stack_contract 2 HD) as [_ Hres].
  destruct (Hres (ResultStack.init 1 1 2) 0 0 Hreach) as (Hpush & Hpop & Hclear).
  split; [exact Hreach|]. split; [exact Hall|].
  split; [exact (Hpush [black; vzero] _ eq_refl Hall black)|].
  split; [exact (Hpop eq_refl)|].
  reflexivity.
Defined.

(** C10. For both per-pixel stacks of capacity [D]: in every state reached by
    clear, push and pop from a fresh stack the top-pointer is at most [D-1],
    so [full] answers false; this includes a reachable state that holds [D]
    entries and on which every push fails.  A failing push therefore does not
    make [full] true. *)
Theorem full_never_true (D : Z) :
  0 <= D <= max_i32 ->
  (forall (s : StatusStack.t) (i j : Z),
      FieldStack.reachable D s ->
      FieldStack.ptr s i j <= D - 1 /\ StatusStack.full s i j = false) /\
  (forall (s : ResultStack.t) (i j : Z),
      FieldStack.reachable D s ->
      FieldStack.ptr s i j <= D - 1 /\ ResultStack.full s i j = false) /\
  (forall i j, exists s : StatusStack.t,
      FieldStack.reachable D s /\
      length (FieldStack.contents s i j) = Z.to_nat D /\
      (forall v, StatusStack.push s i j v = (false, s)) /\
      StatusStack.full s i j = false) /\
  (forall i j, exists s : ResultStack.t,
      FieldStack.reachable D s /\
      length (FieldStack.contents s i j) = Z.to_nat D /\
      (forall v, ResultStack.push s i j v = (false, s)) /\
      ResultStack.full s i j = false).
Proof.
  intros HD.
  assert (Hgen : forall (A : Type) (zero : A) (i j : Z), exists s : FieldStack.t A,
             FieldStack.reachable D s /\
             length (FieldStack.contents s i j) = Z.to_nat D /\
             (forall v, FieldStack.push s i j v = (false, s)) /\
             FieldStack.full s i j = false).
  { intros A zero i j.
    destruct (filled_reachable A zero (Z.to_nat D) D i j ltac:(lia)) as [Hreach Hptr].
    eexists. split; [exact Hreach|].
    pose proof (StackFacts.reachable_in_range A D _ ltac:(lia) Hreach) as Hs.
    split; [rewrite contents_length, Hptr; f_equal; lia|].
    split.
    - intros v. apply (StackFacts.push_full_fails A D); [lia | exact Hs | lia].
    - apply (full_generic A D _ i j HD Hreach). }
  split; [| split; [| split]].
  - intros s i j Hreach.
    destruct (full_generic StatusFrame D s i j HD Hreach) as (H1 & H2 & _). now split.
  - intros s i j Hreach.
    destruct (full_generic Color D s i j HD Hreach) as (H1 & H2 & _). now split.
  - intros i j. exact (Hgen StatusFrame StatusFrame0 i j).
  - intros i j. exact (Hgen Color vzero i j).
Qed.

Lemma full_never_true_witness :
  0 <= 2 <= max_i32 /\
  let s2 := snd (FieldStack.push_all (ResultStack.init 1 1 2) 0 0 [black; vzero]) in
  FieldStack.reachable 2 s2 /\
  FieldStack.ptr s2 0 0 <= 2 - 1 /\
  ResultStack.full s2 0 0 = false /\
  ResultStack.push s2 0 0 black = (false, s2).
Proof.
  assert (HD : 0 <= 2 <= max_i32) by (unfold max_i32; lia).
  split; [exact HD|]. cbv zeta.
  assert (Hreach : FieldStack.reachable 2
            (snd (FieldStack.push_all (ResultStack.init 1 1 2) 0 0 [black; vzero]))).
  { exists (ResultStack.init 1 1 2), [FieldStack.Push 0 0 black; FieldStack.Push 0 0 vzero].
    repeat split. }
  destruct (full_never_true 2 HD) as (_ & Hres & _).
  destruct (Hres _ 0 0 Hreach) as [Hle Hfull].
  split; [exact Hreach|]. split; [exact Hle|]. split; [exact Hfull|].
  reflexivity.
Defined.

(** ** The stacks seen as lists *)

Section Holds.
Import FieldStack.
Variable A : Type.
Implicit Types (s : FieldStack.t A) (l : list A).

Lemma holds_ptr D s i j l :
  holds D s i j l -> ptr s i j = Z.of_nat (length l) - 1.
Proof.
  intros (_ & Hp & Hc). rewrite <- Hc, contents_length. lia.
Qed.

Lemma contents_snoc s i j (n : nat) :
  map (fun k => stack s i j (Z.of_nat k)) (seq 0 (S n)) =
  map (fun k => stack s i j (Z.of_nat k)) (seq 0 n) ++ [stack s i j (Z.of_nat n)].
Proof. now rewrite seq_S, map_app. Qed.

Lemma holds_push D s i j l v :
  D <= max_i32 -> holds D s i j l -> Z.of_nat (length l) < D ->
  exists s', push s i j v = (true, s') /\ holds D s' i j (l ++ [v]).
Proof.
  intros HD Hh Hroom. pose proof (holds_ptr D s i j l Hh) as Hptr.
  destruct Hh as (Hm & Hp & Hc).
  destruct (StackFacts.push_spec A s i j v) as [Hok _]; [unfold max_i32 in *; lia|].
  rewrite Hok by lia. eexists. split; [reflexivity|].
  split; [exact Hm|]. split; [simpl; rewrite upd2_same; lia|].
  unfold contents. cbn [ptr stack]. rewrite upd2_same.
  replace (Z.to_nat (ptr s i j + 1 + 1)) with (S (Z.to_nat (ptr s i j + 1))) by lia.
  rewrite seq_S, map_app. cbn [map Nat.add]. f_equal.
  - rewrite <- Hc. unfold contents. apply map_ext_in.
    intros k Hk. apply in_seq in Hk. apply upd3_other_cell. lia.
  - f_equal. replace (Z.of_nat (Z.to_nat (ptr s i j + 1))) with (ptr s i j + 1) by lia.
    apply upd3_same.
Qed.

Lemma holds_pop D s i j l v :
  D <= max_i32 -> holds D s i j (l ++ [v]) ->
  top s i j = Some v /\
  exists s', pop s i j = (true, s') /\ holds D s' i j l.
Proof.
  intros HD Hh. pose proof (holds_ptr D s i j _ Hh) as Hptr.
  rewrite length_app in Hptr. cbn [length] in Hptr.
  destruct Hh as (Hm & Hp & Hc).
  unfold contents in Hc.
  replace (Z.to_nat (ptr s i j + 1)) with (S (length l)) in Hc by lia.
  rewrite contents_snoc in Hc. apply app_inj_tail in Hc. destruct Hc as [Hl Hv].
  split.
  - unfold top. cbv zeta.
    assert (E : (0 <=? ptr s i j) && (ptr s i j <? max_depth s) = true).
    { apply andb_true_iff. split; [apply Z.leb_le | apply Z.ltb_lt]; lia. }
    rewrite E. f_equal. rewrite <- Hv. f_equal. lia.
  - destruct (StackFacts.pop_spec A s i j) as [Hok _]; [unfold max_i32 in *; lia|].
    rewrite Hok by lia. eexists. split; [reflexivity|].
    split; [exact Hm|]. split; [simpl; rewrite upd2_same; lia|].
    unfold contents. cbn [ptr stack]. rewrite upd2_same.
    replace (Z.to_nat (ptr s i j - 1 + 1)) with (length l) by lia.
    exact Hl.
Qed.

Lemma holds_nonempty D s i j l v :
  holds D s i j (l ++ [v]) -> empty s i j = false.
Proof.
  intros Hh. pose proof (holds_ptr D s i j _ Hh) as Hptr.
  rewrite length_app in Hptr. cbn [length] in Hptr.
  unfold empty. apply Z.leb_gt. lia.
Qed.

Lemma holds_nil_empty D s i j : holds D s i j [] -> empty s i j = true.
Proof.
  intros Hh. pose proof (holds_ptr D s i j _ Hh) as Hptr. cbn [length] in Hptr.
  unfold empty. apply Z.leb_le. lia.
Qed.

End Holds.

(** ** Schlick's reflectance *)

Local Open Scope Q_scope.

Lemma reflectance_unfold (cosine ref_idx : Q) :
  reflectance cosine ref_idx =
  schlick_r0 ref_idx + (1 - schlick_r0 ref_idx) * (1 - cosine) ^ 5.
Proof. reflexivity. Qed.

Lemma r0_range (ref_idx : Q) : 0 < ref_idx -> 0 <= schlick_r0 ref_idx < 1.
Proof.
  intros Hi. unfold schlick_r0.
  set (q := (1 - ref_idx) / (1 + ref_idx)).
  assert (Hlt : q < 1) by (unfold q; apply Qlt_shift_div_r; lra).
  assert (Hgt : -1 < q) by (unfold q; apply Qlt_shift_div_l; lra).
  split; nra.
Qed.

Lemma pow5_nonneg (x : Q) : 0 <= x -> 0 <= x ^ 5.
Proof.
  intros Hx. simpl.
  assert (H2 : 0 <= x * x) by nra.
  assert (H4 : 0 <= x * x * (x * x)) by nra.
  nra.
Qed.

Lemma pow5_le_1 (x : Q) : 0 <= x <= 1 -> x ^ 5 <= 1.
Proof.
  intros Hx. simpl.
  assert (H2 : 0 <= x * x <= 1) by nra.
  assert (H4 : 0 <= x * x * (x * x) <= 1) by nra.
  nra.
Qed.

(** C2, as the code has it.  For every ior > 0: the reflectance is at least 0
    for every cosine in [-1, 1], it lies in [0, 1] for every cosine in
    [0, 1], and at cosine = 1 it is [r0 = ((1-ior)/(1+ior))^2]. *)
Theorem reflectance_bounds (cosine ref_idx : Q) :
  0 < ref_idx ->
  (-1 <= cosine <= 1 -> 0 <= reflectance cosine ref_idx) /\
  (0 <= cosine <= 1 -> 0 <= reflectance cosine ref_idx <= 1) /\
  reflectance 1 ref_idx == schlick_r0 ref_idx.
Proof.
  intros Hi. pose proof (r0_range ref_idx Hi) as Hr.
  assert (Hlow : -1 <= cosine <= 1 -> 0 <= reflectance cosine ref_idx).
  { intros Hc. rewrite reflectance_unfold.
    pose proof (pow5_nonneg (1 - cosine) ltac:(lra)) as Hp.
    set (p := (1 - cosine) ^ 5) in *. nra. }
  split; [exact Hlow|]. split.
  - intros Hc. split; [apply Hlow; lra|].
    rewrite reflectance_unfold.
    pose proof (pow5_nonneg (1 - cosine) ltac:(lra)) as Hp.
    pose proof (pow5_le_1 (1 - cosine) ltac:(lra)) as Hq.
    set (p := (1 - cosine) ^ 5) in *. nra.
  - rewrite reflectance_unfold.
    assert (E : (1 - 1) ^ 5 == 0) by reflexivity.
    rewrite E. ring.
Qed.

Lemma reflectance_bounds_witness :
  0 < 3 # 2 /\
  0 <= reflectance (1 # 2) (3 # 2) <= 1 /\
  reflectance 1 (3 # 2) == schlick_r0 (3 # 2).
Proof.
  assert (Hi : 0 < 3 # 2) by reflexivity.
  split; [exact Hi|].
  destruct (reflectance_bounds (1 # 2) (3 # 2) Hi) as (_ & Hmid & Hone).
  split; [apply Hmid; split; discriminate | exact Hone].
Defined.

(** C2 as stated fails below cosine 0: at cosine = -1 and ior = 1 the
    reflectance is 32. *)
Lemma reflectance_exceeds_one :
  -1 <= -1 <= 1 /\ 0 < 1 /\ reflectance (-1) 1 == 32 /\ ~ reflectance (-1) 1 <= 1.
Proof.
  split; [split; discriminate|]. split; [reflexivity|]. split; [reflexivity|].
  intros H. apply Qle_bool_iff in H. vm_compute in H. discriminate.
Qed.

(** ** Local shading *)

Section Shading.
Variables (T : Taichi) (r : Renderer) (ray : Ray) (rec : HitRecord).

Lemma fold_ambient (ls : list PointLight.t) (acc : Shade) :
  ambient_color (fold_left (light_step T r (shadow_origin ray rec) rec) ls acc) =
  match ls with
  | [] => ambient_color acc
  | _ :: _ => vscale (ka (mat rec)) (Ia (ambient_light (lights r)))
  end.
Proof.
  revert acc. induction ls as [| l ls IH]; intros acc; [reflexivity|].
  simpl. rewrite IH. destruct ls; reflexivity.
Qed.

Lemma ambient_of_lights (ls : list PointLight.t) :
  ls <> [] ->
  ambient_color (shade_lights T r ray rec ls) =
  vscale (ka (mat rec)) (Ia (ambient_light (lights r))).
Proof.
  intros Hne. unfold shade_lights. rewrite fold_ambient.
  destruct ls; [now elim Hne | reflexivity].
Qed.

End Shading.

Lemma vadd_zero_r (a : vec3) : veq (vadd a vzero) a.
Proof. unfold veq, vadd, vzero, vsplat. simpl. repeat split; ring. Qed.

(** C9. With at least one point light, the ambient term of [bling_phong] is
    [ka * Ia], once: the loop overwrites it, so the term is the same for one
    light and for many, and the returned color is that term plus the diffuse
    and the specular sums. *)
Theorem ambient_once (T : Taichi) (r : Renderer) (ray : Ray) (rec : HitRecord) :
  point_lights (lights r) <> [] ->
  let sh := shade_lights T r ray rec (point_lights (lights r)) in
  ambient_color sh = vscale (ka (mat rec)) (Ia (ambient_light (lights r))) /\
  bling_phong T r ray rec =
  vadd (vadd (vscale (ka (mat rec)) (Ia (ambient_light (lights r))))
             (vmul (vscale (kd (mat rec)) (diffuse_color (mat rec))) (diffuse_acc sh)))
       (vscale (ks (mat rec)) (specular_color sh)).
Proof.
  intros Hne sh.
  assert (Ha : ambient_color sh = vscale (ka (mat rec)) (Ia (ambient_light (lights r)))).
  { apply ambient_of_lights. exact Hne. }
  split; [exact Ha|].
  unfold bling_phong, combine_shade. fold sh. now rewrite Ha.
Qed.

Lemma Qltb_lt (a b : Q) : Qltb a b = true <-> a < b.
Proof.
  unfold Qltb. rewrite negb_true_iff. split.
  - intros H. apply Qnot_le_lt. intros Hle.
    apply Qle_bool_iff in Hle. congruence.
  - intros H. destruct (Qle_bool b a) eqn:E; [| reflexivity].
    apply Qle_bool_iff in E. exfalso. exact (Qlt_not_le _ _ H E).
Qed.

Lemma veqb_veq (a b : vec3) : veqb a b = true <-> veq a b.
Proof.
  unfold veqb, veq. rewrite !andb_true_iff, !Qeq_bool_iff. tauto.
Qed.

Lemma ambient_once_witness :
  point_lights (lights two_lamp_scene) <> [] /\
  ambient_color (shade_lights T0 two_lamp_scene towards_wall wall_point
                              (point_lights (lights two_lamp_scene)))
  = vscale (ka (mat wall_point)) (Ia (ambient_light (lights two_lamp_scene))).
Proof.
  assert (Hne : point_lights (lights two_lamp_scene) <> []) by discriminate.
  split; [exact Hne|].
  exact (proj1 (ambient_once T0 two_lamp_scene towards_wall wall_point Hne)).
Defined.

(** C3, as the code has it.  A point light whose shadow ray hits an occluder
    strictly closer than the light adds zero to the diffuse accumulation;
    the specular accumulation is not shadow-tested and receives the light's
    specular term whatever the shadow ray hits. *)
Theorem shadow_zeroes_diffuse (T : Taichi) (r : Renderer) (ray : Ray)
        (rec : HitRecord) (light : PointLight.t) (acc : Shade) :
  let shadow_orig := shadow_origin ray rec in
  let shadow_rec := hit (world r) (mkRay shadow_orig (light_dir_of T rec light)) Inf in
  is_hit shadow_rec = true ->
  t shadow_rec < distance T (PointLight.pos light) (pos rec) ->
  let acc' := light_step T r shadow_orig rec acc light in
  diffuse_term T r shadow_orig rec light = vzero /\
  veq (diffuse_acc acc') (diffuse_acc acc) /\
  specular_color acc' = vadd (specular_color acc) (specular_term T rec light).
Proof.
  intros shadow_orig shadow_rec Hhit Hlt acc'.
  assert (Hs : in_shadow T r shadow_orig rec light = true).
  { unfold in_shadow. fold shadow_rec. rewrite Hhit. simpl. now apply Qltb_lt. }
  assert (Hd : diffuse_term T r shadow_orig rec light = vzero).
  { unfold diffuse_term. now rewrite Hs. }
  split; [exact Hd|]. split; [| reflexivity].
  unfold acc', light_step. cbn [diffuse_acc]. rewrite Hd. apply vadd_zero_r.
Qed.

Lemma shadow_zeroes_diffuse_witness :
  let shadow_orig := shadow_origin towards_wall wall_point in
  let shadow_rec :=
    hit (world shadowed_scene) (mkRay shadow_orig (light_dir_of T0 wall_point lamp)) Inf in
  is_hit shadow_rec = true /\
  t shadow_rec < distance T0 (PointLight.pos lamp) (pos wall_point) /\
  diffuse_term T0 shadowed_scene shadow_orig wall_point lamp = vzero.
Proof.
  cbv zeta.
  assert (Hhit : is_hit (hit (world shadowed_scene)
                    (mkRay (shadow_origin towards_wall wall_point)
                           (light_dir_of T0 wall_point lamp)) Inf) = true)
    by (vm_compute; reflexivity).
  assert (Hlt : t (hit (world shadowed_scene)
                    (mkRay (shadow_origin towards_wall wall_point)
                           (light_dir_of T0 wall_point lamp)) Inf)
                < distance T0 (PointLight.pos lamp) (pos wall_point))
    by (vm_compute; reflexivity).
  split; [exact Hhit|]. split; [exact Hlt|].
  exact (proj1 (shadow_zeroes_diffuse T0 shadowed_scene towards_wall wall_point lamp
                                      Shade0 Hhit Hlt)).
Defined.

(** C3 as stated fails for the specular part: the lamp of [shadowed_scene]
    is occluded at [wall_point] (occluder at distance 5/2, lamp at distance
    5), and yet it adds 7/25 of its intensity to the specular accumulation;
    the returned color is the ambient 1/20 plus that 7/25. *)
Lemma shadowed_light_still_specular :
  in_shadow T0 shadowed_scene (shadow_origin towards_wall wall_point) wall_point lamp = true /\
  veq (specular_term T0 wall_point lamp) (mkVec (7 # 25) (7 # 25) (7 # 25)) /\
  ~ veq (specular_term T0 wall_point lamp) vzero /\
  veq (bling_phong T0 shadowed_scene towards_wall wall_point)
      (mkVec (33 # 100) (33 # 100) (33 # 100)).
Proof.
  split; [vm_compute; reflexivity|].
  split; [apply veqb_veq; vm_compute; reflexivity|].
  split.
  - intros H. apply veqb_veq in H. vm_compute in H. discriminate.
  - apply veqb_veq. vm_compute. reflexivity.
Qed.

(** ** The merge *)

Lemma merge_results_spec (Dr : Z) (rs : ResultStack.t) (i j : Z) (kr : Q)
      (R : list Color) (second first : Color) :
  (Dr <= max_i32)%Z ->
  holds Dr rs i j (R ++ [second; first]) ->
  exists rs', merge_results rs i j kr = Ok rs' /\
              holds Dr rs' i j (R ++ [combine kr second first]).
Proof.
  intros HD Hh.
  replace (R ++ [second; first]) with ((R ++ [second]) ++ [first]) in Hh
    by now rewrite <- app_assoc.
  pose proof (holds_ptr _ Dr rs i j _ Hh) as Hptr.
  rewrite !length_app in Hptr. cbn [length] in Hptr.
  assert (Hlt : (FieldStack.ptr rs i j < Dr)%Z) by (destruct Hh as (_ & Hp & _); lia).
  destruct (holds_pop _ Dr rs i j _ first HD Hh) as (Htop1 & rs1 & Hpop1 & Hh1).
  destruct (holds_pop _ Dr rs1 i j _ second HD Hh1) as (Htop2 & rs2 & Hpop2 & Hh2).
  destruct (holds_push _ Dr rs2 i j R (combine kr second first) HD Hh2 ltac:(lia))
    as (rs3 & Hpush & Hh3).
  exists rs3. split; [| exact Hh3].
  unfold merge_results, ResultStack.top, ResultStack.pop, ResultStack.push.
  rewrite Htop1, Hpop1. cbn [snd]. rewrite Htop2, Hpop2. cbn [snd].
  now rewrite Hpush.
Qed.

(** C1, on the code.  With kr = 1 and a result stack that holds the
    refracted color (black) below the reflected color (white, on top), the
    merge pops white first and black second and pushes black: [kr] weighs the
    color popped second.  The specified blend, [kr] times the color popped
    first, is white.  End to end: a mirror hit head-on (kr = 0) with a depth
    limit of one yields black, where the specified blend yields 0.99 of the
    background. *)
Theorem merge_weighs_second_popped :
  ResultStack.top two_results 0 0 = Some reflected_sample /\
  (exists rs', merge_results two_results 0 0 1 = Ok rs' /\
               color_is (ResultStack.top rs' 0 0) refracted_sample = true /\
               color_is (ResultStack.top rs' 0 0)
                        (specified_merge 1 reflected_sample refracted_sample) = false) /\
  kr_of T0 (mkStatusFrame TASK_PROCESS 0 down 1)
        (hit (world mirror_scene) down Inf) == 0 /\
  color_is (pixel_of (ray_color T0 mirror_scene 5 0 0 down (init_state mirror_scene)))
           black = true /\
  color_is (pixel_of (ray_color T0 mirror_scene 5 0 0 down (init_state mirror_scene)))
           (specified_merge 0 black (placeholder mirror_scene)) = false.
Proof.
  split; [reflexivity|]. split.
  - eexists. split; [reflexivity|]. split; vm_compute; reflexivity.
  - split; [vm_compute; reflexivity|]. split; vm_compute; reflexivity.
Qed.

(** ** After the loop *)

Lemma rev_ind_cases {A : Type} (l : list A) :
  l = [] \/ exists l' a, l = l' ++ [a].
Proof.
  induction l as [| a l _] using rev_ind; [now left | right; now exists l, a].
Qed.

Lemma last_snoc {A : Type} (l : list A) (a d : A) : last (l ++ [a]) d = a.
Proof. induction l as [| x l IH]; [reflexivity|]. simpl. destruct (l ++ [a]) eqn:E; [now destruct l | exact IH]. Qed.

Lemma final_color_last (r : Renderer) (i j : Z) (st : State) (Dr : Z) (R : list Color) :
  (Dr <= max_i32)%Z ->
  holds Dr (result_stack st) i j R ->
  pixel_of (final_color r i j st) = Some (last R (background_color r)).
Proof.
  intros HD Hh.
  unfold final_color, ResultStack.empty, ResultStack.top.
  destruct (rev_ind_cases R) as [-> | (R' & c & ->)].
  - now rewrite (holds_nil_empty _ Dr _ i j Hh).
  - rewrite (holds_nonempty _ Dr _ i j R' c Hh). cbn [negb].
    destruct (holds_pop _ Dr _ i j R' c HD Hh) as (Htop & _).
    rewrite Htop. cbn [pixel_of]. now rewrite last_snoc.
Qed.

(** C4, as the code has it.  After the loop the pixel color is the top entry
    of the result stack whenever the stack is not empty (so the single entry
    when there is exactly one, and the most recent one when there are
    more), and the background color when it is empty. *)
Theorem final_color_reads_top (r : Renderer) (i j : Z) (st : State)
        (Dr : Z) (R : list Color) :
  (Dr <= max_i32)%Z ->
  holds Dr (result_stack st) i j R ->
  pixel_of (final_color r i j st) = Some (last R (background_color r)) /\
  (forall c, R = [c] -> pixel_of (final_color r i j st) = Some c) /\
  (R = [] -> pixel_of (final_color r i j st) = Some (background_color r)).
Proof.
  intros HD Hh.
  pose proof (final_color_last r i j st Dr R HD Hh) as Hmain.
  split; [exact Hmain|]. split.
  - intros c ->. exact Hmain.
  - intros ->. exact Hmain.
Qed.

Lemma holds_two_results :
  holds 3 two_results 0 0 [refracted_sample; reflected_sample].
Proof. repeat split; vm_compute; congruence. Qed.

Lemma final_color_reads_top_witness :
  (3 <= max_i32)%Z /\
  holds 3 two_results 0 0 [refracted_sample; reflected_sample] /\
  pixel_of (final_color mirror_scene 0 0
              (mkState (StatusStack.init 1 1 3) two_results O))
  = Some reflected_sample.
Proof.
  assert (HD : (3 <= max_i32)%Z) by (unfold max_i32; lia).
  split; [exact HD|]. split; [exact holds_two_results|].
  exact (proj1 (final_color_reads_top mirror_scene 0 0
                  (mkState (StatusStack.init 1 1 3) two_results O)
                  3 [refracted_sample; reflected_sample] HD holds_two_results)).
Defined.

(** C4 as stated fails when the loop ends with more than one result.  In
    [corridor_scene] the primary ray meets a mirror, its reflection meets a
    second mirror and the next reflection escapes: the loop breaks with two
    placeholders on the result stack (and two merge frames still pending),
    and the pixel is the top placeholder, 0.99 of the background, not the
    background. *)
Lemma two_results_not_background :
  exists st',
    ray_color_loop T0 corridor_scene 9 0 0 9
                   (start_state 0 0 slant (init_state corridor_scene)) = Ok st' /\
    length (FieldStack.contents (result_stack st') 0 0) = 2%nat /\
    length (FieldStack.contents (status_stack st') 0 0) = 2%nat /\
    color_is (pixel_of (final_color corridor_scene 0 0 st'))
             (placeholder corridor_scene) = true /\
    color_is (pixel_of (ray_color T0 corridor_scene 9 0 0 slant (init_state corridor_scene)))
             (background_color corridor_scene) = false.
Proof.
  eexists. split; [vm_compute; reflexivity|].
  repeat split; vm_compute; reflexivity.
Qed.

(** ** One iteration of the loop *)

Lemma step_pops (T : Taichi) (r : Renderer) (fuel : nat) (i j : Z) (st : State)
      (Ds : Z) (S : list StatusFrame) (frame : StatusFrame) :
  (Ds <= max_i32)%Z ->
  holds Ds (status_stack st) i j (S ++ [frame]) ->
  holds Ds (snd (StatusStack.pop (status_stack st) i j)) i j S /\
  ray_color_step T r fuel i j st =
  let ss := snd (StatusStack.pop (status_stack st) i j) in
  if (task_type frame =? TASK_PROCESS)%Z then
    process_frame T r fuel i j frame ss (result_stack st) (rng st)
  else if (task_type frame =? TASK_MERGE)%Z then
    match merge_results (result_stack st) i j (kr frame) with
    | Ok rs' => Ok (Continue, mkState ss rs' (rng st))
    | OutOfBounds => OutOfBounds
    | OutOfFuel => OutOfFuel
    end
  else Ok (Continue, mkState ss (result_stack st) (rng st)).
Proof.
  intros HD Hh.
  destruct (holds_pop _ Ds _ i j S frame HD Hh) as (Htop & ss & Hpop & Hss).
  unfold StatusStack.pop. rewrite Hpop. cbn [snd]. split; [exact Hss|].
  unfold ray_color_step, StatusStack.top, StatusStack.pop.
  now rewrite Htop, Hpop.
Qed.

(** C6. A [TASK_PROCESS] frame popped with depth >= max_depth makes the
    iteration push (0,0,0) on the result stack and continue; the status stack
    is left as the pop left it (no frame is pushed), and the outcome does not
    depend on the scene, the lights or the random stream (no intersection is
    made, nothing is drawn).  With room on the result stack the new top entry
    is exactly black. *)
Theorem depth_exhausted_black (T : Taichi) (r : Renderer) (fuel : nat) (i j : Z)
        (st : State) (Ds : Z) (S : list StatusFrame) (frame : StatusFrame) :
  (Ds <= max_i32)%Z ->
  holds Ds (status_stack st) i j (S ++ [frame]) ->
  task_type frame = TASK_PROCESS ->
  (depth frame >= max_depth r)%Z ->
  let ss := snd (StatusStack.pop (status_stack st) i j) in
  let rs := snd (ResultStack.push (result_stack st) i j black) in
  holds Ds ss i j S /\
  ray_color_step T r fuel i j st = Ok (Continue, mkState ss rs (rng st)) /\
  (forall T' r' fuel',
      max_depth r' = max_depth r ->
      ray_color_step T' r' fuel' i j st = ray_color_step T r fuel i j st) /\
  (forall Dr R,
      (Dr <= max_i32)%Z -> holds Dr (result_stack st) i j R ->
      (Z.of_nat (length R) < Dr)%Z ->
      holds Dr rs i j (R ++ [black]) /\ ResultStack.top rs i j = Some black).
Proof.
  intros HD Hh Htask Hdepth ss rs.
  assert (Hstep : forall T' r' fuel', max_depth r' = max_depth r ->
            ray_color_step T' r' fuel' i j st = Ok (Continue, mkState ss rs (rng st))).
  { intros T' r' fuel' Hmax.
    destruct (step_pops T' r' fuel' i j st Ds S frame HD Hh) as [_ ->].
    cbv zeta. rewrite Htask. cbn [Z.eqb TASK_PROCESS].
    unfold process_frame. rewrite Hmax.
    assert (E : (depth frame >=? max_depth r)%Z = true) by (apply Z.geb_le; lia).
    now rewrite E. }
  split; [exact (proj1 (step_pops T r fuel i j st Ds S frame HD Hh))|].
  split; [exact (Hstep T r fuel eq_refl)|].
  split.
  - intros T' r' fuel' Hmax. now rewrite (Hstep T' r' fuel' Hmax), (Hstep T r fuel eq_refl).
  - intros Dr R HDr HR Hroom.
    destruct (holds_push _ Dr _ i j R black HDr HR Hroom) as (rs' & Hpush & Hrs').
    assert (Ers : rs = rs') by (unfold rs, ResultStack.push; now rewrite Hpush).
    rewrite Ers. split; [exact Hrs'|].
    exact (proj1 (holds_pop _ Dr rs' i j R black HDr Hrs')).
Qed.

Lemma depth_exhausted_black_witness :
  let r := empty_scene 0 in
  let frame := mkStatusFrame TASK_PROCESS 0 down 1 in
  let st := start_state 0 0 down (init_state r) in
  (3 <= max_i32)%Z /\
  holds 3 (status_stack st) 0 0 ([] ++ [frame]) /\
  task_type frame = TASK_PROCESS /\
  (depth frame >= max_depth r)%Z /\
  ray_color_step T0 r 5 0 0 st =
  Ok (Continue,
      mkState (snd (StatusStack.pop (status_stack st) 0 0))
              (snd (ResultStack.push (result_stack st) 0 0 black)) (rng st)).
Proof.
  cbv zeta.
  assert (HD : (3 <= max_i32)%Z) by (unfold max_i32; lia).
  assert (Hh : holds 3 (status_stack (start_state 0 0 down (init_state (empty_scene 0))))
                     0 0 ([] ++ [mkStatusFrame TASK_PROCESS 0 down 1])).
  { repeat split; vm_compute; congruence. }
  assert (Hd : (depth (mkStatusFrame TASK_PROCESS 0 down 1) >= max_depth (empty_scene 0))%Z)
    by (vm_compute; congruence).
  split; [exact HD|]. split; [exact Hh|]. split; [reflexivity|]. split; [exact Hd|].
  exact (proj1 (proj2 (depth_exhausted_black T0 (empty_scene 0) 5 0 0 _ 3 [] _
                         HD Hh eq_refl Hd))).
Defined.

(** ** A ray that escapes *)

Lemma miss_step (T : Taichi) (r : Renderer) (fuel : nat) (i j : Z) (st : State)
      (Ds : Z) (S : list StatusFrame) (frame : StatusFrame) :
  (Ds <= max_i32)%Z ->
  holds Ds (status_stack st) i j (S ++ [frame]) ->
  task_type frame = TASK_PROCESS ->
  (depth frame < max_depth r)%Z ->
  is_hit (hit (world r) (ray frame) Inf) = false ->
  ray_color_step T r fuel i j st =
  Ok (Break, mkState (snd (StatusStack.pop (status_stack st) i j))
                     (result_stack st) (rng st)).
Proof.
  intros HD Hh Htask Hdepth Hmiss.
  destruct (step_pops T r fuel i j st Ds S frame HD Hh) as [_ ->].
  cbv zeta. rewrite Htask. cbn [Z.eqb TASK_PROCESS].
  unfold process_frame.
  assert (E : (depth frame >=? max_depth r)%Z = false).
  { rewrite Z.geb_leb. apply Z.leb_gt. lia. }
  now rewrite E, Hmiss.
Qed.

Lemma primary_miss (T : Taichi) (r : Renderer) (i j : Z) (primary : Ray) (st : State)
      (n : nat) :
  (0 < max_depth r)%Z ->
  is_hit (hit (world r) primary Inf) = false ->
  exists st', ray_color T r (S n) i j primary st = Ok (background_color r, st') /\
              rng st' = rng st.
Proof.
  intros Hmax Hmiss.
  assert (Hfinal : forall ss g,
             final_color r i j (mkState ss (ResultStack.clear (result_stack st) i j) g)
             = Ok (background_color r,
                   mkState ss (ResultStack.clear (result_stack st) i j) g)).
  { intros ss g. unfold final_color, ResultStack.empty, ResultStack.clear. cbn [result_stack].
    now rewrite StackFacts.clear_empty. }
  unfold ray_color, start_state.
  set (frame := mkStatusFrame TASK_PROCESS 0 primary 1).
  set (ss0 := StatusStack.clear (status_stack st) i j).
  unfold StatusStack.push, FieldStack.push.
  assert (Hp0 : FieldStack.ptr ss0 i j = (-1)%Z) by (unfold ss0; simpl; apply upd2_same).
  rewrite Hp0. change (add32 (-1) 1) with 0%Z.
  destruct (0 <? FieldStack.max_depth ss0)%Z eqn:Hcap; cbn [snd].
  - set (ss1 := FieldStack.mk _ _ _).
    assert (Hp1 : FieldStack.ptr ss1 i j = 0%Z) by (unfold ss1; simpl; apply upd2_same).
    assert (Htop : StatusStack.top ss1 i j = Some frame).
    { unfold StatusStack.top, FieldStack.top. rewrite Hp1.
      change (FieldStack.max_depth ss1) with (FieldStack.max_depth ss0).
      rewrite Hcap. cbn. unfold ss1. cbn [FieldStack.stack]. now rewrite upd3_same. }
    assert (Hpop : StatusStack.pop ss1 i j =
                   (true, FieldStack.mk (FieldStack.max_depth ss1) (FieldStack.stack ss1)
                                        (upd2 (FieldStack.ptr ss1) i j (-1)%Z))).
    { unfold StatusStack.pop, FieldStack.pop. rewrite Hp1. reflexivity. }
    cbn [ray_color_loop status_stack]. unfold StatusStack.empty, FieldStack.empty.
    rewrite Hp1. cbn [Z.leb Z.compare].
    unfold ray_color_step. cbn [status_stack result_stack rng].
    rewrite Htop, Hpop. cbn [snd].
    change (task_type frame =? TASK_PROCESS)%Z with true. cbv iota.
    unfold process_frame.
    assert (E : (depth frame >=? max_depth r)%Z = false).
    { rewrite Z.geb_leb. apply Z.leb_gt. exact Hmax. }
    rewrite E. change (ray frame) with primary. rewrite Hmiss.
    rewrite Hfinal. eexists. split; [reflexivity | reflexivity].
  - assert (He : StatusStack.empty ss0 i j = true).
    { unfold StatusStack.empty, ss0. apply StackFacts.clear_empty. }
    destruct n; cbn [ray_color_loop status_stack]; rewrite He;
      rewrite Hfinal; eexists; (split; reflexivity).
Qed.

(** C7. When the intersection made for a [TASK_PROCESS] frame reports no hit,
    the iteration breaks and the loop is over at once: the frames still on
    the status stack are never run, the result stack is as it was.  A primary
    ray that hits nothing gives exactly the background color, whatever the
    random stream holds, and no draw is consumed. *)
Theorem miss_ends_trace (T : Taichi) (r : Renderer) (fuel : nat) (i j : Z) :
  (forall st Ds S frame n,
      (Ds <= max_i32)%Z ->
      holds Ds (status_stack st) i j (S ++ [frame]) ->
      task_type frame = TASK_PROCESS ->
      (depth frame < max_depth r)%Z ->
      is_hit (hit (world r) (ray frame) Inf) = false ->
      let st' := mkState (snd (StatusStack.pop (status_stack st) i j))
                         (result_stack st) (rng st) in
      ray_color_step T r fuel i j st = Ok (Break, st') /\
      ray_color_loop T r fuel i j (Datatypes.S n) st = Ok st' /\
      holds Ds (status_stack st') i j S) /\
  (forall ray st n,
      (0 < max_depth r)%Z ->
      is_hit (hit (world r) ray Inf) = false ->
      exists st', ray_color T r (Datatypes.S n) i j ray st = Ok (background_color r, st') /\
                  rng st' = rng st).
Proof.
  split.
  - intros st Ds S frame n HD Hh Htask Hdepth Hmiss st'.
    pose proof (miss_step T r fuel i j st Ds S frame HD Hh Htask Hdepth Hmiss) as Hstep.
    split; [exact Hstep|]. split.
    + cbn [ray_color_loop]. unfold StatusStack.empty.
      rewrite (holds_nonempty _ Ds _ i j S frame Hh). now rewrite Hstep.
    + exact (proj1 (step_pops T r fuel i j st Ds S frame HD Hh)).
  - intros ray st n. apply primary_miss.
Qed.

Lemma miss_ends_trace_witness :
  let r := empty_scene 1 in
  let frame := mkStatusFrame TASK_PROCESS 0 down 1 in
  let st := start_state 0 0 down (init_state r) in
  (3 <= max_i32)%Z /\
  holds 3 (status_stack st) 0 0 ([] ++ [frame]) /\
  (depth frame < max_depth r)%Z /\
  is_hit (hit (world r) (ray frame) Inf) = false /\
  ray_color_loop T0 r 5 0 0 1 st =
  Ok (mkState (snd (StatusStack.pop (status_stack st) 0 0)) (result_stack st) (rng st)) /\
  exists st', ray_color T0 r 1 0 0 down (init_state r) = Ok (background_color r, st') /\
              rng st' = rng (init_state r).
Proof.
  cbv zeta.
  assert (HD : (3 <= max_i32)%Z) by (unfold max_i32; lia).
  assert (Hh : holds 3 (status_stack (start_state 0 0 down (init_state (empty_scene 1))))
                     0 0 ([] ++ [mkStatusFrame TASK_PROCESS 0 down 1])).
  { repeat split; vm_compute; congruence. }
  assert (Hd : (depth (mkStatusFrame TASK_PROCESS 0 down 1) < max_depth (empty_scene 1))%Z)
    by reflexivity.
  assert (Hmax : (0 < max_depth (empty_scene 1))%Z) by reflexivity.
  assert (Hmiss : is_hit (hit (world (empty_scene 1))
                              (ray (mkStatusFrame TASK_PROCESS 0 down 1)) Inf) = false)
    by reflexivity.
  destruct (miss_ends_trace T0 (empty_scene 1) 5 0 0) as [Hany _].
  destruct (miss_ends_trace T0 (empty_scene 1) 1 0 0) as [_ Hprimary].
  split; [exact HD|]. split; [exact Hh|]. split; [exact Hd|]. split; [exact Hmiss|].
  split.
  - exact (proj1 (proj2 (Hany _ 3%Z [] _ O HD Hh eq_refl Hd Hmiss))).
  - exact (Hprimary down (init_state (empty_scene 1)) O Hmax Hmiss).
Defined.

(** ** Mirror-like hits: the order of the pushes *)

Lemma steps_trans (T : Taichi) (r : Renderer) (fuel : nat) (i j : Z)
      (n m : nat) (a b c : State) :
  steps T r fuel i j n a b -> steps T r fuel i j m b c ->
  steps T r fuel i j (n + m) a c.
Proof.
  induction 1 as [st | n st st1 st2 Hstep _ IH]; intros Hbc; [exact Hbc|].
  simpl. eapply steps_next; [exact Hstep | exact (IH Hbc)].
Qed.

Lemma steps_one (T : Taichi) (r : Renderer) (fuel : nat) (i j : Z) (a b : State) :
  ray_color_step T r fuel i j a = Ok (Continue, b) -> steps T r fuel i j 1 a b.
Proof. intros H. eapply steps_next; [exact H | apply steps_done]. Qed.

Lemma m_type_eqb_eq (a b : MaterialType) : m_type_eqb a b = true <-> a = b.
Proof. destruct a, b; simpl; split; congruence. Qed.

Section Step.
Variables (T : Taichi) (r : Renderer) (fuel : nat) (i j : Z).
Variables (Ds Dr : Z).
Hypothesis HDs : (Ds <= max_i32)%Z.
Hypothesis HDr : (Dr <= max_i32)%Z.

(** A frame that hits a mirror-like surface below the depth limit. *)
Lemma process_hit_unfold (st : State) (S : list StatusFrame) (frame : StatusFrame) :
  holds Ds (status_stack st) i j (S ++ [frame]) ->
  task_type frame = TASK_PROCESS ->
  (depth frame < max_depth r)%Z ->
  is_hit (hit (world r) (ray frame) Inf) = true ->
  let rec := hit (world r) (ray frame) Inf in
  let ss := snd (StatusStack.pop (status_stack st) i j) in
  holds Ds ss i j S /\
  ray_color_step T r fuel i j st =
  if m_type_eqb (m_type (mat rec)) REFLECTION_AND_REFRACTION
     || m_type_eqb (m_type (mat rec)) REFLECTION
  then process_specular T r fuel i j frame rec ss (result_stack st) (rng st)
  else Ok (Continue,
           mkState ss (snd (ResultStack.push (result_stack st) i j
                                             (bling_phong T r (ray frame) rec)))
                   (rng st)).
Proof.
  intros Hh Htask Hdepth Hhit rec ss.
  destruct (step_pops T r fuel i j st Ds S frame HDs Hh) as [Hss ->].
  split; [exact Hss|].
  cbv zeta. rewrite Htask. cbn [Z.eqb TASK_PROCESS].
  unfold process_frame.
  assert (E : (depth frame >=? max_depth r)%Z = false).
  { rewrite Z.geb_leb. apply Z.leb_gt. lia. }
  rewrite E, Hhit. reflexivity.
Qed.

Lemma step_both (st : State) (S : list StatusFrame) (frame : StatusFrame)
      (u : vec3) (g1 : nat) :
  holds Ds (status_stack st) i j (S ++ [frame]) ->
  task_type frame = TASK_PROCESS ->
  (depth frame < max_depth r)%Z ->
  let rec := hit (world r) (ray frame) Inf in
  is_hit rec = true ->
  m_type (mat rec) = REFLECTION_AND_REFRACTION ->
  random_unit_vector T fuel (rng st) = Some (u, g1) ->
  (Z.of_nat (length S) + 3 <= Ds)%Z ->
  exists st1,
    ray_color_step T r fuel i j st = Ok (Continue, st1) /\
    holds Ds (status_stack st1) i j
          (S ++ [merge_frame T frame rec; reflect_frame T r frame rec u;
                 refract_frame T frame rec]) /\
    result_stack st1 = result_stack st /\
    rng st1 = g1.
Proof.
  intros Hh Htask Hdepth rec Hhit Hmat Hrand Hroom.
  destruct (process_hit_unfold st S frame Hh Htask Hdepth Hhit) as [Hss ->].
  fold rec. rewrite Hmat. cbn [m_type_eqb orb].
  unfold process_specular. rewrite Hrand, Hmat. cbn [m_type_eqb].
  set (ss := snd (StatusStack.pop (status_stack st) i j)) in *.
  destruct (holds_push _ Ds ss i j S (merge_frame T frame rec) HDs Hss ltac:(lia))
    as (ss1 & Hp1 & Hss1).
  assert (Hl1 : length (S ++ [merge_frame T frame rec]) = Datatypes.S (length S))
    by (rewrite length_app; simpl; lia).
  destruct (holds_push _ Ds ss1 i j _ (reflect_frame T r frame rec u) HDs Hss1
                       ltac:(rewrite Hl1; lia)) as (ss2 & Hp2 & Hss2).
  assert (Hl2 : length ((S ++ [merge_frame T frame rec]) ++ [reflect_frame T r frame rec u])
                = Datatypes.S (Datatypes.S (length S)))
    by (rewrite length_app, Hl1; simpl; lia).
  destruct (holds_push _ Ds ss2 i j _ (refract_frame T frame rec) HDs Hss2
                       ltac:(rewrite Hl2; lia)) as (ss3 & Hp3 & Hss3).
  unfold StatusStack.push. rewrite Hp1. cbn [snd]. rewrite Hp2. cbn [snd].
  rewrite Hp3. cbn [snd].
  eexists. split; [reflexivity|]. cbn [status_stack result_stack rng].
  split; [| split; reflexivity].
  now rewrite <- !app_assoc in Hss3.
Qed.

Lemma step_reflection (st : State) (S : list StatusFrame) (R : list Color)
      (frame : StatusFrame) (u : vec3) (g1 : nat) :
  holds Ds (status_stack st) i j (S ++ [frame]) ->
  holds Dr (result_stack st) i j R ->
  task_type frame = TASK_PROCESS ->
  (depth frame < max_depth r)%Z ->
  let rec := hit (world r) (ray frame) Inf in
  is_hit rec = true ->
  m_type (mat rec) = REFLECTION ->
  random_unit_vector T fuel (rng st) = Some (u, g1) ->
  (Z.of_nat (length S) + 2 <= Ds)%Z ->
  (Z.of_nat (length R) + 1 <= Dr)%Z ->
  exists st1,
    ray_color_step T r fuel i j st = Ok (Continue, st1) /\
    holds Ds (status_stack st1) i j
          (S ++ [merge_frame T frame rec; reflect_frame T r frame rec u]) /\
    holds Dr (result_stack st1) i j (R ++ [placeholder r]) /\
    rng st1 = g1.
Proof.
  intros Hh HR Htask Hdepth rec Hhit Hmat Hrand Hroom HroomR.
  destruct (process_hit_unfold st S frame Hh Htask Hdepth Hhit) as [Hss ->].
  fold rec. rewrite Hmat. cbn [m_type_eqb orb].
  unfold process_specular. rewrite Hrand, Hmat. cbn [m_type_eqb].
  set (ss := snd (StatusStack.pop (status_stack st) i j)) in *.
  destruct (holds_push _ Ds ss i j S (merge_frame T frame rec) HDs Hss ltac:(lia))
    as (ss1 & Hp1 & Hss1).
  assert (Hl1 : length (S ++ [merge_frame T frame rec]) = Datatypes.S (length S))
    by (rewrite length_app; simpl; lia).
  destruct (holds_push _ Ds ss1 i j _ (reflect_frame T r frame rec u) HDs Hss1
                       ltac:(rewrite Hl1; lia)) as (ss2 & Hp2 & Hss2).
  destruct (holds_push _ Dr (result_stack st) i j R (placeholder r) HDr HR ltac:(lia))
    as (rs1 & Hq & Hrs1).
  unfold StatusStack.push, ResultStack.push. rewrite Hp1. cbn [snd]. rewrite Hp2, Hq.
  cbn [snd].
  eexists. split; [reflexivity|]. cbn [status_stack result_stack rng].
  split; [| split; [exact Hrs1 | reflexivity]].
  now rewrite <- !app_assoc in Hss2.
Qed.

Lemma step_diffuse (st : State) (S : list StatusFrame) (R : list Color)
      (frame : StatusFrame) :
  holds Ds (status_stack st) i j (S ++ [frame]) ->
  holds Dr (result_stack st) i j R ->
  task_type frame = TASK_PROCESS ->
  (depth frame < max_depth r)%Z ->
  let rec := hit (world r) (ray frame) Inf in
  is_hit rec = true ->
  m_type (mat rec) = DIFFUSE_AND_GLOSSY ->
  (Z.of_nat (length R) + 1 <= Dr)%Z ->
  exists st1,
    ray_color_step T r fuel i j st = Ok (Continue, st1) /\
    holds Ds (status_stack st1) i j S /\
    holds Dr (result_stack st1) i j (R ++ [bling_phong T r (ray frame) rec]) /\
    rng st1 = rng st.
Proof.
  intros Hh HR Htask Hdepth rec Hhit Hmat HroomR.
  destruct (process_hit_unfold st S frame Hh Htask Hdepth Hhit) as [Hss ->].
  fold rec. rewrite Hmat. cbn [m_type_eqb orb].
  destruct (holds_push _ Dr (result_stack st) i j R (bling_phong T r (ray frame) rec)
                       HDr HR ltac:(lia)) as (rs1 & Hq & Hrs1).
  unfold ResultStack.push. rewrite Hq. cbn [snd].
  eexists. split; [reflexivity|]. cbn [status_stack result_stack rng].
  split; [exact Hss | split; [exact Hrs1 | reflexivity]].
Qed.

Lemma step_exhausted (st : State) (S : list StatusFrame) (R : list Color)
      (frame : StatusFrame) :
  holds Ds (status_stack st) i j (S ++ [frame]) ->
  holds Dr (result_stack st) i j R ->
  task_type frame = TASK_PROCESS ->
  (depth frame >= max_depth r)%Z ->
  (Z.of_nat (length R) + 1 <= Dr)%Z ->
  exists st1,
    ray_color_step T r fuel i j st = Ok (Continue, st1) /\
    holds Ds (status_stack st1) i j S /\
    holds Dr (result_stack st1) i j (R ++ [black]) /\
    rng st1 = rng st.
Proof.
  intros Hh HR Htask Hdepth HroomR.
  destruct (step_pops T r fuel i j st Ds S frame HDs Hh) as [Hss ->].
  cbv zeta. rewrite Htask. cbn [Z.eqb TASK_PROCESS].
  unfold process_frame.
  assert (E : (depth frame >=? max_depth r)%Z = true) by (apply Z.geb_le; lia).
  rewrite E.
  destruct (holds_push _ Dr (result_stack st) i j R black HDr HR ltac:(lia))
    as (rs1 & Hq & Hrs1).
  unfold ResultStack.push. rewrite Hq. cbn [snd].
  eexists. split; [reflexivity|]. cbn [status_stack result_stack rng].
  split; [exact Hss | split; [exact Hrs1 | reflexivity]].
Qed.

Lemma step_merge (st : State) (S : list StatusFrame) (R : list Color)
      (frame : StatusFrame) (second first : Color) :
  holds Ds (status_stack st) i j (S ++ [frame]) ->
  holds Dr (result_stack st) i j (R ++ [second; first]) ->
  task_type frame = TASK_MERGE ->
  exists st1,
    ray_color_step T r fuel i j st = Ok (Continue, st1) /\
    holds Ds (status_stack st1) i j S /\
    holds Dr (result_stack st1) i j (R ++ [combine (kr frame) second first]) /\
    rng st1 = rng st.
Proof.
  intros Hh HR Htask.
  destruct (step_pops T r fuel i j st Ds S frame HDs Hh) as [Hss ->].
  cbv zeta. rewrite Htask. cbn [Z.eqb TASK_PROCESS TASK_MERGE].
  destruct (merge_results_spec Dr (result_stack st) i j (kr frame) R second first HDr HR)
    as (rs' & -> & Hrs').
  eexists. split; [reflexivity|]. cbn [status_stack result_stack rng].
  split; [exact Hss | split; [exact Hrs' | reflexivity]].
Qed.

End Step.

Lemma child_depth (r : Renderer) (d : Z) :
  (max_depth r <= max_i32)%Z -> (0 <= d < max_depth r)%Z ->
  add32 d 1 = (d + 1)%Z.
Proof.
  intros Hmax Hd. unfold add32. apply wrap32_small. unfold max_i32 in *. lia.
Qed.

(** Running the frame on top of the status stack to completion pushes its
    value, and nothing else, on the result stack, and leaves the frames
    below it in place. *)
Lemma subtree_runs (T : Taichi) (r : Renderer) (fuel : nat) (i j : Z) (Ds Dr : Z) :
  (Ds <= max_i32)%Z -> (Dr <= max_i32)%Z -> (max_depth r <= max_i32)%Z ->
  forall frame g c g',
    trace_value T r fuel frame g c g' ->
    forall st S R,
      (0 <= depth frame)%Z ->
      holds Ds (status_stack st) i j (S ++ [frame]) ->
      holds Dr (result_stack st) i j R ->
      rng st = g ->
      (Z.of_nat (length S) + 1 + 2 * Z.max 0 (max_depth r - depth frame) <= Ds)%Z ->
      (Z.of_nat (length R) + 1 + Z.max 0 (max_depth r - depth frame) <= Dr)%Z ->
      exists n st',
        steps T r fuel i j n st st' /\
        holds Ds (status_stack st') i j S /\
        holds Dr (result_stack st') i j (R ++ [c]) /\
        rng st' = g'.
Proof.
  intros HDs HDr Hmax frame g c g' Htv.
  induction Htv as
      [ frame g Htask Hdepth
      | frame g rec Htask Hdepth Hhit Hmat
      | frame g u g1 c_refl g2 rec Htask Hdepth Hhit Hmat Hrand Hrefl IHrefl
      | frame g u g1 c_refr g2 c_refl g3 rec Htask Hdepth Hhit Hmat Hrand
              Hrefr IHrefr Hrefl IHrefl ];
    intros st S R Hnn Hh HR Hg HroomS HroomR.
  - destruct (step_exhausted T r fuel i j Ds Dr HDs HDr st S R frame Hh HR Htask Hdepth
                             ltac:(lia)) as (st1 & Hstep & HS1 & HR1 & Hg1).
    exists 1%nat, st1. split; [now apply steps_one|].
    split; [exact HS1 | split; [exact HR1 | congruence]].
  - destruct (step_diffuse T r fuel i j Ds Dr HDs HDr st S R frame Hh HR Htask Hdepth
                           Hhit Hmat ltac:(lia)) as (st1 & Hstep & HS1 & HR1 & Hg1).
    exists 1%nat, st1. split; [now apply steps_one|].
    split; [exact HS1 | split; [exact HR1 | congruence]].
  - pose proof (child_depth r (depth frame) Hmax ltac:(lia)) as Hd1.
    rewrite <- Hg in Hrand.
    destruct (step_reflection T r fuel i j Ds Dr HDs HDr st S R frame u g1 Hh HR Htask
                              Hdepth Hhit Hmat Hrand ltac:(lia) ltac:(lia))
      as (st1 & Hstep & HS1 & HR1 & Hg1).
    assert (HS1' : holds Ds (status_stack st1) i j
                     ((S ++ [merge_frame T frame rec]) ++ [reflect_frame T r frame rec u]))
      by (rewrite <- app_assoc; exact HS1).
    destruct (IHrefl st1 (S ++ [merge_frame T frame rec]) (R ++ [placeholder r]))
      as (n & st2 & Hrun & HS2 & HR2 & Hg2); try assumption.
    + cbn [reflect_frame depth]. lia.
    + rewrite length_app. cbn [length reflect_frame depth]. lia.
    + rewrite length_app. cbn [length reflect_frame depth]. lia.
    + rewrite <- app_assoc in HR2. cbn [app] in HR2.
      destruct (step_merge T r fuel i j Ds Dr HDs HDr st2 S R (merge_frame T frame rec)
                           (placeholder r) c_refl HS2 HR2 eq_refl)
        as (st3 & Hstep3 & HS3 & HR3 & Hg3).
      exists (1 + (n + 1))%nat, st3.
      split.
      { eapply steps_trans; [apply steps_one; exact Hstep|].
        eapply steps_trans; [exact Hrun | apply steps_one; exact Hstep3]. }
      split; [exact HS3 | split; [exact HR3 | congruence]].
  - pose proof (child_depth r (depth frame) Hmax ltac:(lia)) as Hd1.
    rewrite <- Hg in Hrand.
    destruct (step_both T r fuel i j Ds HDs st S frame u g1 Hh Htask
                        Hdepth Hhit Hmat Hrand ltac:(lia))
      as (st1 & Hstep & HS1 & HR1 & Hg1).
    assert (HS1' : holds Ds (status_stack st1) i j
                     ((S ++ [merge_frame T frame rec; reflect_frame T r frame rec u])
                        ++ [refract_frame T frame rec]))
      by (rewrite <- app_assoc; exact HS1).
    rewrite <- HR1 in HR.
    destruct (IHrefr st1 (S ++ [merge_frame T frame rec; reflect_frame T r frame rec u]) R)
      as (n & st2 & Hrun & HS2 & HR2 & Hg2); try assumption.
    + cbn [refract_frame depth]. lia.
    + rewrite length_app. cbn [length refract_frame depth]. lia.
    + cbn [refract_frame depth]. lia.
    + assert (HS2' : holds Ds (status_stack st2) i j
                       ((S ++ [merge_frame T frame rec]) ++ [reflect_frame T r frame rec u]))
        by (rewrite <- app_assoc; exact HS2).
      destruct (IHrefl st2 (S ++ [merge_frame T frame rec]) (R ++ [c_refr]))
        as (m & st3 & Hrun3 & HS3 & HR3 & Hg3); try assumption.
      * cbn [reflect_frame depth]. lia.
      * rewrite length_app. cbn [length reflect_frame depth]. lia.
      * rewrite length_app. cbn [length reflect_frame depth]. lia.
      * rewrite <- app_assoc in HR3. cbn [app] in HR3.
        destruct (step_merge T r fuel i j Ds Dr HDs HDr st3 S R (merge_frame T frame rec)
                             c_refr c_refl HS3 HR3 eq_refl)
          as (st4 & Hstep4 & HS4 & HR4 & Hg4).
        exists (1 + (n + (m + 1)))%nat, st4.
        split.
        { eapply steps_trans; [apply steps_one; exact Hstep|].
          eapply steps_trans; [exact Hrun|].
          eapply steps_trans; [exact Hrun3 | apply steps_one; exact Hstep4]. }
        split; [exact HS4 | split; [exact HR4 | congruence]].
Qed.

(** C8. A hit on a REFLECTION or REFLECTION_AND_REFRACTION material below the
    depth limit, with the configured room on the two stacks, pushes the MERGE
    frame first, then the reflection frame, then (when the material
    refracts) the refraction frame, so the status stack reads
    [MERGE; reflect; refract] from the bottom up.  The refraction subtree
    therefore runs first and the reflection subtree second, and when the
    MERGE frame comes to the top the result stack holds the refracted color
    below the reflected one.  For a REFLECTION material no refraction frame
    is pushed: the color 0.99 * background_color, written out below as
    [vscale (99 # 100) (background_color r)], goes directly on the result
    stack in the refracted position. *)
Theorem merge_before_children (T : Taichi) (r : Renderer) (fuel : nat) (i j : Z)
        (Ds Dr : Z) (st : State) (S : list StatusFrame) (R : list Color)
        (frame : StatusFrame) (u : vec3) (g1 : nat) :
  (Ds <= max_i32)%Z -> (Dr <= max_i32)%Z -> (max_depth r <= max_i32)%Z ->
  holds Ds (status_stack st) i j (S ++ [frame]) ->
  holds Dr (result_stack st) i j R ->
  task_type frame = TASK_PROCESS ->
  (0 <= depth frame < max_depth r)%Z ->
  let rec := hit (world r) (ray frame) Inf in
  is_hit rec = true ->
  random_unit_vector T fuel (rng st) = Some (u, g1) ->
  (Z.of_nat (length S) + 1 + 2 * (max_depth r - depth frame) <= Ds)%Z ->
  (Z.of_nat (length R) + 1 + (max_depth r - depth frame) <= Dr)%Z ->
  let M := merge_frame T frame rec in
  let P_reflect := reflect_frame T r frame rec u in
  let P_refract := refract_frame T frame rec in
  (m_type (mat rec) = REFLECTION_AND_REFRACTION ->
   exists st1,
     ray_color_step T r fuel i j st = Ok (Continue, st1) /\
     holds Ds (status_stack st1) i j (S ++ [M; P_reflect; P_refract]) /\
     holds Dr (result_stack st1) i j R /\
     forall c_refracted g2 c_reflected g3,
       trace_value T r fuel P_refract g1 c_refracted g2 ->
       trace_value T r fuel P_reflect g2 c_reflected g3 ->
       exists n st2 m st3,
         steps T r fuel i j n st1 st2 /\
         holds Ds (status_stack st2) i j (S ++ [M; P_reflect]) /\
         holds Dr (result_stack st2) i j (R ++ [c_refracted]) /\
         steps T r fuel i j m st2 st3 /\
         holds Ds (status_stack st3) i j (S ++ [M]) /\
         holds Dr (result_stack st3) i j (R ++ [c_refracted; c_reflected])) /\
  (m_type (mat rec) = REFLECTION ->
   exists st1,
     ray_color_step T r fuel i j st = Ok (Continue, st1) /\
     holds Ds (status_stack st1) i j (S ++ [M; P_reflect]) /\
     holds Dr (result_stack st1) i j (R ++ [vscale (99 # 100) (background_color r)]) /\
     forall c_reflected g2,
       trace_value T r fuel P_reflect g1 c_reflected g2 ->
       exists n st2,
         steps T r fuel i j n st1 st2 /\
         holds Ds (status_stack st2) i j (S ++ [M]) /\
         holds Dr (result_stack st2) i j (R ++ [vscale (99 # 100) (background_color r); c_reflected])).
Proof.
  intros HDs HDr Hmax Hh HR Htask Hdepth rec Hhit Hrand HroomS HroomR M P_reflect P_refract.
  pose proof (child_depth r (depth frame) Hmax Hdepth) as Hd1.
  split; intros Hmat.
  - destruct (step_both T r fuel i j Ds HDs st S frame u g1 Hh Htask
                        ltac:(lia) Hhit Hmat Hrand ltac:(lia))
      as (st1 & Hstep & HS1 & HR1 & Hg1).
    exists st1. split; [exact Hstep|]. split; [exact HS1|].
    split; [rewrite HR1; exact HR|].
    intros c_refracted g2 c_reflected g3 Hrefr Hrefl.
    assert (HS1' : holds Ds (status_stack st1) i j ((S ++ [M; P_reflect]) ++ [P_refract]))
      by (rewrite <- app_assoc; exact HS1).
    destruct (subtree_runs T r fuel i j Ds Dr HDs HDr Hmax _ _ _ _ Hrefr
                           st1 (S ++ [M; P_reflect]) R)
      as (n & st2 & Hrun & HS2 & HR2 & Hg2); try assumption.
    + unfold P_refract. cbn [refract_frame depth]. lia.
    + rewrite HR1. exact HR.
    + rewrite length_app. unfold P_refract. cbn [length refract_frame depth]. lia.
    + unfold P_refract. cbn [refract_frame depth]. lia.
    + assert (HS2' : holds Ds (status_stack st2) i j ((S ++ [M]) ++ [P_reflect]))
        by (rewrite <- app_assoc; exact HS2).
      destruct (subtree_runs T r fuel i j Ds Dr HDs HDr Hmax _ _ _ _ Hrefl
                             st2 (S ++ [M]) (R ++ [c_refracted]))
        as (m & st3 & Hrun3 & HS3 & HR3 & Hg3); try assumption.
      * unfold P_reflect. cbn [reflect_frame depth]. lia.
      * rewrite length_app. unfold P_reflect. cbn [length reflect_frame depth]. lia.
      * rewrite length_app. unfold P_reflect. cbn [length reflect_frame depth]. lia.
      * exists n, st2, m, st3. rewrite <- app_assoc in HR3.
        split; [exact Hrun|]. split; [exact HS2|]. split; [exact HR2|].
        split; [exact Hrun3|]. split; [exact HS3 | exact HR3].
  - destruct (step_reflection T r fuel i j Ds Dr HDs HDr st S R frame u g1 Hh HR Htask
                              ltac:(lia) Hhit Hmat Hrand ltac:(lia) ltac:(lia))
      as (st1 & Hstep & HS1 & HR1 & Hg1).
    exists st1. split; [exact Hstep|]. split; [exact HS1|]. split; [exact HR1|].
    intros c_reflected g2 Hrefl.
    assert (HS1' : holds Ds (status_stack st1) i j ((S ++ [M]) ++ [P_reflect]))
      by (rewrite <- app_assoc; exact HS1).
    destruct (subtree_runs T r fuel i j Ds Dr HDs HDr Hmax _ _ _ _ Hrefl
                           st1 (S ++ [M]) (R ++ [placeholder r]))
      as (n & st2 & Hrun & HS2 & HR2 & Hg2); try assumption.
    + unfold P_reflect. cbn [reflect_frame depth]. lia.
    + rewrite length_app. unfold P_reflect. cbn [length reflect_frame depth]. lia.
    + rewrite length_app. unfold P_reflect. cbn [length reflect_frame depth]. lia.
    + exists n, st2. rewrite <- app_assoc in HR2.
      split; [exact Hrun|]. split; [exact HS2 | exact HR2].
Qed.

Lemma merge_before_children_witness :
  let r := glass_scene in
  let frame := mkStatusFrame TASK_PROCESS 0 down 1 in
  let st := start_state 0 0 down (init_state r) in
  let u := mkVec (4 # 4) (0 # 2) (0 # 2) in
  let rec := hit (world r) (ray frame) Inf in
  (3 <= max_i32)%Z /\
  (max_depth r <= max_i32)%Z /\
  holds 3 (status_stack st) 0 0 ([] ++ [frame]) /\
  holds 3 (result_stack st) 0 0 [] /\
  (0 <= depth frame < max_depth r)%Z /\
  is_hit rec = true /\
  m_type (mat rec) = REFLECTION_AND_REFRACTION /\
  random_unit_vector T0 5 (rng st) = Some (u, 3%nat) /\
  (Z.of_nat (length (@nil StatusFrame)) + 1 + 2 * (max_depth r - depth frame) <= 3)%Z /\
  (Z.of_nat (length (@nil Color)) + 1 + (max_depth r - depth frame) <= 3)%Z /\
  exists st1 n st3,
    ray_color_step T0 r 5 0 0 st = Ok (Continue, st1) /\
    holds 3 (status_stack st1) 0 0
          ([] ++ [merge_frame T0 frame rec; reflect_frame T0 r frame rec u;
                  refract_frame T0 frame rec]) /\
    steps T0 r 5 0 0 n st1 st3 /\
    holds 3 (status_stack st3) 0 0 ([] ++ [merge_frame T0 frame rec]) /\
    holds 3 (result_stack st3) 0 0 ([] ++ [black; black]).
Proof.
  cbv zeta.
  set (r := glass_scene).
  set (frame := mkStatusFrame TASK_PROCESS 0 down 1).
  set (st := start_state 0 0 down (init_state r)).
  set (u := mkVec (4 # 4) (0 # 2) (0 # 2)).
  assert (HD : (3 <= max_i32)%Z) by (unfold max_i32; lia).
  assert (Hmax : (max_depth r <= max_i32)%Z) by (vm_compute; congruence).
  assert (Hh : holds 3 (status_stack st) 0 0 ([] ++ [frame]))
    by (repeat split; vm_compute; congruence).
  assert (HR : holds 3 (result_stack st) 0 0 [])
    by (repeat split; vm_compute; congruence).
  assert (Hd : (0 <= depth frame < max_depth r)%Z) by (vm_compute; split; congruence).
  assert (Hhit : is_hit (hit (world r) (ray frame) Inf) = true) by (vm_compute; reflexivity).
  assert (Hmat : m_type (mat (hit (world r) (ray frame) Inf)) = REFLECTION_AND_REFRACTION)
    by (vm_compute; reflexivity).
  assert (Hrand : random_unit_vector T0 5 (rng st) = Some (u, 3%nat))
    by (vm_compute; reflexivity).
  assert (HroomS : (Z.of_nat (length (@nil StatusFrame)) + 1
                    + 2 * (max_depth r - depth frame) <= 3)%Z)
    by (vm_compute; congruence).
  assert (HroomR : (Z.of_nat (length (@nil Color)) + 1
                    + (max_depth r - depth frame) <= 3)%Z)
    by (vm_compute; congruence).
  repeat (split; [assumption|]).
  destruct (merge_before_children T0 r 5 0 0 3 3 st [] [] frame u 3
                                  HD HD Hmax Hh HR eq_refl Hd Hhit Hrand HroomS HroomR)
    as [Hboth _].
  destruct (Hboth Hmat) as (st1 & Hstep & HS1 & _ & Hrun).
  destruct (Hrun black 3%nat black 3%nat) as (n & st2 & m & st3 & H1 & _ & _ & H2 & HS3 & HR3).
  - apply tv_exhausted; [reflexivity | vm_compute; congruence].
  - apply tv_exhausted; [reflexivity | vm_compute; congruence].
  - exists st1, (n + m)%nat, st3.
    split; [exact Hstep|]. split; [exact HS1|].
    split; [exact (steps_trans T0 r 5 0 0 n m st1 st2 st3 H1 H2)|].
    split; [exact HS3 | exact HR3].
Defined.

(** ** The loop against the recursive reading *)

Lemma step_ok_nonempty (T : Taichi) (r : Renderer) (fuel : nat) (i j : Z)
      (st : State) (x : control * State) :
  ray_color_step T r fuel i j st = Ok x ->
  StatusStack.empty (status_stack st) i j = false.
Proof.
  unfold ray_color_step, StatusStack.top, FieldStack.top, StatusStack.empty, FieldStack.empty.
  cbv zeta.
  destruct ((0 <=? FieldStack.ptr (status_stack st) i j)%Z
            && (FieldStack.ptr (status_stack st) i j <? FieldStack.max_depth (status_stack st))%Z)
           eqn:E; [| discriminate].
  intros _. apply andb_true_iff in E. destruct E as [E _].
  apply Z.leb_le in E. apply Z.leb_gt. lia.
Qed.

Lemma loop_steps (T : Taichi) (r : Renderer) (fuel : nat) (i j : Z)
      (n : nat) (st st' : State) :
  steps T r fuel i j n st st' ->
  forall m, ray_color_loop T r fuel i j (n + m) st = ray_color_loop T r fuel i j m st'.
Proof.
  induction 1 as [st | n st st1 st2 Hstep _ IH]; intros m; [reflexivity|].
  cbn [Nat.add ray_color_loop].
  rewrite (step_ok_nonempty T r fuel i j st _ Hstep), Hstep. apply IH.
Qed.

Lemma holds_clear {A : Type} (D : Z) (s : FieldStack.t A) (i j : Z) :
  FieldStack.max_depth s = D -> (0 <= D)%Z -> holds D (FieldStack.clear s i j) i j [].
Proof.
  intros Hm HD. split; [exact Hm|]. unfold FieldStack.contents. cbn [FieldStack.clear FieldStack.ptr].
  rewrite upd2_same. split; [lia | reflexivity].
Qed.

(** X24. When no ray of the trace escapes and the stacks have the room the
    depth limit asks for, the loop terminates and the pixel is the recursive
    value of the primary frame. *)
Theorem ray_color_computes_trace_value (T : Taichi) (r : Renderer) (fuel : nat)
        (i j : Z) (primary : Ray) (st : State) (c : Color) (g' : nat) :
  let Ds := FieldStack.max_depth (status_stack st) in
  let Dr := FieldStack.max_depth (result_stack st) in
  (Ds <= max_i32)%Z -> (Dr <= max_i32)%Z -> (max_depth r <= max_i32)%Z ->
  (1 + 2 * Z.max 0 (max_depth r) <= Ds)%Z ->
  (1 + Z.max 0 (max_depth r) <= Dr)%Z ->
  trace_value T r fuel (mkStatusFrame TASK_PROCESS 0 primary 1) (rng st) c g' ->
  exists n, forall m, (n <= m)%nat ->
    exists st', ray_color_loop T r fuel i j m (start_state i j primary st) = Ok st' /\
                pixel_of (final_color r i j st') = Some c.
Proof.
  intros Ds Dr HDs HDr Hmax HroomS HroomR Htv.
  set (frame := mkStatusFrame TASK_PROCESS 0 primary 1) in *.
  pose proof (holds_clear Ds (status_stack st) i j eq_refl ltac:(lia)) as Hc.
  destruct (holds_push _ Ds _ i j [] frame HDs Hc ltac:(simpl; lia)) as (ss & Hpush & Hss).
  pose proof (holds_clear Dr (result_stack st) i j eq_refl ltac:(lia)) as HR.
  assert (Est : start_state i j primary st
                = mkState ss (ResultStack.clear (result_stack st) i j) (rng st)).
  { unfold start_state, StatusStack.push, StatusStack.clear. fold frame. now rewrite Hpush. }
  destruct (subtree_runs T r fuel i j Ds Dr HDs HDr Hmax frame _ _ _ Htv
                         (start_state i j primary st) [] [])
    as (n & st' & Hrun & HS' & HR' & _).
  - cbn. lia.
  - rewrite Est. exact Hss.
  - rewrite Est. exact HR.
  - now rewrite Est.
  - cbn [length frame depth]. lia.
  - cbn [length frame depth]. lia.
  - exists n. intros m Hle. exists st'. split.
    + replace m with (n + (m - n))%nat by lia.
      rewrite (loop_steps T r fuel i j n _ _ Hrun).
      destruct (m - n)%nat; cbn [ray_color_loop]; unfold StatusStack.empty;
        now rewrite (holds_nil_empty _ Ds _ i j HS').
    + exact (final_color_last r i j st' Dr [c] HDr HR').
Qed.

(** With a depth limit of zero the primary frame is already exhausted: no
    intersection is made and the pixel is black, hit or miss. *)
Example depth_limit_zero_is_black :
  color_is (pixel_of (ray_color T0 (empty_scene 0) 1 0 0 down (init_state (empty_scene 0))))
           black = true.
Proof. vm_compute. reflexivity. Qed.


(** * Further properties *)

(** ** The stacks: round trip, overflow, lanes *)

Section StackMore.
Import FieldStack.
Variable A : Type.
Implicit Types (s : FieldStack.t A) (l : list A).

Lemma in_range_holds (D : Z) s (i j : Z) :
  in_range D s -> (ptr s i j < D)%Z -> holds D s i j (contents s i j).
Proof.
  intros [Hm Hr] Hlt. specialize (Hr i j). split; [exact Hm|]. split; [lia | reflexivity].
Qed.

(** X1. On a reachable stack with a free slot, [push] succeeds, [top] then
    reads the pushed value, and a following [pop] succeeds and gives back the
    pointer and the live entries the stack had before. *)
Theorem push_top_pop_roundtrip (D : Z) s (i j : Z) (v : A) :
  (D <= max_i32)%Z ->
  reachable D s ->
  (ptr s i j + 1 < D)%Z ->
  let s1 := snd (push s i j v) in
  let s2 := snd (pop s1 i j) in
  fst (push s i j v) = true /\
  top s1 i j = Some v /\
  contents s1 i j = contents s i j ++ [v] /\
  fst (pop s1 i j) = true /\
  ptr s2 i j = ptr s i j /\
  contents s2 i j = contents s i j.
Proof.
  intros HD Hreach Hroom s1 s2.
  pose proof (StackFacts.reachable_in_range A D s HD Hreach) as Hs.
  pose proof (in_range_holds D s i j Hs ltac:(lia)) as Hh.
  pose proof (holds_ptr A D s i j _ Hh) as Hptr.
  destruct (holds_push A D s i j _ v HD Hh ltac:(lia)) as (s1' & Hpush & Hh1).
  assert (E1 : s1 = s1') by (unfold s1; now rewrite Hpush). 
  destruct (holds_pop A D s1' i j _ v HD Hh1) as (Htop & s2' & Hpop & Hh2).
  assert (E2 : s2 = s2') by (unfold s2; rewrite E1; now rewrite Hpop).
  rewrite Hpush, E2, E1, Hpop. cbn [fst].
  pose proof (holds_ptr A D s2' i j _ Hh2) as Hptr2.
  destruct Hh1 as (_ & _ & Hc1). destruct Hh2 as (_ & _ & Hc2).
  repeat split; try assumption. lia.
Qed.

(** How far [push_all] gets on a stack that holds [l]. *)
Lemma push_all_contents (D : Z) (vs : list A) :
  (D <= max_i32)%Z ->
  forall s i j l,
    holds D s i j l ->
    holds D (snd (push_all s i j vs)) i j
          (l ++ firstn (Z.to_nat (D - Z.of_nat (length l))) vs) /\
    (fst (push_all s i j vs) = true <-> (Z.of_nat (length l + length vs) <= D)%Z).
Proof.
  intros HD. induction vs as [| v vs IH]; intros s i j l Hh.
  - cbn [push_all snd fst length]. rewrite firstn_nil, app_nil_r. split; [exact Hh|].
    pose proof (holds_ptr A D s i j l Hh) as Hptr. destruct Hh as (_ & Hp & _).
    split; [intros _; lia | reflexivity].
  - pose proof (holds_ptr A D s i j l Hh) as Hptr.
    cbn [push_all].
    destruct (Z_lt_le_dec (Z.of_nat (length l)) D) as [Hroom | Hfull].
    + destruct (holds_push A D s i j l v HD Hh Hroom) as (s1 & Hpush & Hh1).
      rewrite Hpush. destruct (IH s1 i j _ Hh1) as [Hc Hok].
      destruct (push_all s1 i j vs) as [ok' s2]. cbn [fst snd] in *.
      rewrite length_app in Hc, Hok. cbn [length] in Hc, Hok.
      replace (Z.to_nat (D - Z.of_nat (length l)))
        with (S (Z.to_nat (D - Z.of_nat (length l + 1)))) by lia.
      cbn [firstn]. rewrite <- app_assoc in Hc. split; [exact Hc|].
      cbn [andb length]. rewrite Hok. lia.
    + assert (Hfail : push s i j v = (false, s)).
      { destruct Hh as (Hm & Hp & _).
        destruct (StackFacts.push_spec A s i j v) as [_ Hf]; [unfold max_i32 in *; lia|].
        apply Hf. lia. }
      rewrite Hfail. destruct (IH s i j l Hh) as [Hc Hok].
      destruct (push_all s i j vs) as [ok' s2]. cbn [fst snd] in *.
      replace (Z.to_nat (D - Z.of_nat (length l))) with O in * by lia.
      cbn [firstn] in *. split; [exact Hc|].
      cbn [andb length]. split; [discriminate | lia].
Qed.

(** X2. Pushing a list of values on a reachable stack stores the values that
    fit, in order, and silently drops the rest: the live entries become the
    old ones followed by the first [D - size] new ones, and the pushes all
    succeed exactly when everything fits. *)
Theorem push_all_keeps_what_fits (D : Z) s (i j : Z) (vs : list A) :
  (D <= max_i32)%Z ->
  reachable D s ->
  (ptr s i j < D)%Z ->
  let n := length (contents s i j) in
  contents (snd (push_all s i j vs)) i j
  = contents s i j ++ firstn (Z.to_nat D - n) vs /\
  (fst (push_all s i j vs) = true <-> (Z.of_nat (n + length vs) <= D)%Z).
Proof.
  intros HD Hreach Hlt n.
  pose proof (StackFacts.reachable_in_range A D s HD Hreach) as Hs.
  pose proof (in_range_holds D s i j Hs Hlt) as Hh.
  destruct (push_all_contents D vs HD s i j _ Hh) as [(_ & _ & Hc) Hok].
  split; [| exact Hok].
  rewrite Hc. f_equal. f_equal. unfold n. lia.
Qed.

(** X3. On a reachable stack [top] is an out-of-bounds read exactly when the
    stack is empty. *)
Theorem top_none_iff_empty (D : Z) s (i j : Z) :
  (D <= max_i32)%Z ->
  reachable D s ->
  (top s i j = None <-> empty s i j = true).
Proof.
  intros HD Hreach.
  destruct (StackFacts.reachable_in_range A D s HD Hreach) as [Hm Hr].
  specialize (Hr i j). unfold top, empty. cbv zeta.
  destruct (Z.leb_spec 0 (ptr s i j)); destruct (Z.ltb_spec (ptr s i j) (max_depth s));
    destruct (Z.leb_spec (ptr s i j) (-1)); cbn [andb];
    split; intros; try reflexivity; try discriminate; lia.
Qed.

Lemma same_elsewhere_refl s i j : same_elsewhere s s i j.
Proof. split; [reflexivity|]. intros; split; reflexivity. Qed.

Lemma same_elsewhere_trans s1 s2 s3 i j :
  same_elsewhere s1 s2 i j -> same_elsewhere s2 s3 i j -> same_elsewhere s1 s3 i j.
Proof.
  intros [Hm1 H1] [Hm2 H2]. split; [congruence|].
  intros i' j' Hne. destruct (H1 i' j' Hne) as [Hp1 Hs1].
  destruct (H2 i' j' Hne) as [Hp2 Hs2]. split; [congruence|].
  intros k. now rewrite Hs2, Hs1.
Qed.

Lemma upd3_other_pixel {B : Type} (f : Z -> Z -> Z -> B) (i j k i' j' k' : Z) (v : B) :
  (i', j') <> (i, j) -> upd3 f i j k v i' j' k' = f i' j' k'.
Proof.
  unfold upd3. intros Hne.
  destruct (Z.eqb_spec i' i); destruct (Z.eqb_spec j' j); cbn [andb]; try reflexivity.
  subst. now elim Hne.
Qed.

Lemma same_elsewhere_clear s i j : same_elsewhere s (clear s i j) i j.
Proof.
  split; [reflexivity|]. intros i' j' Hne. cbn [clear ptr stack].
  split; [now apply upd2_other | reflexivity].
Qed.

Lemma same_elsewhere_push s i j v : same_elsewhere s (snd (push s i j v)) i j.
Proof.
  unfold push. destruct (add32 (ptr s i j) 1 <? max_depth s)%Z; cbn [snd].
  - split; [reflexivity|]. intros i' j' Hne. cbn [ptr stack].
    split; [now apply upd2_other|]. intros k. now apply upd3_other_pixel.
  - apply same_elsewhere_refl.
Qed.

Lemma same_elsewhere_pop s i j : same_elsewhere s (snd (pop s i j)) i j.
Proof.
  unfold pop. destruct (sub32 (ptr s i j) 1 >=? -1)%Z; cbn [snd].
  - split; [reflexivity|]. intros i' j' Hne. cbn [ptr stack].
    split; [now apply upd2_other | reflexivity].
  - apply same_elsewhere_refl.
Qed.

Lemma same_elsewhere_view s s' i j i' j' :
  same_elsewhere s s' i j -> (i', j') <> (i, j) ->
  top s' i' j' = top s i' j' /\ contents s' i' j' = contents s i' j' /\
  empty s' i' j' = empty s i' j' /\ full s' i' j' = full s i' j'.
Proof.
  intros [Hm H] Hne. destruct (H i' j' Hne) as [Hp Hs].
  unfold top, contents, empty, full. rewrite Hp, Hm.
  repeat split; try reflexivity.
  - cbv zeta. now rewrite Hs.
  - apply map_ext. intros k. apply Hs.
Qed.

(** X4. Whatever sequence of clear, push and pop is applied to pixels other
    than (i', j'), that pixel's stack is untouched: same top-pointer, same
    top, same live entries, same answers of [empty] and [full]. *)
Theorem other_pixels_untouched s (ops : list (op A)) (i' j' : Z) :
  (forall o, In o ops -> op_pixel o <> (i', j')) ->
  let s' := run_ops s ops in
  ptr s' i' j' = ptr s i' j' /\
  top s' i' j' = top s i' j' /\
  contents s' i' j' = contents s i' j' /\
  empty s' i' j' = empty s i' j' /\
  full s' i' j' = full s i' j'.
Proof.
  revert s. induction ops as [| o ops IH]; intros s Hops; cbn zeta.
  - repeat split.
  - cbn [run_ops fold_left].
    assert (Hone : same_elsewhere s (apply_op s o) (fst (op_pixel o)) (snd (op_pixel o))).
    { destruct o; cbn [apply_op op_pixel fst snd].
      - apply same_elsewhere_clear.
      - apply same_elsewhere_push.
      - apply same_elsewhere_pop. }
    assert (Hne : (i', j') <> (fst (op_pixel o), snd (op_pixel o))).
    { intros E. apply (Hops o (or_introl eq_refl)). rewrite E. now destruct (op_pixel o). }
    destruct (same_elsewhere_view _ _ _ _ i' j' Hone Hne) as (Ht & Hc & He & Hf).
    destruct Hone as [_ Hp]. destruct (Hp i' j' Hne) as [Hp' _].
    specialize (IH (apply_op s o) (fun o' Ho' => Hops o' (or_intror Ho'))).
    cbn zeta in IH. unfold run_ops in IH.
    destruct IH as (I1 & I2 & I3 & I4 & I5).
    rewrite I1, I2, I3, I4, I5. now repeat split.
Qed.

End StackMore.

(** ** Reflection, refraction, reflectance *)

Local Open Scope Q_scope.

Lemma reflect_dot_normal (v n : vec3) :
  dot (reflect v n) n == dot v n * (1 - 2 * dot n n).
Proof. unfold reflect, dot, vsub, vscale. simpl. ring. Qed.

Lemma reflect_dot_self (v n : vec3) :
  dot (reflect v n) (reflect v n)
  == dot v v + 4 * (dot v n * dot v n) * (dot n n - 1).
Proof. unfold reflect, dot, vsub, vscale. simpl. ring. Qed.

Lemma reflect_twice (v n : vec3) :
  let k := 4 * dot v n * (dot n n - 1) in
  veq (reflect (reflect v n) n) (vadd v (vscale k n)).
Proof. unfold veq, reflect, dot, vsub, vadd, vscale. simpl. repeat split; ring. Qed.

(** X5. About a unit normal, [reflect] flips the normal component of a
    vector, keeps its squared length, and undoes itself. *)
Theorem reflect_unit_normal (v n : vec3) :
  dot n n == 1 ->
  dot (reflect v n) n == - dot v n /\
  dot (reflect v n) (reflect v n) == dot v v /\
  veq (reflect (reflect v n) n) v.
Proof.
  intros Hn. split; [| split].
  - rewrite reflect_dot_normal, Hn. ring.
  - rewrite reflect_dot_self, Hn. ring.
  - pose proof (reflect_twice v n) as H. cbv zeta in H.
    destruct H as (Hx & Hy & Hz). unfold veq. cbn [vadd vscale vx vy vz] in *.
    rewrite Hx, Hy, Hz, Hn. repeat split; ring.
Qed.

Lemma qmin_le_l (a b : Q) : a <= b -> qmin a b = a.
Proof. intros H. unfold qmin. apply Qle_bool_iff in H. now rewrite H. Qed.

Lemma qmin_bounds (a b : Q) : qmin a b <= a /\ qmin a b <= b.
Proof.
  unfold qmin. destruct (Qle_bool a b) eqn:E.
  - apply Qle_bool_iff in E. split; [apply Qle_refl | exact E].
  - split; [| apply Qle_refl].
    destruct (Qlt_le_dec b a) as [H | H]; [now apply Qlt_le_weak|].
    apply Qle_bool_iff in H. congruence.
Qed.

Lemma qmax_bounds (a b : Q) : a <= qmax a b /\ b <= qmax a b.
Proof.
  unfold qmax. destruct (Qle_bool a b) eqn:E.
  - apply Qle_bool_iff in E. split; [exact E | apply Qle_refl].
  - split; [apply Qle_refl|].
    destruct (Qlt_le_dec b a) as [H | H]; [now apply Qlt_le_weak|].
    apply Qle_bool_iff in H. congruence.
Qed.

Lemma qmax_cases (a b : Q) : qmax a b = a \/ qmax a b = b.
Proof. unfold qmax. destruct (Qle_bool a b); [now right | now left]. Qed.

Lemma qmin_cases (a b : Q) : qmin a b = a \/ qmin a b = b.
Proof. unfold qmin. destruct (Qle_bool a b); [now left | now right]. Qed.

(** X6. For a unit normal and an incoming direction with [n . (-v) <= 1],
    the tangential part of [refract] is orthogonal to the normal and the
    refracted vector's normal component is minus the square root the source
    takes: with a non-negative root the refracted ray leaves on the far side
    of the surface. *)
Theorem refract_normal_component (T : Taichi) (v n : vec3) (etai_over_etat : Q) :
  dot n n == 1 ->
  dot n (vneg v) <= 1 ->
  let r_out_perp := vscale etai_over_etat (vadd v (vscale (dot n (vneg v)) n)) in
  let root := ti_sqrt T (Qabs (1 - dot r_out_perp r_out_perp)) in
  dot r_out_perp n == 0 /\
  dot (refract T v n etai_over_etat) n == - root /\
  (0 <= root -> dot (refract T v n etai_over_etat) n <= 0).
Proof.
  intros Hn Hcos r_out_perp root.
  assert (Hperp : dot r_out_perp n == 0).
  { unfold r_out_perp.
    assert (E : dot (vscale etai_over_etat (vadd v (vscale (dot n (vneg v)) n))) n
                == etai_over_etat * (dot v n * (1 - dot n n))).
    { unfold dot, vscale, vadd, vneg. simpl. ring. }
    rewrite E, Hn. ring. }
  assert (Hdot : dot (refract T v n etai_over_etat) n == - root).
  { unfold refract. rewrite (qmin_le_l _ _ Hcos). fold r_out_perp. fold root.
    assert (E : dot (vadd r_out_perp (vscale (- root) n)) n
                == dot r_out_perp n + (- root) * dot n n).
    { unfold dot, vadd, vscale. simpl. ring. }
    rewrite E, Hperp, Hn. ring. }
  split; [exact Hperp|]. split; [exact Hdot|].
  intros Hroot. rewrite Hdot. lra.
Qed.

Lemma pow5_mono (a b : Q) : 0 <= a -> a <= b -> a ^ 5 <= b ^ 5.
Proof.
  intros Ha Hab. simpl.
  assert (H2 : a * a <= b * b) by nra.
  assert (H2a : 0 <= a * a) by nra.
  assert (H4 : a * a * (a * a) <= b * b * (b * b)) by nra.
  assert (H4a : 0 <= a * a * (a * a)) by nra.
  nra.
Qed.

Lemma reflectance_inv (cosine ref_idx : Q) :
  0 < ref_idx -> reflectance cosine (1 / ref_idx) == reflectance cosine ref_idx.
Proof.
  intros Hi. rewrite !reflectance_unfold.
  assert (E : schlick_r0 (1 / ref_idx) == schlick_r0 ref_idx).
  { unfold schlick_r0. field. split; lra. }
  rewrite E. reflexivity.
Qed.

Lemma reflectance_nonneg (cosine ref_idx : Q) :
  0 < ref_idx -> cosine <= 1 -> 0 <= reflectance cosine ref_idx.
Proof.
  intros Hi Hc. rewrite reflectance_unfold.
  pose proof (r0_range ref_idx Hi) as Hr.
  pose proof (pow5_nonneg (1 - cosine) ltac:(lra)) as Hp.
  set (p := (1 - cosine) ^ 5) in *. nra.
Qed.

Lemma reflectance_le_one (cosine ref_idx : Q) :
  0 < ref_idx -> 0 <= cosine <= 1 -> reflectance cosine ref_idx <= 1.
Proof.
  intros Hi Hc. rewrite reflectance_unfold.
  pose proof (r0_range ref_idx Hi) as Hr.
  pose proof (pow5_nonneg (1 - cosine) ltac:(lra)) as Hp.
  pose proof (pow5_le_1 (1 - cosine) ltac:(lra)) as Hq.
  set (p := (1 - cosine) ^ 5) in *. nra.
Qed.

(** X7. For every ior > 0: at grazing incidence (cosine 0) the reflectance
    is 1; it is the same for ior and for 1/ior (entering or leaving the
    medium); and it does not increase as the cosine grows within [0, 1]. *)
Theorem reflectance_shape (ref_idx : Q) :
  0 < ref_idx ->
  reflectance 0 ref_idx == 1 /\
  (forall cosine, reflectance cosine (1 / ref_idx) == reflectance cosine ref_idx) /\
  (forall c1 c2, 0 <= c1 -> c1 <= c2 -> c2 <= 1 ->
                 reflectance c2 ref_idx <= reflectance c1 ref_idx).
Proof.
  intros Hi. split; [| split].
  - rewrite reflectance_unfold.
    assert (E : (1 - 0) ^ 5 == 1) by reflexivity.
    rewrite E. ring.
  - intros cosine. now apply reflectance_inv.
  - intros c1 c2 H1 H12 H2. rewrite !reflectance_unfold.
    pose proof (r0_range ref_idx Hi) as Hr.
    pose proof (pow5_mono (1 - c2) (1 - c1) ltac:(lra) ltac:(lra)) as Hm.
    set (p1 := (1 - c1) ^ 5) in *. set (p2 := (1 - c2) ^ 5) in *.
    nra.
Qed.

Lemma cos_theta_range (rd_n : vec3) (rec : HitRecord) :
  -1 <= cos_theta_of rd_n rec <= 1 /\
  (dot rd_n (N rec) <= 0 -> 0 <= cos_theta_of rd_n rec).
Proof.
  unfold cos_theta_of.
  set (x := - dot rd_n (N rec)).
  pose proof (qmax_bounds (qmin x 1) (-1)) as [Hb1 Hb2].
  pose proof (qmin_bounds x 1) as [Hm1 Hm2].
  split; [split; [exact Hb2|]|].
  - destruct (qmax_cases (qmin x 1) (-1)) as [-> | ->]; [exact Hm2 | discriminate].
  - intros Hd. assert (Hx : 0 <= x) by (unfold x; lra).
    apply Qle_trans with (qmin x 1); [| exact Hb1].
    destruct (qmin_cases x 1) as [-> | ->]; [exact Hx | discriminate].
Qed.

Lemma effective_ior_pos (rec : HitRecord) : 0 < ior (mat rec) -> 0 < effective_ior rec.
Proof.
  intros Hi. unfold effective_ior. destruct (front_face rec); [| exact Hi].
  unfold Qdiv. rewrite Qmult_1_l. now apply Qinv_lt_0_compat.
Qed.

(** X8. The Fresnel coefficient of a hit on a material with ior > 0 is never
    negative, is at most 1 when the normal faces the incoming ray, and does
    not depend on the front-face flag: inverting the index of refraction
    leaves it unchanged. *)
Theorem kr_of_range (T : Taichi) (frame : StatusFrame) (rec : HitRecord) :
  0 < ior (mat rec) ->
  let rd_n := normalized T (rd (ray frame)) in
  0 <= kr_of T frame rec /\
  (dot rd_n (N rec) <= 0 -> kr_of T frame rec <= 1) /\
  kr_of T frame rec == reflectance (cos_theta_of rd_n rec) (ior (mat rec)).
Proof.
  intros Hi rd_n. unfold kr_of. fold rd_n.
  destruct (cos_theta_range rd_n rec) as [[Hlo Hhi] Hface].
  pose proof (effective_ior_pos rec Hi) as He.
  split; [now apply reflectance_nonneg|]. split.
  - intros Hd. apply reflectance_le_one; [exact He|]. split; [now apply Hface | exact Hhi].
  - unfold effective_ior. destruct (front_face rec); [| reflexivity].
    now apply reflectance_inv.
Qed.

(** ** The rejection sampler *)

Lemma Qle_bool_false_lt (a b : Q) : Qle_bool a b = false -> b < a.
Proof.
  intros H. apply Qnot_le_lt. intros Hle. apply Qle_bool_iff in Hle. congruence.
Qed.

Lemma unit_cube_point_next (T : Taichi) (s : nat) :
  snd (unit_cube_point T s) = (3 + s)%nat.
Proof. reflexivity. Qed.

Lemma rejection_loop_accepts (T : Taichi) (fuel : nat) :
  forall p s p' s',
    rejection_loop T fuel p s = Some (p', s') ->
    norm T p' < 1 /\
    exists k, (k <= fuel)%nat /\ s' = (s + 3 * k)%nat /\
              (k = O -> p' = p) /\
              (forall k', k = S k' -> p' = fst (unit_cube_point T (s + 3 * k')%nat)).
Proof.
  induction fuel as [| fuel IH]; intros p s p' s' Hrun; cbn [rejection_loop] in Hrun;
    destruct (Qle_bool 1 (norm T p)) eqn:E; try discriminate.
  - inversion Hrun; subst. split; [now apply Qle_bool_false_lt|].
    exists O. split; [lia|]. split; [lia|]. split; [reflexivity|].
    intros k' Hk. discriminate.
  - destruct (unit_cube_point T s) as [p1 s1] eqn:Ec.
    pose proof (unit_cube_point_next T s) as Hn. rewrite Ec in Hn. cbn [snd] in Hn. subst s1.
    destruct (IH _ _ _ _ Hrun) as (Hin & k & Hk & Hs & H0 & HS).
    split; [exact Hin|]. exists (S k). split; [lia|]. split; [lia|].
    split; [discriminate|].
    intros k' Hk'. inversion Hk'; subst k'.
    destruct k as [| k0].
    + rewrite (H0 eq_refl). replace (s + 3 * 0)%nat with s by lia. now rewrite Ec.
    + rewrite (HS k0 eq_refl). f_equal. f_equal. lia.
  - inversion Hrun; subst. split; [now apply Qle_bool_false_lt|].
    exists O. split; [lia|]. split; [lia|]. split; [reflexivity|].
    intros k' Hk. discriminate.
Qed.

(** X9. When [random_unit_vector] returns, its value is the normalisation of
    a candidate point that lies strictly inside the unit sphere; that point
    is the k-th candidate read off the stream for some k >= 1, three draws
    were consumed per candidate (3k in all), and k is at most one more than
    the fuel. *)
Theorem random_unit_vector_accepts (T : Taichi) (fuel s : nat) (u : vec3) (s' : nat) :
  random_unit_vector T fuel s = Some (u, s') ->
  exists p k,
    u = normalized T p /\
    norm T p < 1 /\
    (1 <= k <= S fuel)%nat /\
    s' = (s + 3 * k)%nat /\
    p = fst (unit_cube_point T (s + 3 * (k - 1))%nat).
Proof.
  unfold random_unit_vector, random_in_unit_sphere. intros Hrun.
  destruct (unit_cube_point T s) as [p0 s0] eqn:Ec.
  pose proof (unit_cube_point_next T s) as Hn. rewrite Ec in Hn. cbn [snd] in Hn. subst s0.
  destruct (rejection_loop T fuel p0 (3 + s)) as [[p s1] |] eqn:El; [| discriminate].
  inversion Hrun; subst u s1. clear Hrun.
  destruct (rejection_loop_accepts T fuel _ _ _ _ El) as (Hin & k & Hk & Hs & H0 & HS).
  exists p, (S k). split; [reflexivity|]. split; [exact Hin|].
  split; [lia|]. split; [lia|].
  replace (S k - 1)%nat with k by lia.
  destruct k as [| k0].
  - rewrite (H0 eq_refl). replace (s + 3 * 0)%nat with s by lia. now rewrite Ec.
  - rewrite (HS k0 eq_refl). f_equal. f_equal. lia.
Qed.

(** ** The scene: nearest hit *)

Lemma Qltb_trans (a b c : Q) : Qltb a b = true -> Qltb b c = true -> Qltb a c = true.
Proof.
  rewrite !Qltb_lt. apply Qlt_trans.
Qed.

Lemma lt_bound_trans (a b : Q) (c : tbound) :
  Qltb a b = true -> lt_bound b c = true -> lt_bound a c = true.
Proof.
  destruct c as [q |]; cbn [lt_bound]; [apply Qltb_trans | reflexivity].
Qed.

(** What the loop of [HittableList.hit] keeps true of its two variables. *)
Lemma hit_fold_invariant (ray : Ray) (tmin : tbound) (os : list Hittable) :
  forall rec closest,
    (rec = HitRecord0 /\ closest = tmin) \/
    (is_hit rec = true /\ closest = Finite (t rec) /\ lt_bound (t rec) tmin = true) ->
    let out := fold_left (hit_step ray) os (rec, closest) in
    (out = (rec, closest) \/
     exists o c, In o os /\ fst out = obj_hit o ray c /\ is_hit (fst out) = true) /\
    ((fst out = HitRecord0 /\ snd out = tmin) \/
     (is_hit (fst out) = true /\ snd out = Finite (t (fst out))
      /\ lt_bound (t (fst out)) tmin = true)).
Proof.
  induction os as [| o os IH]; intros rec closest Hinv; cbn zeta.
  - cbn [fold_left fst snd]. split; [now left | exact Hinv].
  - cbn [fold_left].
    assert (Est : hit_step ray (rec, closest) o
                  = if is_hit (obj_hit o ray closest)
                       && lt_bound (t (obj_hit o ray closest)) closest
                    then (obj_hit o ray closest, Finite (t (obj_hit o ray closest)))
                    else (rec, closest)) by reflexivity.
    rewrite Est. clear Est.
    destruct (is_hit (obj_hit o ray closest) && lt_bound (t (obj_hit o ray closest)) closest)
             eqn:E.
    + apply andb_true_iff in E. destruct E as [Eh El].
      assert (Hinv' : (obj_hit o ray closest = HitRecord0 /\ Finite (t (obj_hit o ray closest)) = tmin)
                      \/ (is_hit (obj_hit o ray closest) = true
                          /\ Finite (t (obj_hit o ray closest)) = Finite (t (obj_hit o ray closest))
                          /\ lt_bound (t (obj_hit o ray closest)) tmin = true)).
      { right. split; [exact Eh|]. split; [reflexivity|].
        destruct Hinv as [[_ ->] | (_ & -> & Hlt)]; [exact El|].
        cbn [lt_bound] in El. now apply (lt_bound_trans _ (t rec)). }
      destruct (IH _ _ Hinv') as [Hsrc Hstate]. cbn zeta in Hsrc, Hstate.
      split; [| exact Hstate]. right.
      destruct Hsrc as [Heq | (o' & c & Hin & Hout & Hhit)].
      * exists o, closest. rewrite Heq. cbn [fst]. split; [now left | now split].
      * exists o', c. split; [now right | now split].
    + destruct (IH _ _ Hinv) as [Hsrc Hstate]. cbn zeta in Hsrc, Hstate.
      split; [| exact Hstate].
      destruct Hsrc as [Heq | (o' & c & Hin & Hout & Hhit)]; [now left|].
      right. exists o', c. split; [now right | now split].
Qed.

(** X10. Whatever the objects do, a hit reported by [HittableList.hit] is the
    record some object of the list returned, with its hit flag set and its
    distance strictly below [tmin]; and when no object reports a hit, or the
    list is empty (as after [clear]), the result is the zero record, no
    hit. *)
Theorem hit_comes_from_an_object (w : HittableList) (ray : Ray) (tmin : tbound) :
  (is_hit (hit w ray tmin) = true ->
   lt_bound (t (hit w ray tmin)) tmin = true /\
   exists o c, In o (objs w) /\ hit w ray tmin = obj_hit o ray c) /\
  ((forall o c, In o (objs w) -> is_hit (obj_hit o ray c) = false) ->
   hit w ray tmin = HitRecord0) /\
  hit (HittableList_clear w) ray tmin = HitRecord0.
Proof.
  destruct (hit_fold_invariant ray tmin (objs w) HitRecord0 tmin (or_introl (conj eq_refl eq_refl)))
    as [Hsrc Hstate].
  cbn zeta in Hsrc, Hstate. fold (hit w ray tmin) in Hsrc, Hstate.
  split; [| split].
  - intros Hhit. split.
    + destruct Hstate as [[E _] | (_ & _ & Hlt)]; [| exact Hlt].
      rewrite E in Hhit. discriminate.
    + destruct Hsrc as [Heq | (o & c & Hin & Hout & _)].
      * unfold hit in Hhit. rewrite Heq in Hhit. discriminate.
      * now exists o, c.
  - intros Hnone. destruct Hsrc as [Heq | (o & c & Hin & Hout & Hh)].
    + unfold hit. now rewrite Heq.
    + rewrite Hout, (Hnone o c Hin) in Hh. discriminate.
  - reflexivity.
Qed.

Lemma Qltb_false_le (a b : Q) : Qltb a b = false -> b <= a.
Proof.
  unfold Qltb. rewrite negb_false_iff. apply Qle_bool_iff.
Qed.

Lemma nearest_step (ray : Ray) (tmin : tbound) (seen : list Hittable)
      (rec : HitRecord) (closest : tbound) (o : Hittable) :
  respects_tmax o ->
  nearest_so_far ray tmin seen rec closest ->
  nearest_so_far ray tmin (seen ++ [o])
                 (fst (hit_step ray (rec, closest) o))
                 (snd (hit_step ray (rec, closest) o)).
Proof.
  intros Hresp Hinv.
  destruct (Hresp ray closest) as [Hflag Hsame].
  assert (Est : hit_step ray (rec, closest) o
                = if is_hit (obj_hit o ray closest)
                     && lt_bound (t (obj_hit o ray closest)) closest
                  then (obj_hit o ray closest, Finite (t (obj_hit o ray closest)))
                  else (rec, closest)) by reflexivity.
  rewrite Est. clear Est.
  destruct (is_hit (obj_hit o ray closest)) eqn:Eh.
  - specialize (Hsame eq_refl). rewrite Hsame in *.
    symmetry in Hflag. apply andb_true_iff in Hflag. destruct Hflag as [Ehi Elt].
    rewrite Elt. cbn [andb fst snd].
    right. split; [exact Ehi|]. split; [reflexivity|].
    destruct Hinv as [(-> & -> & Hnone) | (Hr & -> & Hlt & Hsrc & Hmin)].
    + split; [exact Elt|]. split; [exists o; split; [apply in_or_app; right; now left | reflexivity]|].
      intros o' Hin Hhit'. apply in_app_or in Hin. destruct Hin as [Hin | [<- | []]].
      * specialize (Hnone o' Hin). rewrite Hhit' in Hnone. cbn [andb] in Hnone.
        destruct tmin as [q |]; cbn [lt_bound] in *; [| discriminate].
        apply Qltb_lt in Elt. apply Qltb_false_le in Hnone. lra.
      * apply Qle_refl.
    + cbn [lt_bound] in Elt.
      split; [now apply (lt_bound_trans _ (t rec))|].
      split; [exists o; split; [apply in_or_app; right; now left | reflexivity]|].
      intros o' Hin Hhit'. apply in_app_or in Hin. destruct Hin as [Hin | [<- | []]].
      * specialize (Hmin o' Hin Hhit'). apply Qltb_lt in Elt. lra.
      * apply Qle_refl.
  - cbn [andb fst snd]. symmetry in Hflag.
    destruct Hinv as [(-> & -> & Hnone) | (Hr & -> & Hlt & (o0 & Hin0 & Hsrc) & Hmin)].
    + left. split; [reflexivity|]. split; [reflexivity|].
      intros o' Hin. apply in_app_or in Hin. destruct Hin as [Hin | [<- | []]];
        [now apply Hnone | exact Hflag].
    + right. split; [exact Hr|]. split; [reflexivity|]. split; [exact Hlt|].
      split; [exists o0; split; [apply in_or_app; now left | exact Hsrc]|].
      intros o' Hin Hhit'. apply in_app_or in Hin. destruct Hin as [Hin | [<- | []]].
      * now apply Hmin.
      * rewrite Hhit' in Hflag. cbn [andb lt_bound] in Hflag.
        now apply Qltb_false_le.
Qed.

Lemma nearest_fold (ray : Ray) (tmin : tbound) (os : list Hittable) :
  (forall o, In o os -> respects_tmax o) ->
  forall seen rec closest,
    nearest_so_far ray tmin seen rec closest ->
    nearest_so_far ray tmin (seen ++ os)
                   (fst (fold_left (hit_step ray) os (rec, closest)))
                   (snd (fold_left (hit_step ray) os (rec, closest))).
Proof.
  induction os as [| o os IH]; intros Hresp seen rec closest Hinv.
  - cbn [fold_left fst snd]. now rewrite app_nil_r.
  - cbn [fold_left].
    pose proof (nearest_step ray tmin seen rec closest o (Hresp o (or_introl eq_refl)) Hinv)
      as Hstep.
    destruct (hit_step ray (rec, closest) o) as [rec1 c1]. cbn [fst snd] in Hstep.
    replace (seen ++ o :: os) with ((seen ++ [o]) ++ os) by now rewrite <- app_assoc.
    apply IH; [| exact Hstep].
    intros o' Hin. apply Hresp. now right.
Qed.

Lemma hit_nearest_facts (w : HittableList) (ray : Ray) (tmin : tbound) :
  (forall o, In o (objs w) -> respects_tmax o) ->
  (is_hit (hit w ray tmin) = true <->
   exists o, In o (objs w) /\ is_hit (obj_hit o ray Inf) = true
             /\ lt_bound (t (obj_hit o ray Inf)) tmin = true) /\
  (is_hit (hit w ray tmin) = true ->
   (exists o, In o (objs w) /\ hit w ray tmin = obj_hit o ray Inf) /\
   forall o, In o (objs w) -> is_hit (obj_hit o ray Inf) = true ->
             t (hit w ray tmin) <= t (obj_hit o ray Inf)).
Proof.
  intros Hresp.
  assert (Hstart : nearest_so_far ray tmin [] HitRecord0 tmin).
  { left. split; [reflexivity|]. split; [reflexivity|]. intros o []. }
  pose proof (nearest_fold ray tmin (objs w) Hresp [] HitRecord0 tmin Hstart) as Hinv.
  cbn [app] in Hinv. fold (hit w ray tmin) in Hinv.
  split.
  - split.
    + intros Hhit. destruct Hinv as [(E & _) | (_ & _ & Hlt & (o & Hin & Hsrc) & _)].
      * rewrite E in Hhit. discriminate.
      * exists o. split; [exact Hin|]. rewrite <- Hsrc. now split.
    + intros (o & Hin & Hh & Hlt).
      destruct Hinv as [(_ & _ & Hnone) | (Hr & _)]; [| exact Hr].
      specialize (Hnone o Hin). rewrite Hh, Hlt in Hnone. discriminate.
  - intros Hhit. destruct Hinv as [(E & _) | (_ & _ & _ & Hsrc & Hmin)].
    + rewrite E in Hhit. discriminate.
    + split; [exact Hsrc | exact Hmin].
Qed.

(** X11. When every object honours the distance bound it is given,
    [HittableList.hit] reports a hit exactly when some object's unbounded
    hit lies below [tmin], and the record it returns is then the unbounded
    hit of an object of the list that no other object beats: its distance is
    at most that of every object the ray hits. *)
Theorem hit_is_nearest (w : HittableList) (ray : Ray) (tmin : tbound) :
  (forall o, In o (objs w) -> respects_tmax o) ->
  (is_hit (hit w ray tmin) = true <->
   exists o, In o (objs w) /\ is_hit (obj_hit o ray Inf) = true
             /\ lt_bound (t (obj_hit o ray Inf)) tmin = true) /\
  (is_hit (hit w ray tmin) = true ->
   (exists o, In o (objs w) /\ hit w ray tmin = obj_hit o ray Inf) /\
   forall o, In o (objs w) -> is_hit (obj_hit o ray Inf) = true ->
             t (hit w ray tmin) <= t (obj_hit o ray Inf)).
Proof. apply hit_nearest_facts. Qed.

(** X22. When every object honours its distance bound, the order in which
    the objects were added does not matter to the ray: two worlds holding
    the same objects in different orders agree on whether the ray hits and on
    the distance of the hit. *)
Theorem hit_order_irrelevant (w w' : HittableList) (ray : Ray) (tmin : tbound) :
  (forall o, In o (objs w) -> respects_tmax o) ->
  Permutation (objs w) (objs w') ->
  is_hit (hit w' ray tmin) = is_hit (hit w ray tmin) /\
  (is_hit (hit w ray tmin) = true -> t (hit w' ray tmin) == t (hit w ray tmin)).
Proof.
  intros Hresp Hperm.
  assert (Hresp' : forall o, In o (objs w') -> respects_tmax o).
  { intros o Hin. apply Hresp. eapply Permutation_in; [apply Permutation_sym; exact Hperm | exact Hin]. }
  destruct (hit_nearest_facts w ray tmin Hresp) as [Hiff Hmin].
  destruct (hit_nearest_facts w' ray tmin Hresp') as [Hiff' Hmin'].
  assert (Hsame : is_hit (hit w ray tmin) = true <-> is_hit (hit w' ray tmin) = true).
  { rewrite Hiff, Hiff'. split; intros (o & Hin & Hh & Hlt); exists o; repeat split; try assumption.
    - eapply Permutation_in; eassumption.
    - eapply Permutation_in; [apply Permutation_sym; exact Hperm | exact Hin]. }
  split.
  - destruct (is_hit (hit w ray tmin)) eqn:E1; destruct (is_hit (hit w' ray tmin)) eqn:E2;
      try reflexivity.
    + destruct Hsame as [H _]. specialize (H eq_refl). discriminate.
    + destruct Hsame as [_ H]. specialize (H eq_refl). discriminate.
  - intros Hhit. pose proof (proj1 Hsame Hhit) as Hhit'.
    destruct (Hmin Hhit) as [(o & Hin & Ho) Hle].
    destruct (Hmin' Hhit') as [(o' & Hin' & Ho') Hle'].
    apply Qle_antisym.
    + rewrite Ho. apply Hle'; [eapply Permutation_in; eassumption|].
      rewrite <- Ho. exact Hhit.
    + rewrite Ho'. apply Hle; [eapply Permutation_in; [apply Permutation_sym; exact Hperm | exact Hin']|].
      rewrite <- Ho'. exact Hhit'.
Qed.

Lemma strip_respects_tmax (h xlo xhi : Q) (m : Material) : respects_tmax (strip h xlo xhi m).
Proof.
  intros ray b. unfold strip. cbn [obj_hit].
  destruct (Qeq_bool (vz (rd ray)) 0); [split; [reflexivity | discriminate]|].
  cbn [lt_bound].
  destruct (Qltb 0 ((h - vz (ro ray)) / vz (rd ray)));
    destruct (lt_bound ((h - vz (ro ray)) / vz (rd ray)) b) eqn:Eb;
    destruct (Qle_bool xlo (vx (vadd (ro ray) (vscale ((h - vz (ro ray)) / vz (rd ray)) (rd ray)))));
    destruct (Qle_bool (vx (vadd (ro ray) (vscale ((h - vz (ro ray)) / vz (rd ray)) (rd ray)))) xhi);
    cbn [andb is_hit t HitRecord0];
    try rewrite Eb; split; try reflexivity; try discriminate.
Qed.

(** X12. Adding an object that the ray cannot hit leaves the answer of
    [HittableList.hit] for that ray as it was. *)
Theorem add_missed_object (w : HittableList) (obj : Hittable) (ray : Ray) (tmin : tbound) :
  (forall c, is_hit (obj_hit obj ray c) = false) ->
  hit (HittableList_add w obj) ray tmin = hit w ray tmin.
Proof.
  intros Hmiss. unfold hit, HittableList_add. cbn [objs].
  rewrite fold_left_app. cbn [fold_left].
  destruct (fold_left (hit_step ray) (objs w) (HitRecord0, tmin)) as [rec closest].
  unfold hit_step. now rewrite (Hmiss closest).
Qed.

(** ** Shading: no lights, order of the lights *)

(** X13. With no point light in the list (none was ever added, whatever
    ambient intensity was set) the loop of [bling_phong] never runs and the
    returned color is zero: the ambient term is lost with the lights. *)
Theorem no_lights_is_black (T : Taichi) (r : Renderer) (ray : Ray) (rec : HitRecord) :
  point_lights (lights r) = [] ->
  veq (bling_phong T r ray rec) vzero /\
  forall intensity,
    lights r = add_ambient_light LightList_init intensity ->
    veq (bling_phong T r ray rec) vzero.
Proof.
  intros Hnone.
  assert (H : veq (bling_phong T r ray rec) vzero).
  { unfold bling_phong. rewrite Hnone. unfold shade_lights. cbn [fold_left].
    unfold combine_shade, veq, vadd, vmul, vscale, Shade0, vzero, vsplat. simpl.
    repeat split; ring. }
  split; [exact H | intros; exact H].
Qed.

Lemma veq_refl (a : vec3) : veq a a.
Proof. unfold veq. repeat split; reflexivity. Qed.

Lemma veq_sym (a b : vec3) : veq a b -> veq b a.
Proof. unfold veq. intros (H1 & H2 & H3). repeat split; now symmetry. Qed.

Lemma veq_trans (a b c : vec3) : veq a b -> veq b c -> veq a c.
Proof.
  unfold veq. intros (H1 & H2 & H3) (G1 & G2 & G3).
  repeat split; etransitivity; eassumption.
Qed.

Lemma vadd_veq (a a' b b' : vec3) : veq a a' -> veq b b' -> veq (vadd a b) (vadd a' b').
Proof.
  unfold veq, vadd. cbn [vx vy vz]. intros (H1 & H2 & H3) (G1 & G2 & G3).
  repeat split; [rewrite H1, G1 | rewrite H2, G2 | rewrite H3, G3]; reflexivity.
Qed.

Lemma vadd_swap (a b c : vec3) : veq (vadd (vadd a b) c) (vadd (vadd a c) b).
Proof. unfold veq, vadd. cbn [vx vy vz]. repeat split; ring. Qed.

Lemma shade_eq_refl (a : Shade) : shade_eq a a.
Proof. unfold shade_eq. repeat split; apply veq_refl. Qed.

Lemma shade_eq_trans (a b c : Shade) : shade_eq a b -> shade_eq b c -> shade_eq a c.
Proof.
  intros (H1 & H2 & H3) (G1 & G2 & G3).
  repeat split; eapply veq_trans; eassumption.
Qed.

Section LightOrder.
Variables (T : Taichi) (r : Renderer) (shadow_orig : vec3) (rec : HitRecord).

Lemma light_step_shade_eq (a a' : Shade) (l : PointLight.t) :
  shade_eq a a' ->
  shade_eq (light_step T r shadow_orig rec a l) (light_step T r shadow_orig rec a' l).
Proof.
  intros (_ & H2 & H3). unfold light_step, shade_eq.
  cbn [ambient_color diffuse_acc specular_color].
  split; [apply veq_refl|].
  split; apply vadd_veq; try assumption; apply veq_refl.
Qed.

Lemma light_step_swap (a : Shade) (l1 l2 : PointLight.t) :
  shade_eq (light_step T r shadow_orig rec (light_step T r shadow_orig rec a l1) l2)
           (light_step T r shadow_orig rec (light_step T r shadow_orig rec a l2) l1).
Proof.
  unfold light_step, shade_eq. cbn [ambient_color diffuse_acc specular_color].
  split; [apply veq_refl|]. split; apply vadd_swap.
Qed.

Lemma fold_shade_eq (ls : list PointLight.t) :
  forall a a', shade_eq a a' ->
    shade_eq (fold_left (light_step T r shadow_orig rec) ls a)
             (fold_left (light_step T r shadow_orig rec) ls a').
Proof.
  induction ls as [| l ls IH]; intros a a' H; [exact H|].
  cbn [fold_left]. apply IH. now apply light_step_shade_eq.
Qed.

Lemma fold_shade_perm (ls ls' : list PointLight.t) :
  Permutation ls ls' ->
  forall a a', shade_eq a a' ->
    shade_eq (fold_left (light_step T r shadow_orig rec) ls a)
             (fold_left (light_step T r shadow_orig rec) ls' a').
Proof.
  induction 1 as [| x l l' _ IH | x y l | l l' l'' _ IH1 _ IH2]; intros a a' H.
  - exact H.
  - cbn [fold_left]. apply IH. now apply light_step_shade_eq.
  - cbn [fold_left]. apply fold_shade_eq.
    eapply shade_eq_trans; [apply light_step_swap|].
    apply light_step_shade_eq. now apply light_step_shade_eq.
  - eapply shade_eq_trans; [apply IH1; exact H | apply IH2; apply shade_eq_refl].
Qed.

End LightOrder.

Lemma combine_shade_eq (rec : HitRecord) (a b : Shade) :
  shade_eq a b -> veq (combine_shade rec a) (combine_shade rec b).
Proof.
  intros ((A1 & A2 & A3) & (D1 & D2 & D3) & (S1 & S2 & S3)).
  unfold combine_shade, veq, vadd, vmul, vscale. cbn [vx vy vz].
  repeat split;
    [rewrite A1, D1, S1 | rewrite A2, D2, S2 | rewrite A3, D3, S3]; reflexivity.
Qed.

(** X14. The color [bling_phong] returns does not depend on the order of the
    point lights: two renderers that differ only in the order of their light
    lists shade every hit alike. *)
Theorem light_order_irrelevant (T : Taichi) (r r' : Renderer) (ray : Ray) (rec : HitRecord) :
  world r' = world r ->
  ambient_light (lights r') = ambient_light (lights r) ->
  Permutation (point_lights (lights r)) (point_lights (lights r')) ->
  veq (bling_phong T r ray rec) (bling_phong T r' ray rec).
Proof.
  intros Hw Ha Hperm. unfold bling_phong. apply combine_shade_eq.
  unfold shade_lights.
  assert (Hstep : forall a l,
             light_step T r (shadow_origin ray rec) rec a l
             = light_step T r' (shadow_origin ray rec) rec a l).
  { intros a l. unfold light_step, diffuse_term, in_shadow. now rewrite Hw, Ha. }
  assert (Hsame : forall ls a,
             fold_left (light_step T r (shadow_origin ray rec) rec) ls a
             = fold_left (light_step T r' (shadow_origin ray rec) rec) ls a).
  { induction ls as [| l ls IH]; intros a; [reflexivity|].
    cbn [fold_left]. rewrite Hstep. apply IH. }
  rewrite <- Hsame.
  apply fold_shade_perm; [exact Hperm | apply shade_eq_refl].
Qed.

(** ** The dispatch loop: one lane, one pixel *)

Lemma merge_results_lane (rs rs' : ResultStack.t) (i j : Z) (k : Q) :
  merge_results rs i j k = Ok rs' -> same_elsewhere rs rs' i j.
Proof.
  unfold merge_results.
  destruct (ResultStack.top rs i j) as [c1 |]; [| discriminate].
  destruct (ResultStack.top (snd (ResultStack.pop rs i j)) i j) as [c2 |]; [| discriminate].
  intros H. inversion H; subst rs'. clear H.
  eapply same_elsewhere_trans; [apply same_elsewhere_pop|].
  eapply same_elsewhere_trans; [apply same_elsewhere_pop|].
  apply same_elsewhere_push.
Qed.

Lemma merge_results_not_out_of_fuel (rs : ResultStack.t) (i j : Z) (k : Q) :
  merge_results rs i j k <> OutOfFuel.
Proof.
  unfold merge_results.
  destruct (ResultStack.top rs i j); [| discriminate].
  destruct (ResultStack.top (snd (ResultStack.pop rs i j)) i j); discriminate.
Qed.

Lemma process_frame_lane (T : Taichi) (r : Renderer) (fuel : nat) (i j : Z)
      (frame : StatusFrame) (ss : StatusStack.t) (rs : ResultStack.t) (g : nat)
      (c : control) (st' : State) :
  process_frame T r fuel i j frame ss rs g = Ok (c, st') ->
  same_elsewhere ss (status_stack st') i j /\ same_elsewhere rs (result_stack st') i j.
Proof.
  unfold process_frame.
  destruct (depth frame >=? max_depth r)%Z.
  { intros H. inversion H; subst. cbn [status_stack result_stack].
    split; [apply same_elsewhere_refl | apply same_elsewhere_push]. }
  destruct (is_hit (hit (world r) (ray frame) Inf)).
  2:{ intros H. inversion H; subst. cbn [status_stack result_stack].
      split; apply same_elsewhere_refl. }
  destruct (m_type_eqb (m_type (mat (hit (world r) (ray frame) Inf))) REFLECTION_AND_REFRACTION
            || m_type_eqb (m_type (mat (hit (world r) (ray frame) Inf))) REFLECTION).
  2:{ intros H. inversion H; subst. cbn [status_stack result_stack].
      split; [apply same_elsewhere_refl | apply same_elsewhere_push]. }
  unfold process_specular.
  destruct (random_unit_vector T fuel g) as [[u g'] |]; [| discriminate].
  destruct (m_type_eqb (m_type (mat (hit (world r) (ray frame) Inf))) REFLECTION_AND_REFRACTION);
    intros H; inversion H; subst; cbn [status_stack result_stack].
  - split; [| apply same_elsewhere_refl].
    eapply same_elsewhere_trans; [apply same_elsewhere_push|].
    eapply same_elsewhere_trans; [apply same_elsewhere_push|].
    apply same_elsewhere_push.
  - split; [| apply same_elsewhere_push].
    eapply same_elsewhere_trans; [apply same_elsewhere_push|].
    apply same_elsewhere_push.
Qed.

Lemma step_lane (T : Taichi) (r : Renderer) (fuel : nat) (i j : Z)
      (st : State) (c : control) (st' : State) :
  ray_color_step T r fuel i j st = Ok (c, st') ->
  same_elsewhere (status_stack st) (status_stack st') i j /\
  same_elsewhere (result_stack st) (result_stack st') i j.
Proof.
  unfold ray_color_step.
  destruct (StatusStack.top (status_stack st) i j) as [frame |]; [| discriminate].
  pose proof (same_elsewhere_pop _ (status_stack st) i j) as Hpop.
  destruct (task_type frame =? TASK_PROCESS)%Z.
  - intros H. destruct (process_frame_lane _ _ _ _ _ _ _ _ _ _ _ H) as [H1 H2].
    split; [| exact H2]. eapply same_elsewhere_trans; [exact Hpop | exact H1].
  - destruct (task_type frame =? TASK_MERGE)%Z.
    + destruct (merge_results (result_stack st) i j (kr frame)) as [rs' | |] eqn:E;
        try discriminate.
      intros H. inversion H; subst. cbn [status_stack result_stack].
      split; [exact Hpop | now apply (merge_results_lane _ _ _ _ _ E)].
    + intros H. inversion H; subst. cbn [status_stack result_stack].
      split; [exact Hpop | apply same_elsewhere_refl].
Qed.

Lemma loop_lane (T : Taichi) (r : Renderer) (fuel : nat) (i j : Z) (n : nat) :
  forall st st',
    ray_color_loop T r fuel i j n st = Ok st' ->
    same_elsewhere (status_stack st) (status_stack st') i j /\
    same_elsewhere (result_stack st) (result_stack st') i j.
Proof.
  induction n as [| n IH]; intros st st'; cbn [ray_color_loop];
    destruct (StatusStack.empty (status_stack st) i j);
    try (intros H; inversion H; subst; split; apply same_elsewhere_refl);
    try discriminate.
  destruct (ray_color_step T r fuel i j st) as [[[|] st1] | |] eqn:E; try discriminate.
  - intros H. destruct (step_lane _ _ _ _ _ _ _ _ E) as [H1 H2].
    destruct (IH _ _ H) as [G1 G2].
    split; eapply same_elsewhere_trans; eassumption.
  - intros H. inversion H; subst. exact (step_lane _ _ _ _ _ _ _ _ E).
Qed.

(** X15. A trace of pixel (i, j) that returns has touched the two stacks at
    pixel (i, j) only: every other pixel keeps its top-pointers and its
    storage in both stacks. *)
Theorem ray_color_stays_in_its_lane (T : Taichi) (r : Renderer) (fuel : nat)
        (i j : Z) (primary : Ray) (st : State) (c : Color) (st' : State) :
  ray_color T r fuel i j primary st = Ok (c, st') ->
  same_elsewhere (status_stack st) (status_stack st') i j /\
  same_elsewhere (result_stack st) (result_stack st') i j.
Proof.
  unfold ray_color.
  destruct (ray_color_loop T r fuel i j fuel (start_state i j primary st)) as [st1 | |] eqn:E;
    try discriminate.
  destruct (loop_lane _ _ _ _ _ _ _ _ E) as [H1 H2]. cbn [start_state status_stack result_stack] in H1, H2.
  assert (S0 : same_elsewhere (status_stack st) (status_stack st1) i j).
  { eapply same_elsewhere_trans; [apply same_elsewhere_clear|].
    eapply same_elsewhere_trans; [apply same_elsewhere_push | exact H1]. }
  assert (R0 : same_elsewhere (result_stack st) (result_stack st1) i j).
  { eapply same_elsewhere_trans; [apply same_elsewhere_clear | exact H2]. }
  unfold final_color.
  destruct (negb (ResultStack.empty (result_stack st1) i j)).
  - destruct (ResultStack.top (result_stack st1) i j); [| discriminate].
    intros H. inversion H; subst. cbn [status_stack result_stack].
    split; [exact S0|]. eapply same_elsewhere_trans; [exact R0 | apply same_elsewhere_pop].
  - intros H. inversion H; subst. now split.
Qed.

(** ** The dispatch loop terminates *)

Local Open Scope Z_scope.

Lemma wrap32_ge (z : Z) : z <= max_i32 -> z <= wrap32 z.
Proof.
  unfold wrap32, max_i32. intros Hz.
  destruct (Z_le_gt_dec (-2147483648) z) as [Hlo | Hlo].
  - rewrite Z.mod_small by lia. lia.
  - pose proof (Z.mod_pos_bound (z + 2147483648) 4294967296 ltac:(lia)). lia.
Qed.

Lemma process_weight_pos (k : nat) : (1 <= process_weight k)%nat.
Proof. destruct k; cbn [process_weight]; lia. Qed.

Lemma process_weight_mono (a b : nat) : (a <= b)%nat -> (process_weight a <= process_weight b)%nat.
Proof.
  revert a. induction b as [| b IH]; intros a Hab.
  - replace a with O by lia. lia.
  - destruct a as [| a]; cbn [process_weight].
    + pose proof (process_weight_pos b). lia.
    + specialize (IH a ltac:(lia)). lia.
Qed.

Lemma process_weight_closed (k : nat) : (process_weight k + 2 = 3 * 2 ^ k)%nat.
Proof.
  induction k as [| k IH]; [reflexivity|].
  cbn [process_weight]. rewrite Nat.pow_succ_r'. lia.
Qed.

Lemma frame_weight_pos (r : Renderer) (f : StatusFrame) : (1 <= frame_weight r f)%nat.
Proof.
  unfold frame_weight. destruct (task_type f =? TASK_PROCESS); [apply process_weight_pos | lia].
Qed.

Lemma stack_weight_app (r : Renderer) (l l' : list StatusFrame) :
  stack_weight r (l ++ l') = (stack_weight r l + stack_weight r l')%nat.
Proof. unfold stack_weight. now rewrite map_app, list_sum_app. Qed.

Lemma stack_weight_one (r : Renderer) (f : StatusFrame) :
  stack_weight r [f] = frame_weight r f.
Proof. unfold stack_weight. cbn. lia. Qed.

Lemma push_maybe {A : Type} (D : Z) (s : FieldStack.t A) (i j : Z) (l : list A) (v : A) :
  D <= max_i32 -> holds D s i j l ->
  exists l', holds D (snd (FieldStack.push s i j v)) i j l' /\ (l' = l \/ l' = l ++ [v]).
Proof.
  intros HD Hh. pose proof (holds_ptr A D s i j l Hh) as Hptr.
  destruct (Z_lt_le_dec (Z.of_nat (length l)) D) as [Hroom | Hfull].
  - destruct (holds_push A D s i j l v HD Hh Hroom) as (s1 & Hpush & Hh1).
    rewrite Hpush. exists (l ++ [v]). split; [exact Hh1 | now right].
  - destruct Hh as (Hm & Hp & Hc).
    destruct (StackFacts.push_spec A s i j v) as [_ Hf]; [unfold max_i32 in *; lia|].
    rewrite Hf by lia. exists l. split; [now repeat split | now left].
Qed.

Lemma weight_after_push (r : Renderer) (l l' : list StatusFrame) (f : StatusFrame) :
  l' = l \/ l' = l ++ [f] ->
  (stack_weight r l' <= stack_weight r l + frame_weight r f)%nat.
Proof.
  intros [-> | ->]; [lia|]. rewrite stack_weight_app, stack_weight_one. lia.
Qed.

Lemma child_weight (r : Renderer) (frame child : StatusFrame) :
  max_depth r <= max_i32 ->
  task_type frame = TASK_PROCESS ->
  depth frame < max_depth r ->
  depth child = add32 (depth frame) 1 ->
  (2 + 2 * frame_weight r child <= frame_weight r frame)%nat.
Proof.
  intros Hmax Htask Hd Hchild.
  pose proof (wrap32_ge (depth frame + 1) ltac:(lia)) as Hge.
  unfold add32 in Hchild.
  unfold frame_weight at 2. rewrite Htask. cbn [Z.eqb TASK_PROCESS].
  replace (Z.to_nat (max_depth r - depth frame))
    with (S (Z.to_nat (max_depth r - depth frame - 1))) by lia.
  cbn [process_weight].
  assert (Hc : (frame_weight r child <= process_weight (Z.to_nat (max_depth r - depth frame - 1)))%nat).
  { unfold frame_weight. destruct (task_type child =? TASK_PROCESS).
    - apply process_weight_mono. lia.
    - apply process_weight_pos. }
  lia.
Qed.

(** An iteration that continues leaves a lighter status stack; it runs out of
    fuel only inside the sampler. *)
Lemma step_weight (T : Taichi) (r : Renderer) (fuel : nat) (i j : Z) (Ds : Z)
      (st : State) (S : list StatusFrame) (frame : StatusFrame) :
  Ds <= max_i32 -> max_depth r <= max_i32 ->
  holds Ds (status_stack st) i j (S ++ [frame]) ->
  match ray_color_step T r fuel i j st with
  | Ok (Continue, st1) =>
      exists l1, holds Ds (status_stack st1) i j l1 /\
                 (stack_weight r l1 < stack_weight r (S ++ [frame]))%nat
  | Ok (Break, _) => True
  | OutOfBounds => True
  | OutOfFuel => random_unit_vector T fuel (rng st) = None
  end.
Proof.
  intros HDs Hmax Hh.
  destruct (step_pops T r fuel i j st Ds S frame HDs Hh) as [Hss ->]. cbv zeta.
  set (ss := snd (StatusStack.pop (status_stack st) i j)) in *.
  rewrite stack_weight_app, stack_weight_one.
  pose proof (frame_weight_pos r frame) as Hpos.
  destruct (task_type frame =? TASK_PROCESS) eqn:Etask.
  - apply Z.eqb_eq in Etask. unfold process_frame.
    destruct (depth frame >=? max_depth r) eqn:Ed.
    { exists S. cbn [status_stack]. split; [exact Hss | lia]. }
    rewrite Z.geb_leb in Ed. apply Z.leb_gt in Ed.
    destruct (is_hit (hit (world r) (ray frame) Inf)); [| exact I].
    destruct (m_type_eqb (m_type (mat (hit (world r) (ray frame) Inf))) REFLECTION_AND_REFRACTION
              || m_type_eqb (m_type (mat (hit (world r) (ray frame) Inf))) REFLECTION).
    2:{ exists S. cbn [status_stack]. split; [exact Hss | lia]. }
    unfold process_specular.
    destruct (random_unit_vector T fuel (rng st)) as [[u g'] |]; [| reflexivity].
    set (rec := hit (world r) (ray frame) Inf).
    destruct (push_maybe Ds ss i j S (merge_frame T frame rec) HDs Hss) as (l1 & Hh1 & Hl1).
    destruct (push_maybe Ds _ i j l1 (reflect_frame T r frame rec u) HDs Hh1)
      as (l2 & Hh2 & Hl2).
    destruct (push_maybe Ds _ i j l2 (refract_frame T frame rec) HDs Hh2)
      as (l3 & Hh3 & Hl3).
    pose proof (weight_after_push r _ _ _ Hl1) as W1.
    pose proof (weight_after_push r _ _ _ Hl2) as W2.
    pose proof (weight_after_push r _ _ _ Hl3) as W3.
    assert (Wm : frame_weight r (merge_frame T frame rec) = 1%nat) by reflexivity.
    pose proof (child_weight r frame (reflect_frame T r frame rec u) Hmax Etask Ed eq_refl) as Wr.
    pose proof (child_weight r frame (refract_frame T frame rec) Hmax Etask Ed eq_refl) as Wf.
    destruct (m_type_eqb (m_type (mat rec)) REFLECTION_AND_REFRACTION).
    + exists l3. cbn [status_stack]. split; [exact Hh3 | lia].
    + exists l2. cbn [status_stack]. split; [exact Hh2 | lia].
  - destruct (task_type frame =? TASK_MERGE).
    + destruct (merge_results (result_stack st) i j (kr frame)) as [rs' | |] eqn:E.
      * exists S. cbn [status_stack]. split; [exact Hss | lia].
      * exact I.
      * now elim (merge_results_not_out_of_fuel _ _ _ _ E).
    + exists S. cbn [status_stack]. split; [exact Hss | lia].
Qed.

Lemma loop_terminates (T : Taichi) (r : Renderer) (fuel : nat) (i j : Z) (Ds : Z) :
  Ds <= max_i32 -> max_depth r <= max_i32 ->
  (forall g, random_unit_vector T fuel g <> None) ->
  forall n st l,
    holds Ds (status_stack st) i j l ->
    (stack_weight r l <= n)%nat ->
    ray_color_loop T r fuel i j n st <> OutOfFuel.
Proof.
  intros HDs Hmax Hsampler. induction n as [| n IH]; intros st l Hh Hw; cbn [ray_color_loop];
    destruct (StatusStack.empty (status_stack st) i j) eqn:He; try discriminate;
    destruct (rev_ind_cases l) as [-> | (S & f & ->)];
    try (unfold StatusStack.empty in He; rewrite (holds_nil_empty _ Ds _ i j Hh) in He;
         discriminate).
  - rewrite stack_weight_app, stack_weight_one in Hw.
    pose proof (frame_weight_pos r f). lia.
  - pose proof (step_weight T r fuel i j Ds st S f HDs Hmax Hh) as Hstep.
    destruct (ray_color_step T r fuel i j st) as [[[|] st1] | |]; try discriminate.
    + destruct Hstep as (l1 & Hh1 & Hlt). apply (IH st1 l1 Hh1). lia.
    + now elim (Hsampler (rng st)).
Qed.

(** X16. The loop of [ray_color] terminates.  If the rejection sampler always
    accepts within the fuel, then a fuel of 3 * 2^max_depth - 2 iterations is
    enough for every scene, every ray and every state of the stacks: the
    trace returns a color or stops at an out-of-bounds read, it never runs
    out of iterations. *)
Theorem ray_color_terminates (T : Taichi) (r : Renderer) (fuel : nat) (i j : Z)
        (primary : Ray) (st : State) :
  FieldStack.max_depth (status_stack st) <= max_i32 ->
  max_depth r <= max_i32 ->
  (forall g, random_unit_vector T fuel g <> None) ->
  (3 * 2 ^ Z.to_nat (max_depth r) - 2 <= fuel)%nat ->
  ray_color T r fuel i j primary st <> OutOfFuel.
Proof.
  intros HDs Hmax Hsampler Hfuel.
  pose proof (process_weight_closed (Z.to_nat (max_depth r))) as Hclosed.
  assert (Hloop : ray_color_loop T r fuel i j fuel (start_state i j primary st) <> OutOfFuel).
  { set (Ds := FieldStack.max_depth (status_stack st)) in *.
    set (frame := mkStatusFrame TASK_PROCESS 0 primary 1).
    destruct (Z_lt_le_dec 0 Ds) as [Hcap | Hcap].
    - pose proof (holds_clear Ds (status_stack st) i j eq_refl ltac:(lia)) as Hc.
      destruct (holds_push _ Ds _ i j [] frame HDs Hc ltac:(simpl; lia)) as (ss & Hpush & Hss).
      apply (loop_terminates T r fuel i j Ds HDs Hmax Hsampler fuel _ ([] ++ [frame])).
      + unfold start_state, StatusStack.push, StatusStack.clear. fold frame.
        rewrite Hpush. exact Hss.
      + cbn [app]. rewrite stack_weight_one. unfold frame_weight, frame.
        cbn [task_type depth Z.eqb TASK_PROCESS].
        replace (max_depth r - 0) with (max_depth r) by lia. lia.
    - assert (He : StatusStack.empty (status_stack (start_state i j primary st)) i j = true).
      { unfold start_state, StatusStack.push, StatusStack.clear, FieldStack.push.
        cbn [FieldStack.clear FieldStack.ptr FieldStack.max_depth]. rewrite upd2_same.
        change (add32 (-1) 1) with 0.
        assert (E : (0 <? FieldStack.max_depth (status_stack st)) = false)
          by (apply Z.ltb_ge; exact Hcap).
        rewrite E. cbn [snd status_stack]. apply StackFacts.clear_empty. }
      destruct fuel; cbn [ray_color_loop]; rewrite He; discriminate. }
  unfold ray_color.
  destruct (ray_color_loop T r fuel i j fuel (start_state i j primary st)) as [st1 | |];
    try discriminate; [| now elim Hloop].
  unfold final_color.
  destruct (negb (ResultStack.empty (result_stack st1) i j)); [| discriminate].
  destruct (ResultStack.top (result_stack st1) i j); discriminate.
Qed.

(** ** Edge cases of a trace *)

Lemma holds_nil_top {A : Type} (D : Z) (s : FieldStack.t A) (i j : Z) :
  holds D s i j [] -> FieldStack.top s i j = None.
Proof.
  intros Hh. pose proof (holds_ptr A D s i j [] Hh) as Hptr. cbn [length] in Hptr.
  unfold FieldStack.top. cbv zeta. rewrite Hptr. reflexivity.
Qed.

(** X17. The merge needs two results.  On a result stack that holds fewer
    than two entries [merge_results] reads outside the storage, and so does
    the iteration that pops a [TASK_MERGE] frame in that state. *)
Theorem merge_underflow (T : Taichi) (r : Renderer) (fuel : nat) (i j : Z)
        (st : State) (Ds Dr : Z) (S : list StatusFrame) (frame : StatusFrame)
        (R : list Color) :
  Ds <= max_i32 -> Dr <= max_i32 ->
  holds Ds (status_stack st) i j (S ++ [frame]) ->
  holds Dr (result_stack st) i j R ->
  task_type frame = TASK_MERGE ->
  (length R < 2)%nat ->
  merge_results (result_stack st) i j (kr frame) = OutOfBounds /\
  ray_color_step T r fuel i j st = OutOfBounds.
Proof.
  intros HDs HDr Hh HR Htask Hlen.
  assert (Hm : merge_results (result_stack st) i j (kr frame) = OutOfBounds).
  { unfold merge_results, ResultStack.top, ResultStack.pop.
    destruct R as [| c [| c' R']]; [| | cbn [length] in Hlen; lia].
    - now rewrite (holds_nil_top Dr _ i j HR).
    - destruct (holds_pop _ Dr _ i j [] c HDr HR) as (Htop & rs1 & Hpop & Hh1).
      rewrite Htop, Hpop. cbn [snd]. now rewrite (holds_nil_top Dr _ i j Hh1). }
  split; [exact Hm|].
  destruct (step_pops T r fuel i j st Ds S frame HDs Hh) as [_ ->].
  cbv zeta. rewrite Htask. cbn [Z.eqb TASK_PROCESS TASK_MERGE]. now rewrite Hm.
Qed.

Lemma start_state_holds (i j : Z) (primary : Ray) (st : State) :
  let Ds := FieldStack.max_depth (status_stack st) in
  let Dr := FieldStack.max_depth (result_stack st) in
  1 <= Ds <= max_i32 -> 0 <= Dr ->
  holds Ds (status_stack (start_state i j primary st)) i j
        ([] ++ [mkStatusFrame TASK_PROCESS 0 primary 1]) /\
  holds Dr (result_stack (start_state i j primary st)) i j [] /\
  rng (start_state i j primary st) = rng st.
Proof.
  intros Ds Dr HDs HDr.
  pose proof (holds_clear Ds (status_stack st) i j eq_refl ltac:(lia)) as Hc.
  destruct (holds_push _ Ds _ i j [] (mkStatusFrame TASK_PROCESS 0 primary 1)
                       ltac:(lia) Hc ltac:(simpl; lia)) as (ss & Hpush & Hss).
  unfold start_state, StatusStack.push, StatusStack.clear, ResultStack.clear.
  rewrite Hpush. cbn [snd status_stack result_stack rng].
  split; [exact Hss|]. split; [| reflexivity].
  now apply holds_clear.
Qed.

(** A trace whose first iteration settles the pixel: the frame is popped, one
    color is pushed, nothing is left to do. *)
Lemma one_step_trace (T : Taichi) (r : Renderer) (i j : Z) (primary : Ray)
      (st st1 : State) (Ds Dr : Z) (c : Color) (n : nat) :
  Dr <= max_i32 ->
  ray_color_step T r (S n) i j (start_state i j primary st) = Ok (Continue, st1) ->
  holds Ds (status_stack (start_state i j primary st)) i j
        ([] ++ [mkStatusFrame TASK_PROCESS 0 primary 1]) ->
  holds Ds (status_stack st1) i j [] ->
  holds Dr (result_stack st1) i j ([] ++ [c]) ->
  exists st', ray_color T r (S n) i j primary st = Ok (c, st') /\ rng st' = rng st1.
Proof.
  intros HDr Hstep Hh0 HS1 HR1.
  unfold ray_color. cbn [ray_color_loop].
  unfold StatusStack.empty. rewrite (holds_nonempty _ Ds _ i j [] _ Hh0), Hstep.
  assert (Hdone : ray_color_loop T r (S n) i j n st1 = Ok st1).
  { destruct n; cbn [ray_color_loop]; unfold StatusStack.empty;
      now rewrite (holds_nil_empty _ Ds _ i j HS1). }
  rewrite Hdone. unfold final_color, ResultStack.empty, ResultStack.top.
  rewrite (holds_nonempty _ Dr _ i j [] c HR1). cbn [negb].
  destruct (holds_pop _ Dr _ i j [] c HDr HR1) as (Htop & _).
  rewrite Htop. eexists. split; reflexivity.
Qed.

(** X18. A primary ray that hits a diffuse surface, with at least one slot
    on each stack and a depth limit above zero, yields exactly the color
    [bling_phong] computes for that ray and that hit; one iteration is
    enough and no random number is drawn. *)
Theorem primary_diffuse_hit (T : Taichi) (r : Renderer) (i j : Z) (primary : Ray)
        (st : State) (n : nat) :
  let rec := hit (world r) primary Inf in
  1 <= FieldStack.max_depth (status_stack st) <= max_i32 ->
  1 <= FieldStack.max_depth (result_stack st) <= max_i32 ->
  0 < max_depth r ->
  is_hit rec = true ->
  m_type (mat rec) = DIFFUSE_AND_GLOSSY ->
  exists st', ray_color T r (S n) i j primary st = Ok (bling_phong T r primary rec, st') /\
              rng st' = rng st.
Proof.
  intros rec HDs HDr Hmax Hhit Hmat.
  destruct (start_state_holds i j primary st HDs ltac:(lia)) as (Hh0 & HR0 & Hg0).
  destruct (step_diffuse T r (S n) i j (FieldStack.max_depth (status_stack st))
                         (FieldStack.max_depth (result_stack st)) ltac:(lia) ltac:(lia)
                         (start_state i j primary st) [] []
                         (mkStatusFrame TASK_PROCESS 0 primary 1)
                         Hh0 HR0 eq_refl Hmax Hhit Hmat ltac:(simpl; lia))
    as (st1 & Hstep & HS1 & HR1 & Hg1).
  destruct (one_step_trace T r i j primary st st1 (FieldStack.max_depth (status_stack st))
                           (FieldStack.max_depth (result_stack st)) _ n ltac:(lia)
                           Hstep Hh0 HS1 HR1)
    as (st' & Hrun & Hg').
  exists st'. split; [exact Hrun | congruence].
Qed.

(** X19. With a depth limit of zero or less the primary frame is already
    exhausted: whatever the scene, the lights and the ray, the pixel is
    (0, 0, 0), no intersection is made and no random number is drawn. *)
Theorem depth_limit_zero (T : Taichi) (r : Renderer) (i j : Z) (primary : Ray)
        (st : State) (n : nat) :
  1 <= FieldStack.max_depth (status_stack st) <= max_i32 ->
  1 <= FieldStack.max_depth (result_stack st) <= max_i32 ->
  max_depth r <= 0 ->
  exists st', ray_color T r (S n) i j primary st = Ok (black, st') /\ rng st' = rng st.
Proof.
  intros HDs HDr Hmax.
  destruct (start_state_holds i j primary st HDs ltac:(lia)) as (Hh0 & HR0 & Hg0).
  destruct (step_exhausted T r (S n) i j (FieldStack.max_depth (status_stack st))
                           (FieldStack.max_depth (result_stack st)) ltac:(lia) ltac:(lia)
                           (start_state i j primary st) [] []
                           (mkStatusFrame TASK_PROCESS 0 primary 1)
                           Hh0 HR0 eq_refl ltac:(cbn [depth]; lia) ltac:(simpl; lia))
    as (st1 & Hstep & HS1 & HR1 & Hg1).
  destruct (one_step_trace T r i j primary st st1 (FieldStack.max_depth (status_stack st))
                           (FieldStack.max_depth (result_stack st)) _ n ltac:(lia)
                           Hstep Hh0 HS1 HR1)
    as (st' & Hrun & Hg').
  exists st'. split; [exact Hrun | congruence].
Qed.


(** ** The frame driver *)

Lemma hit_nothing (w : HittableList) (ray : Ray) (tmin : tbound) :
  (forall o c, In o (objs w) -> is_hit (obj_hit o ray c) = false) ->
  hit w ray tmin = HitRecord0.
Proof.
  intros Hnone.
  destruct (hit_fold_invariant ray tmin (objs w) HitRecord0 tmin (or_introl (conj eq_refl eq_refl)))
    as [[Heq | (o & c & Hin & Hout & Hh)] _]; cbn zeta in *.
  - unfold hit. now rewrite Heq.
  - rewrite Hout, (Hnone o c Hin) in Hh. discriminate.
Qed.

Lemma render_pixel_miss (T : Taichi) (G : Trig) (r : Renderer) (n : nat) (i j : Z)
      (st : State) (frame_buf : FrameBuf) :
  0 < max_depth r ->
  (forall o ray c, In o (objs (world r)) -> is_hit (obj_hit o ray c) = false) ->
  exists st', render_pixel T G r (S n) i j st frame_buf
              = Ok (st', upd2 frame_buf i j (background_color r)).
Proof.
  intros Hmax Hnone. unfold render_pixel.
  destruct (primary_ray T G r i j (rng st)) as [primary g].
  assert (Hmiss : is_hit (hit (world r) primary Inf) = false).
  { rewrite hit_nothing; [reflexivity|]. intros o c Hin. now apply Hnone. }
  destruct (primary_miss T r i j primary (mkState (status_stack st) (result_stack st) g)
                         n Hmax Hmiss) as (st' & Hrun & _).
  rewrite Hrun. now exists st'.
Qed.

(** X21. Rendering a scene none of whose objects is ever hit (an empty world
    in particular), with a depth limit above zero, succeeds for every order
    of the lanes, every random stream and every fuel of at least one: each
    pixel that was rendered holds the background color and every other entry
    of the frame buffer is left as it was. *)
Theorem render_unhit_scene (T : Taichi) (G : Trig) (r : Renderer) (n : nat)
        (pixels : list (Z * Z)) (st : State) (frame_buf : FrameBuf) :
  0 < max_depth r ->
  (forall o ray c, In o (objs (world r)) -> is_hit (obj_hit o ray c) = false) ->
  exists st' frame_buf',
    render T G r (S n) pixels st frame_buf = Ok (st', frame_buf') /\
    forall i j,
      (In (i, j) pixels -> frame_buf' i j = background_color r) /\
      (~ In (i, j) pixels -> frame_buf' i j = frame_buf i j).
Proof.
  intros Hmax Hnone. revert st frame_buf.
  assert (Hdec : forall x y : Z * Z, {x = y} + {x <> y})
    by (decide equality; apply Z.eq_dec).
  induction pixels as [| [i0 j0] rest IH]; intros st frame_buf.
  - exists st, frame_buf. split; [reflexivity|]. intros i j. split; [intros [] | reflexivity].
  - cbn [render].
    destruct (render_pixel_miss T G r n i0 j0 st frame_buf Hmax Hnone) as (st1 & ->).
    destruct (IH st1 (upd2 frame_buf i0 j0 (background_color r)))
      as (st' & fb' & Hrun & Hfb).
    exists st', fb'. split; [exact Hrun|].
    intros i j. destruct (Hfb i j) as [Hin Hout]. split.
    + intros [E | Hrest]; [| now apply Hin].
      destruct (in_dec Hdec (i, j) rest) as [Hr | Hr]; [now apply Hin|].
      rewrite (Hout Hr). inversion E; subst. apply upd2_same.
    + intros Hnot.
      assert (Hr : ~ In (i, j) rest) by (intros H; apply Hnot; now right).
      rewrite (Hout Hr). apply upd2_other. intros E. apply Hnot. left. now symmetry.
Qed.

(** ** Overflow inside a trace *)

Lemma push_three (ss : StatusStack.t) (i j : Z) (a b c : StatusFrame) :
  snd (StatusStack.push (snd (StatusStack.push (snd (StatusStack.push ss i j a)) i j b)) i j c)
  = snd (FieldStack.push_all ss i j [a; b; c]).
Proof.
  unfold StatusStack.push. cbn [FieldStack.push_all].
  destruct (FieldStack.push ss i j a) as [b1 s1]. cbn [snd].
  destruct (FieldStack.push s1 i j b) as [b2 s2]. cbn [snd].
  now destruct (FieldStack.push s2 i j c) as [b3 s3].
Qed.

Lemma push_two (ss : StatusStack.t) (i j : Z) (a b : StatusFrame) :
  snd (StatusStack.push (snd (StatusStack.push ss i j a)) i j b)
  = snd (FieldStack.push_all ss i j [a; b]).
Proof.
  unfold StatusStack.push. cbn [FieldStack.push_all].
  destruct (FieldStack.push ss i j a) as [b1 s1]. cbn [snd].
  now destruct (FieldStack.push s1 i j b) as [b2 s2].
Qed.

Lemma push_one (rs : ResultStack.t) (i j : Z) (c : Color) :
  snd (ResultStack.push rs i j c) = snd (FieldStack.push_all rs i j [c]).
Proof.
  unfold ResultStack.push. cbn [FieldStack.push_all].
  now destruct (FieldStack.push rs i j c) as [b1 s1].
Qed.

(** X23. A mirror-like hit below the depth limit always continues, whatever
    room the stacks have: of the frames MERGE, reflect, refract (in this
    order) the status stack receives the ones that fit and the others are
    dropped without a trace; the MERGE frame always fits, because the frame
    being processed has just been popped.  For a REFLECTION material the
    placeholder is likewise dropped when the result stack is full. *)
Theorem specular_hit_keeps_what_fits (T : Taichi) (r : Renderer) (fuel : nat) (i j : Z)
        (Ds Dr : Z) (st : State) (S : list StatusFrame) (R : list Color)
        (frame : StatusFrame) (u : vec3) (g1 : nat) :
  Ds <= max_i32 -> Dr <= max_i32 ->
  holds Ds (status_stack st) i j (S ++ [frame]) ->
  holds Dr (result_stack st) i j R ->
  task_type frame = TASK_PROCESS ->
  depth frame < max_depth r ->
  let rec := hit (world r) (ray frame) Inf in
  is_hit rec = true ->
  random_unit_vector T fuel (rng st) = Some (u, g1) ->
  let M := merge_frame T frame rec in
  let P_reflect := reflect_frame T r frame rec u in
  let P_refract := refract_frame T frame rec in
  let room := Z.to_nat (Ds - Z.of_nat (length S)) in
  (1 <= room)%nat /\
  (m_type (mat rec) = REFLECTION_AND_REFRACTION ->
   exists st1,
     ray_color_step T r fuel i j st = Ok (Continue, st1) /\
     holds Ds (status_stack st1) i j (S ++ firstn room [M; P_reflect; P_refract]) /\
     result_stack st1 = result_stack st) /\
  (m_type (mat rec) = REFLECTION ->
   exists st1,
     ray_color_step T r fuel i j st = Ok (Continue, st1) /\
     holds Ds (status_stack st1) i j (S ++ firstn room [M; P_reflect]) /\
     holds Dr (result_stack st1) i j
           (R ++ firstn (Z.to_nat (Dr - Z.of_nat (length R))) [placeholder r])).
Proof.
  intros HDs HDr Hh HR Htask Hdepth rec Hhit Hrand M P_reflect P_refract room.
  assert (Hroom : (1 <= room)%nat).
  { pose proof (holds_ptr _ Ds _ i j _ Hh) as Hptr. rewrite length_app in Hptr.
    cbn [length] in Hptr. destruct Hh as (_ & Hp & _). unfold room. lia. }
  destruct (process_hit_unfold T r fuel i j Ds HDs st S frame Hh Htask Hdepth Hhit)
    as [Hss Hstep].
  fold rec in Hstep.
  set (ss := snd (StatusStack.pop (status_stack st) i j)) in *.
  split; [exact Hroom|]. split; intros Hmat.
  - rewrite Hstep, Hmat. cbn [m_type_eqb orb].
    unfold process_specular. rewrite Hrand, Hmat. cbn [m_type_eqb].
    fold M P_reflect P_refract. rewrite push_three.
    eexists. split; [reflexivity|]. cbn [status_stack result_stack].
    split; [| reflexivity].
    exact (proj1 (push_all_contents StatusFrame Ds [M; P_reflect; P_refract] HDs ss i j S Hss)).
  - rewrite Hstep, Hmat. cbn [m_type_eqb orb].
    unfold process_specular. rewrite Hrand, Hmat. cbn [m_type_eqb].
    fold M P_reflect. rewrite push_two, push_one.
    eexists. split; [reflexivity|]. cbn [status_stack result_stack].
    split.
    + exact (proj1 (push_all_contents StatusFrame Ds [M; P_reflect] HDs ss i j S Hss)).
    + exact (proj1 (push_all_contents Color Dr [placeholder r] HDr _ i j R HR)).
Qed.

(** ** Concrete instances *)

Lemma init_reachable {A : Type} (zero : A) (D : Z) :
  FieldStack.reachable D (FieldStack.init zero D).
Proof. exists (FieldStack.init zero D), []. now repeat split. Qed.

Lemma push_top_pop_roundtrip_witness :
  let s := ResultStack.init 1 1 2 in
  2 <= max_i32 /\
  FieldStack.reachable 2 s /\
  FieldStack.ptr s 0 0 + 1 < 2 /\
  FieldStack.top (snd (FieldStack.push s 0 0 white)) 0 0 = Some white /\
  FieldStack.contents (snd (FieldStack.pop (snd (FieldStack.push s 0 0 white)) 0 0)) 0 0
  = FieldStack.contents s 0 0.
Proof.
  cbv zeta.
  assert (HD : 2 <= max_i32) by (unfold max_i32; lia).
  assert (Hreach : FieldStack.reachable 2 (ResultStack.init 1 1 2)) by apply init_reachable.
  assert (Hroom : FieldStack.ptr (ResultStack.init 1 1 2) 0 0 + 1 < 2) by reflexivity.
  split; [exact HD|]. split; [exact Hreach|]. split; [exact Hroom|].
  destruct (push_top_pop_roundtrip Color 2 (ResultStack.init 1 1 2) 0 0 white HD Hreach Hroom)
    as (_ & Htop & _ & _ & _ & Hc).
  split; [exact Htop | exact Hc].
Defined.

Lemma push_all_keeps_what_fits_witness :
  let s := ResultStack.init 1 1 2 in
  2 <= max_i32 /\
  FieldStack.reachable 2 s /\
  FieldStack.ptr s 0 0 < 2 /\
  FieldStack.contents (snd (FieldStack.push_all s 0 0 three_colors)) 0 0
  = FieldStack.contents s 0 0
    ++ firstn (Z.to_nat 2 - length (FieldStack.contents s 0 0)) three_colors.
Proof.
  cbv zeta.
  assert (HD : 2 <= max_i32) by (unfold max_i32; lia).
  assert (Hreach : FieldStack.reachable 2 (ResultStack.init 1 1 2)) by apply init_reachable.
  assert (Hlt : FieldStack.ptr (ResultStack.init 1 1 2) 0 0 < 2) by reflexivity.
  split; [exact HD|]. split; [exact Hreach|]. split; [exact Hlt|].
  exact (proj1 (push_all_keeps_what_fits Color 2 (ResultStack.init 1 1 2) 0 0 three_colors
                                         HD Hreach Hlt)).
Defined.

Lemma top_none_iff_empty_witness :
  let s := StatusStack.init 1 1 2 in
  2 <= max_i32 /\
  FieldStack.reachable 2 s /\
  (FieldStack.top s 0 0 = None <-> FieldStack.empty s 0 0 = true).
Proof.
  cbv zeta.
  assert (HD : 2 <= max_i32) by (unfold max_i32; lia).
  assert (Hreach : FieldStack.reachable 2 (StatusStack.init 1 1 2)) by apply init_reachable.
  split; [exact HD|]. split; [exact Hreach|].
  exact (top_none_iff_empty StatusFrame 2 (StatusStack.init 1 1 2) 0 0 HD Hreach).
Defined.

Lemma other_pixels_untouched_witness :
  let s := snd (FieldStack.push (ResultStack.init 2 1 2) 1 0 white) in
  (forall o, In o lane_ops -> op_pixel o <> (1, 0)) /\
  FieldStack.top (FieldStack.run_ops s lane_ops) 1 0 = FieldStack.top s 1 0 /\
  FieldStack.contents (FieldStack.run_ops s lane_ops) 1 0 = FieldStack.contents s 1 0.
Proof.
  cbv zeta.
  assert (Hops : forall o, In o lane_ops -> op_pixel o <> (1, 0)).
  { intros o [<- | [<- | [<- | []]]]; discriminate. }
  split; [exact Hops|].
  destruct (other_pixels_untouched Color
              (snd (FieldStack.push (ResultStack.init 2 1 2) 1 0 white)) lane_ops 1 0 Hops)
    as (_ & Ht & Hc & _).
  split; [exact Ht | exact Hc].
Defined.

Local Open Scope Q_scope.

Lemma reflect_unit_normal_witness :
  let n := mkVec 0 0 1 in
  let v := mkVec (3 # 5) 0 (-4 # 5) in
  dot n n == 1 /\
  dot (reflect v n) n == - dot v n /\
  dot (reflect v n) (reflect v n) == dot v v /\
  veq (reflect (reflect v n) n) v.
Proof.
  cbv zeta.
  assert (Hn : dot (mkVec 0 0 1) (mkVec 0 0 1) == 1) by reflexivity.
  split; [exact Hn|].
  exact (reflect_unit_normal (mkVec (3 # 5) 0 (-4 # 5)) (mkVec 0 0 1) Hn).
Defined.

Lemma refract_normal_component_witness :
  let n := mkVec 0 0 1 in
  let v := mkVec (3 # 5) 0 (-4 # 5) in
  dot n n == 1 /\
  dot n (vneg v) <= 1 /\
  dot (refract T0 v n 1) n <= 0.
Proof.
  cbv zeta.
  assert (Hn : dot (mkVec 0 0 1) (mkVec 0 0 1) == 1) by reflexivity.
  assert (Hc : dot (mkVec 0 0 1) (vneg (mkVec (3 # 5) 0 (-4 # 5))) <= 1) by discriminate.
  split; [exact Hn|]. split; [exact Hc|].
  destruct (refract_normal_component T0 (mkVec (3 # 5) 0 (-4 # 5)) (mkVec 0 0 1) 1 Hn Hc)
    as (_ & _ & Hfar).
  apply Hfar. discriminate.
Defined.

Lemma reflectance_shape_witness :
  0 < 3 # 2 /\
  reflectance 0 (3 # 2) == 1 /\
  reflectance (1 # 2) (1 / (3 # 2)) == reflectance (1 # 2) (3 # 2) /\
  reflectance 1 (3 # 2) <= reflectance (1 # 2) (3 # 2).
Proof.
  assert (Hi : 0 < 3 # 2) by reflexivity.
  split; [exact Hi|].
  destruct (reflectance_shape (3 # 2) Hi) as (Hg & Hinv & Hmono).
  split; [exact Hg|]. split; [exact (Hinv (1 # 2))|].
  apply Hmono; discriminate.
Defined.

Lemma kr_of_range_witness :
  let frame := mkStatusFrame TASK_PROCESS 0 slant 1 in
  let rec := hit (world corridor_scene) slant Inf in
  0 < ior (mat rec) /\
  dot (normalized T0 (rd (ray frame))) (N rec) <= 0 /\
  0 <= kr_of T0 frame rec <= 1.
Proof.
  cbv zeta.
  assert (Hi : 0 < ior (mat (hit (world corridor_scene) slant Inf))) by reflexivity.
  assert (Hd : dot (normalized T0 (rd (ray (mkStatusFrame TASK_PROCESS 0 slant 1))))
                   (N (hit (world corridor_scene) slant Inf)) <= 0) by discriminate.
  split; [exact Hi|]. split; [exact Hd|].
  destruct (kr_of_range T0 (mkStatusFrame TASK_PROCESS 0 slant 1)
                        (hit (world corridor_scene) slant Inf) Hi) as (Hlo & Hhi & _).
  split; [exact Hlo | exact (Hhi Hd)].
Defined.

Lemma random_unit_vector_accepts_witness :
  random_unit_vector T0 5 0 = Some (mkVec (4 # 4) (0 # 2) (0 # 2), 3%nat) /\
  exists p k,
    mkVec (4 # 4) (0 # 2) (0 # 2) = normalized T0 p /\
    norm T0 p < 1 /\
    (1 <= k <= 6)%nat /\
    3%nat = (0 + 3 * k)%nat /\
    p = fst (unit_cube_point T0 (0 + 3 * (k - 1))%nat).
Proof.
  assert (Hrun : random_unit_vector T0 5 0 = Some (mkVec (4 # 4) (0 # 2) (0 # 2), 3%nat))
    by reflexivity.
  split; [exact Hrun|].
  exact (random_unit_vector_accepts T0 5 0 _ _ Hrun).
Defined.

Lemma hit_comes_from_an_object_witness :
  is_hit (hit two_strips down Inf) = true /\
  lt_bound (t (hit two_strips down Inf)) Inf = true /\
  exists o c, In o (objs two_strips) /\ hit two_strips down Inf = obj_hit o down c.
Proof.
  assert (Hhit : is_hit (hit two_strips down Inf) = true) by reflexivity.
  split; [exact Hhit|].
  exact (proj1 (hit_comes_from_an_object two_strips down Inf) Hhit).
Defined.

Lemma two_strips_respect : forall o, In o (objs two_strips) -> respects_tmax o.
Proof.
  intros o [<- | [<- | []]]; apply strip_respects_tmax.
Qed.

Lemma hit_is_nearest_witness :
  (forall o, In o (objs two_strips) -> respects_tmax o) /\
  is_hit (hit two_strips down Inf) = true /\
  t (hit two_strips down Inf) == 1 /\
  forall o, In o (objs two_strips) -> is_hit (obj_hit o down Inf) = true ->
            t (hit two_strips down Inf) <= t (obj_hit o down Inf).
Proof.
  assert (Hhit : is_hit (hit two_strips down Inf) = true) by reflexivity.
  split; [exact two_strips_respect|]. split; [exact Hhit|]. split; [reflexivity|].
  exact (proj2 (proj2 (hit_is_nearest two_strips down Inf two_strips_respect) Hhit)).
Defined.

Lemma add_missed_object_witness :
  (forall c, is_hit (obj_hit ceiling down c) = false) /\
  hit (HittableList_add two_strips ceiling) down Inf = hit two_strips down Inf.
Proof.
  assert (Hmiss : forall c, is_hit (obj_hit ceiling down c) = false)
    by (intros c; reflexivity).
  split; [exact Hmiss|].
  exact (add_missed_object two_strips ceiling down Inf Hmiss).
Defined.

Lemma no_lights_is_black_witness :
  point_lights (lights mirror_scene) = [] /\
  veq (bling_phong T0 mirror_scene towards_wall wall_point) vzero.
Proof.
  assert (Hnone : point_lights (lights mirror_scene) = []) by reflexivity.
  split; [exact Hnone|].
  exact (proj1 (no_lights_is_black T0 mirror_scene towards_wall wall_point Hnone)).
Defined.

Lemma light_order_irrelevant_witness :
  world swapped_lamp_scene = world two_lamp_scene /\
  ambient_light (lights swapped_lamp_scene) = ambient_light (lights two_lamp_scene) /\
  Permutation (point_lights (lights two_lamp_scene))
              (point_lights (lights swapped_lamp_scene)) /\
  veq (bling_phong T0 two_lamp_scene towards_wall wall_point)
      (bling_phong T0 swapped_lamp_scene towards_wall wall_point).
Proof.
  assert (Hperm : Permutation (point_lights (lights two_lamp_scene))
                              (point_lights (lights swapped_lamp_scene)))
    by apply perm_swap.
  split; [reflexivity|]. split; [reflexivity|]. split; [exact Hperm|].
  exact (light_order_irrelevant T0 two_lamp_scene swapped_lamp_scene towards_wall wall_point
                                eq_refl eq_refl Hperm).
Defined.

Local Open Scope Z_scope.

Lemma ray_color_stays_in_its_lane_witness :
  exists c st',
    ray_color T0 mirror_scene 5 0 0 down (init_state mirror_scene) = Ok (c, st') /\
    same_elsewhere (status_stack (init_state mirror_scene)) (status_stack st') 0 0 /\
    same_elsewhere (result_stack (init_state mirror_scene)) (result_stack st') 0 0.
Proof.
  destruct (ray_color T0 mirror_scene 5 0 0 down (init_state mirror_scene))
    as [[c st'] | |] eqn:E.
  - exists c, st'. split; [reflexivity|].
    exact (ray_color_stays_in_its_lane T0 mirror_scene 5 0 0 down _ c st' E).
  - vm_compute in E. discriminate.
  - vm_compute in E. discriminate.
Defined.

Lemma ray_color_terminates_witness :
  FieldStack.max_depth (status_stack (init_state mirror_scene)) <= max_i32 /\
  max_depth mirror_scene <= max_i32 /\
  (forall g, random_unit_vector T1 5 g <> None) /\
  (3 * 2 ^ Z.to_nat (max_depth mirror_scene) - 2 <= 5)%nat /\
  ray_color T1 mirror_scene 5 0 0 down (init_state mirror_scene) <> OutOfFuel.
Proof.
  assert (HDs : FieldStack.max_depth (status_stack (init_state mirror_scene)) <= max_i32)
    by (vm_compute; congruence).
  assert (Hmax : max_depth mirror_scene <= max_i32) by (vm_compute; congruence).
  assert (Hs : forall g, random_unit_vector T1 5 g <> None) by (intros g; discriminate).
  assert (Hf : (3 * 2 ^ Z.to_nat (max_depth mirror_scene) - 2 <= 5)%nat)
    by (vm_compute; lia).
  split; [exact HDs|]. split; [exact Hmax|]. split; [exact Hs|]. split; [exact Hf|].
  exact (ray_color_terminates T1 mirror_scene 5 0 0 down (init_state mirror_scene)
                              HDs Hmax Hs Hf).
Defined.

Lemma ray_color_computes_trace_value_witness :
  let r := mirror_scene in
  let frame := mkStatusFrame TASK_PROCESS 0 down 1 in
  let rec := hit (world r) down Inf in
  let c := combine (kr_of T0 frame rec) (placeholder r) black in
  FieldStack.max_depth (status_stack (init_state r)) <= max_i32 /\
  FieldStack.max_depth (result_stack (init_state r)) <= max_i32 /\
  max_depth r <= max_i32 /\
  1 + 2 * Z.max 0 (max_depth r) <= FieldStack.max_depth (status_stack (init_state r)) /\
  1 + Z.max 0 (max_depth r) <= FieldStack.max_depth (result_stack (init_state r)) /\
  trace_value T0 r 5 frame (rng (init_state r)) c 3%nat /\
  exists n, forall m, (n <= m)%nat ->
    exists st', ray_color_loop T0 r 5 0 0 m (start_state 0 0 down (init_state r)) = Ok st' /\
                pixel_of (final_color r 0 0 st') = Some c.
Proof.
  cbv zeta.
  assert (H1 : FieldStack.max_depth (status_stack (init_state mirror_scene)) <= max_i32)
    by (vm_compute; congruence).
  assert (H2 : FieldStack.max_depth (result_stack (init_state mirror_scene)) <= max_i32)
    by (vm_compute; congruence).
  assert (H3 : max_depth mirror_scene <= max_i32) by (vm_compute; congruence).
  assert (H4 : 1 + 2 * Z.max 0 (max_depth mirror_scene)
               <= FieldStack.max_depth (status_stack (init_state mirror_scene)))
    by (vm_compute; congruence).
  assert (H5 : 1 + Z.max 0 (max_depth mirror_scene)
               <= FieldStack.max_depth (result_stack (init_state mirror_scene)))
    by (vm_compute; congruence).
  assert (Htv : trace_value T0 mirror_scene 5 (mkStatusFrame TASK_PROCESS 0 down 1)
                  (rng (init_state mirror_scene))
                  (combine (kr_of T0 (mkStatusFrame TASK_PROCESS 0 down 1)
                                  (hit (world mirror_scene) down Inf))
                           (placeholder mirror_scene) black) 3%nat).
  { eapply (tv_reflection T0 mirror_scene 5 (mkStatusFrame TASK_PROCESS 0 down 1) O).
    - reflexivity.
    - reflexivity.
    - reflexivity.
    - reflexivity.
    - reflexivity.
    - apply tv_exhausted; [reflexivity | vm_compute; congruence]. }
  repeat (split; [assumption|]).
  exact (ray_color_computes_trace_value T0 mirror_scene 5 0 0 down (init_state mirror_scene)
                                        _ 3%nat H1 H2 H3 H4 H5 Htv).
Defined.

Lemma merge_underflow_witness :
  3 <= max_i32 /\
  holds 3 (status_stack starved_merge) 0 0 ([] ++ [mkStatusFrame TASK_MERGE 1 Ray0 (1 # 2)]) /\
  holds 3 (result_stack starved_merge) 0 0 [white] /\
  (length [white] < 2)%nat /\
  ray_color_step T0 mirror_scene 5 0 0 starved_merge = OutOfBounds.
Proof.
  assert (HD : 3 <= max_i32) by (unfold max_i32; lia).
  assert (Hh : holds 3 (status_stack starved_merge) 0 0
                     ([] ++ [mkStatusFrame TASK_MERGE 1 Ray0 (1 # 2)]))
    by (repeat split; vm_compute; congruence).
  assert (HR : holds 3 (result_stack starved_merge) 0 0 [white])
    by (repeat split; vm_compute; congruence).
  assert (Hlen : (length [white] < 2)%nat) by (cbn; lia).
  split; [exact HD|]. split; [exact Hh|]. split; [exact HR|]. split; [exact Hlen|].
  exact (proj2 (merge_underflow T0 mirror_scene 5 0 0 starved_merge 3 3 [] _ [white]
                                HD HD Hh HR eq_refl Hlen)).
Defined.

Lemma primary_diffuse_hit_witness :
  let r := matte_scene in
  let rec := hit (world r) down Inf in
  1 <= FieldStack.max_depth (status_stack (init_state r)) <= max_i32 /\
  1 <= FieldStack.max_depth (result_stack (init_state r)) <= max_i32 /\
  0 < max_depth r /\
  is_hit rec = true /\
  m_type (mat rec) = DIFFUSE_AND_GLOSSY /\
  exists st', ray_color T0 r 1 0 0 down (init_state r) = Ok (bling_phong T0 r down rec, st') /\
              rng st' = rng (init_state r).
Proof.
  cbv zeta.
  assert (H1 : 1 <= FieldStack.max_depth (status_stack (init_state matte_scene)) <= max_i32)
    by (vm_compute; split; congruence).
  assert (H2 : 1 <= FieldStack.max_depth (result_stack (init_state matte_scene)) <= max_i32)
    by (vm_compute; split; congruence).
  assert (H3 : 0 < max_depth matte_scene) by reflexivity.
  assert (H4 : is_hit (hit (world matte_scene) down Inf) = true) by reflexivity.
  assert (H5 : m_type (mat (hit (world matte_scene) down Inf)) = DIFFUSE_AND_GLOSSY)
    by reflexivity.
  repeat (split; [assumption|]).
  exact (primary_diffuse_hit T0 matte_scene 0 0 down (init_state matte_scene) O
                             H1 H2 H3 H4 H5).
Defined.

Lemma depth_limit_zero_witness :
  1 <= FieldStack.max_depth (status_stack (init_state dark_scene)) <= max_i32 /\
  1 <= FieldStack.max_depth (result_stack (init_state dark_scene)) <= max_i32 /\
  max_depth dark_scene <= 0 /\
  exists st', ray_color T0 dark_scene 1 0 0 down (init_state dark_scene) = Ok (black, st') /\
              rng st' = rng (init_state dark_scene).
Proof.
  assert (H1 : 1 <= FieldStack.max_depth (status_stack (init_state dark_scene)) <= max_i32)
    by (vm_compute; split; congruence).
  assert (H2 : 1 <= FieldStack.max_depth (result_stack (init_state dark_scene)) <= max_i32)
    by (vm_compute; split; congruence).
  assert (H3 : max_depth dark_scene <= 0) by (vm_compute; congruence).
  repeat (split; [assumption|]).
  exact (depth_limit_zero T0 dark_scene 0 0 down (init_state dark_scene) O H1 H2 H3).
Defined.


Lemma render_unhit_scene_witness :
  let r := empty_scene 1 in
  0 < max_depth r /\
  (forall o ray c, In o (objs (world r)) -> is_hit (obj_hit o ray c) = false) /\
  exists st' frame_buf',
    render T0 G0 r 1 [(0, 0); (1, 0)] (init_state r) (fun _ _ => black) = Ok (st', frame_buf') /\
    frame_buf' 0 0 = background_color r /\
    frame_buf' 1 0 = background_color r /\
    frame_buf' 0 1 = black.
Proof.
  cbv zeta.
  assert (Hmax : 0 < max_depth (empty_scene 1)) by reflexivity.
  assert (Hnone : forall o ray c, In o (objs (world (empty_scene 1))) ->
                                  is_hit (obj_hit o ray c) = false)
    by (intros o ray c []).
  split; [exact Hmax|]. split; [exact Hnone|].
  destruct (render_unhit_scene T0 G0 (empty_scene 1) O [(0, 0); (1, 0)]
                               (init_state (empty_scene 1)) (fun _ _ => black) Hmax Hnone)
    as (st' & fb' & Hrun & Hfb).
  exists st', fb'. split; [exact Hrun|].
  split; [apply (Hfb 0 0); now left|].
  split; [apply (Hfb 1 0); right; now left|].
  apply (Hfb 0 1). intros [E | [E | []]]; discriminate.
Defined.

Lemma hit_order_irrelevant_witness :
  (forall o, In o (objs two_strips) -> respects_tmax o) /\
  Permutation (objs two_strips) (objs two_strips_swapped) /\
  is_hit (hit two_strips_swapped down Inf) = is_hit (hit two_strips down Inf) /\
  (t (hit two_strips_swapped down Inf) == t (hit two_strips down Inf))%Q.
Proof.
  assert (Hperm : Permutation (objs two_strips) (objs two_strips_swapped)) by apply perm_swap.
  split; [exact two_strips_respect|]. split; [exact Hperm|].
  destruct (hit_order_irrelevant two_strips two_strips_swapped down Inf
                                 two_strips_respect Hperm) as [Hflag Hdist].
  split; [exact Hflag | apply Hdist; reflexivity].
Defined.

Lemma specular_hit_keeps_what_fits_witness :
  let r := tight_glass_scene in
  let frame := mkStatusFrame TASK_PROCESS 0 down 1 in
  let st := start_state 0 0 down (init_state r) in
  let rec := hit (world r) (ray frame) Inf in
  let u := mkVec (4 # 4) (0 # 2) (0 # 2) in
  1 <= max_i32 /\
  holds 1 (status_stack st) 0 0 ([] ++ [frame]) /\
  holds 1 (result_stack st) 0 0 [] /\
  depth frame < max_depth r /\
  is_hit rec = true /\
  random_unit_vector T0 5 (rng st) = Some (u, 3%nat) /\
  m_type (mat rec) = REFLECTION_AND_REFRACTION /\
  exists st1,
    ray_color_step T0 r 5 0 0 st = Ok (Continue, st1) /\
    holds 1 (status_stack st1) 0 0 [merge_frame T0 frame rec].
Proof.
  cbv zeta.
  set (r := tight_glass_scene).
  set (frame := mkStatusFrame TASK_PROCESS 0 down 1).
  set (st := start_state 0 0 down (init_state r)).
  assert (HD : 1 <= max_i32) by (unfold max_i32; lia).
  assert (Hh : holds 1 (status_stack st) 0 0 ([] ++ [frame]))
    by (repeat split; vm_compute; congruence).
  assert (HR : holds 1 (result_stack st) 0 0 [])
    by (repeat split; vm_compute; congruence).
  assert (Hd : depth frame < max_depth r) by reflexivity.
  assert (Hhit : is_hit (hit (world r) (ray frame) Inf) = true) by reflexivity.
  assert (Hrand : random_unit_vector T0 5 (rng st)
                  = Some (mkVec (4 # 4) (0 # 2) (0 # 2), 3%nat)) by reflexivity.
  assert (Hmat : m_type (mat (hit (world r) (ray frame) Inf)) = REFLECTION_AND_REFRACTION)
    by reflexivity.
  repeat (split; [assumption|]).
  destruct (specular_hit_keeps_what_fits T0 r 5 0 0 1 1 st [] [] frame _ 3%nat
                                         HD HD Hh HR eq_refl Hd Hhit Hrand)
    as (_ & Hboth & _).
  destruct (Hboth Hmat) as (st1 & Hstep & Hs1 & _).
  exists st1. split; [exact Hstep | exact Hs1].
Defined.
